(** * pynapple: time-series containers and correlograms

    A shallow embedding of [pynapple/core/time_series.py] and
    [pynapple/process/correlograms.py], and of parts of
    [pynapple/core/metadata_class.py],
    [pynapple/process/signal_processing.py] and
    [pynapple/process/perievent.py].

    Conventions of the embedding
    - a numpy array of float64 is a [list Q]: arithmetic is exact rational
      arithmetic, so statements are about the algorithms and not about
      rounding;
    - the result of a numpy true division is an [npfloat], which keeps the
      IEEE results of dividing by zero ([inf], [nan]) apart from numbers;
    - a Python exception is a value of [exn]; a function that may raise
      returns a [result]. *)

From Stdlib Require Import QArith Qround Qabs ZArith List Sorted Lia Lqa Bool.
From stdpp Require Import gmap strings list fin_maps.

Open Scope Q_scope.

(** ** Python values that escape: exceptions *)

Inductive exn : Type :=
| TypeError
| ValueError
| KeyError
| IndexError
| RuntimeError
| ZeroDivisionError.

Inductive result (A : Type) : Type :=
| Ok (a : A)
| Raise (e : exn).
Arguments Ok {A} a.
Arguments Raise {A} e.

Definition bind {A B : Type} (r : result A) (k : A -> result B) : result B :=
  match r with
  | Ok a => k a
  | Raise e => Raise e
  end.

Notation "'let!' x ':=' r 'in' k" := (bind r (fun x => k))
  (at level 10, x pattern, r at level 100, k at level 200).

(** ** Numbers *)

Definition Qlt_bool (x y : Q) : bool := negb (Qle_bool y x).

(** The value of a numpy division: a number, or one of the IEEE specials. *)
Inductive npfloat : Type :=
| Fin (q : Q)
| PInf
| NInf
| NaN.

(** [a / b] on float64 under numpy's error model: nothing is raised, a zero
    divisor gives [inf] or [nan]. *)
Definition fdiv (a b : npfloat) : npfloat :=
  match a, b with
  | NaN, _ | _, NaN => NaN
  | Fin x, Fin y =>
      if Qeq_bool y 0 then
        match Qcompare x 0 with
        | Eq => NaN
        | Gt => PInf
        | Lt => NInf
        end
      else Fin (x / y)
  | Fin _, (PInf | NInf) => Fin 0
  | PInf, Fin y => if Qle_bool 0 y then PInf else NInf
  | NInf, Fin y => if Qle_bool 0 y then NInf else PInf
  | (PInf | NInf), (PInf | NInf) => NaN
  end.

(** [len(a)] as a float. *)
Definition len {A : Type} (a : list A) : Q := inject_Z (Z.of_nat (length a)).

(** ** correlograms.py *)

Module Correlograms.

(** [a[i]] for an index the loop guards keep in range. *)
Definition at_ (a : list Q) (i : nat) : Q := nth i a 0.

(** [while i2 < nt2 and t2[i2] < lbound: i2 = i2 + 1].
    The first argument bounds the iterations; called with [nt2 - i2], which
    the guard [i2 < nt2] never lets it exceed. *)
Fixpoint seek_forward (n : nat) (t2 : list Q) (lbound : Q) (i2 : nat) : nat :=
  match n with
  | O => i2
  | S n' =>
      if (i2 <? length t2)%nat && Qlt_bool (at_ t2 i2) lbound
      then seek_forward n' t2 lbound (S i2)
      else i2
  end.

(** [while i2 > 0 and t2[i2 - 1] > lbound: i2 = i2 - 1]. *)
Fixpoint seek_backward (t2 : list Q) (lbound : Q) (i2 : nat) : nat :=
  match i2 with
  | O => O
  | S p => if Qlt_bool lbound (at_ t2 p) then seek_backward t2 lbound p else i2
  end.

(** [while leftb < nt2 and t2[leftb] < rbound: leftb += 1; k += 1];
    returns [(leftb, k)]. *)
Fixpoint count_bin (n : nat) (t2 : list Q) (rbound : Q) (leftb : nat) (k : Z)
  : nat * Z :=
  match n with
  | O => (leftb, k)
  | S n' =>
      if (leftb <? length t2)%nat && Qlt_bool (at_ t2 leftb) rbound
      then count_bin n' t2 rbound (S leftb) (k + 1)%Z
      else (leftb, k)
  end.

(** One turn of [for j in range(nbins)]: the state is [(rbound, leftb, C)]. *)
Definition bin_step (t2 : list Q) (binsize : Q)
  (st : Q * nat * list Q) (j : nat) : Q * nat * list Q :=
  let '(rbound, leftb, C) := st in
  let rbound := rbound + binsize in
  let '(leftb, k) := count_bin (length t2 - leftb) t2 rbound leftb 0%Z in
  (rbound, leftb, <[j := at_ C j + inject_Z k]> C).

(** One turn of [for i1 in range(nt1)]: the state is [(i2, C)]. *)
Definition ref_step (t1 t2 : list Q) (binsize w : Q) (nbins : nat)
  (st : nat * list Q) (i1 : nat) : nat * list Q :=
  let '(i2, C) := st in
  let lbound := at_ t1 i1 - w in
  let i2 := seek_forward (length t2 - i2) t2 lbound i2 in
  let i2 := seek_backward t2 lbound i2 in
  let '(_, _, C) :=
    fold_left (bin_step t2 binsize) (seq 0 nbins) (lbound, i2, C) in
  (i2, C).

(** [nbins = int((windowsize * 2) // binsize)], then made odd. *)
Definition number_of_bins (binsize windowsize : Q) : Z :=
  let nbins := Qfloor ((windowsize * 2) / binsize) in
  if (Qfloor (inject_Z nbins / 2) * 2 =? nbins)%Z then (nbins + 1)%Z else nbins.

Definition half_window (nbins : Z) (binsize : Q) : Q :=
  (inject_Z nbins / 2) * binsize.

(** [B[j] = m + j * binsize] with [m = -w + binsize / 2]. *)
Definition bin_centers (nbins : nat) (binsize w : Q) : list Q :=
  let m := - w + binsize / 2 in
  map (fun j => m + inject_Z (Z.of_nat j) * binsize) (seq 0 nbins).

Definition _cross_correlogram (t1 t2 : list Q) (binsize windowsize : Q)
  : result (list npfloat * list Q) :=
  let nt1 := length t1 in
  if Qeq_bool binsize 0 then Raise ZeroDivisionError else
  let nbins := number_of_bins binsize windowsize in
  let w := half_window nbins binsize in
  (* np.zeros refuses a negative length *)
  if (nbins <? 0)%Z then Raise ValueError else
  let nbins := Z.to_nat nbins in
  let C := repeat 0 nbins in
  let '(_, C) :=
    fold_left (ref_step t1 t2 binsize w nbins) (seq 0 nt1) (O, C) in
  let C := map (fun c => fdiv (Fin c) (Fin (len t1 * binsize))) C in
  Ok (C, bin_centers nbins binsize w).

End Correlograms.


(** ** correlograms.py: the decorator [_validate_correlograms_inputs] *)

Module Validation.

(** The Python objects a caller may pass, as far as [isinstance] tells them
    apart. *)
#[warnings="-register-all"] Inductive pyobj : Type :=
| ObjNone
| ObjBool (b : bool)
| ObjInt (z : Z)
| ObjFloat (q : Q)
| ObjStr (s : string)
| ObjTuple (items : list pyobj)
| ObjList (items : list pyobj)
| ObjIntervalSet
| ObjTs
| ObjTsd
| ObjTsdFrame
| ObjTsGroup.

(** The second argument of the [isinstance] calls of the decorator. *)
Inductive pyclass : Type :=
| ClsTsGroup
| ClsNumber
| ClsIntervalSet
| ClsBool
| ClsStr
| ClsTsOrTsd.

(** [bool] is a subclass of [int], which is a [Number]; [Ts] is a subclass
    of [Tsd], [TsdFrame] is not. *)
Definition isinstance (v : pyobj) (c : pyclass) : bool :=
  match c, v with
  | ClsTsGroup, ObjTsGroup => true
  | ClsNumber, (ObjBool _ | ObjInt _ | ObjFloat _) => true
  | ClsIntervalSet, ObjIntervalSet => true
  | ClsBool, ObjBool _ => true
  | ClsStr, ObjStr _ => true
  | ClsTsOrTsd, (ObjTs | ObjTsd) => true
  | _, _ => false
  end.

(** [isinstance(v, (tuple, list))], with the items when it holds. *)
Definition as_tuple_or_list (v : pyobj) : option (list pyobj) :=
  match v with
  | ObjTuple items | ObjList items => Some items
  | _ => None
  end.

Definition kwargs := gmap string pyobj.

(** A decorated function: its name, the parameter names of its signature and
    its body, which runs in a state [Σ] (whatever the body may observe or
    change) and returns an [A] or raises. *)
Record pyfunc (Σ A : Type) : Type := mk_pyfunc {
  __name__ : string;
  signature : list string;
  body : kwargs -> Σ -> result A * Σ;
}.
Arguments mk_pyfunc {Σ A}.
Arguments __name__ {Σ A}.
Arguments signature {Σ A}.
Arguments body {Σ A}.

(** Positional arguments take the parameter names in order. *)
Fixpoint bind_positional (names : list string) (args : list pyobj)
  (bound : kwargs) {struct args} : result kwargs :=
  match args, names with
  | [], _ => Ok bound
  | _ :: _, [] => Raise TypeError
  | a :: args', n :: names' => bind_positional names' args' (<[n := a]> bound)
  end.

(** [inspect.signature(func).bind_partial] applied to the call's positional
    and keyword arguments, then [.arguments]: the
    arguments that were passed, by parameter name; defaults are not filled
    in. A surplus positional argument, a keyword that is no parameter and a
    parameter given twice are a [TypeError]. *)
Definition bind_partial (sig : list string) (args : list pyobj)
  (kw : kwargs) : result kwargs :=
  let! bound := bind_positional sig args ∅ in
  if bool_decide (dom kw ⊆ (list_to_set sig : gset string))
     && bool_decide (kw ##ₘ bound)
  then Ok (bound ∪ kw)
  else Raise TypeError.

(** The check of [group], the first [if] of the wrapper. *)
Definition check_group (name : string) (kw : kwargs) : result unit :=
  match kw !! "group"%string with
  | None => Raise KeyError
  | Some group =>
      match as_tuple_or_list group with
      | Some items =>
          if String.eqb name "compute_crosscorrelogram" then
            if negb (forallb (fun g => isinstance g ClsTsGroup) items)
               || negb (length items =? 2)%nat
            then Raise TypeError
            else Ok tt
          else
            if negb (isinstance group ClsTsGroup) then Raise TypeError
            else Ok tt
      | None =>
          if negb (isinstance group ClsTsGroup) then Raise TypeError
          else Ok tt
      end
  end.

Definition parameters_type : list (string * pyclass) :=
  [ ("binsize", ClsNumber);
    ("windowsize", ClsNumber);
    ("ep", ClsIntervalSet);
    ("norm", ClsBool);
    ("time_units", ClsStr);
    ("reverse", ClsBool);
    ("event", ClsTsOrTsd) ]%string.

(** [for param, param_type in parameters_type.items(): ...] *)
Fixpoint check_parameters (table : list (string * pyclass)) (kw : kwargs)
  : result unit :=
  match table with
  | [] => Ok tt
  | (param, param_type) :: table' =>
      match kw !! param with
      | Some v =>
          if negb (isinstance v param_type) then Raise TypeError
          else check_parameters table' kw
      | None => check_parameters table' kw
      end
  end.

(** The wrapper that replaces the decorated function. *)
Definition wrapper {Σ A : Type} (func : pyfunc Σ A)
  (args : list pyobj) (kw : kwargs) (σ : Σ) : result A * Σ :=
  match bind_partial (signature func) args kw with
  | Raise e => (Raise e, σ)
  | Ok kw =>
      match check_group (__name__ func) kw with
      | Raise e => (Raise e, σ)
      | Ok _ =>
          match check_parameters parameters_type kw with
          | Raise e => (Raise e, σ)
          | Ok _ => body func kw σ
          end
      end
  end.

(** The three decorated functions, with any body. *)
Definition compute_autocorrelogram {Σ A} (b : kwargs -> Σ -> result A * Σ)
  : pyfunc Σ A :=
  mk_pyfunc "compute_autocorrelogram"
    ["group"; "binsize"; "windowsize"; "ep"; "norm"; "time_units"]%string b.


Definition compute_eventcorrelogram {Σ A} (b : kwargs -> Σ -> result A * Σ)
  : pyfunc Σ A :=
  mk_pyfunc "compute_eventcorrelogram"
    ["group"; "event"; "binsize"; "windowsize"; "ep"; "norm";
     "time_units"]%string b.

(** *** The classes the documentation asks for *)

(** [group] is a [TsGroup] or, for [compute_crosscorrelogram] only, a tuple
    or list of exactly two [TsGroup]s. *)
Definition group_has_right_class (name : string) (group : pyobj) : Prop :=
  isinstance group ClsTsGroup = true
  \/ (name = "compute_crosscorrelogram"%string
      /\ exists g1 g2,
           (group = ObjTuple [g1; g2] \/ group = ObjList [g1; g2])
           /\ isinstance g1 ClsTsGroup = true
           /\ isinstance g2 ClsTsGroup = true).

(** Some argument that was passed has the wrong class. *)
Definition wrong_class (name : string) (kw : kwargs) : Prop :=
  (exists group,
      kw !! "group"%string = Some group
      /\ ~ group_has_right_class name group)
  \/ (exists param cls v,
        In (param, cls) parameters_type
        /\ kw !! param = Some v
        /\ isinstance v cls = false).

(** A body that leaves a trace: it counts its runs in the state. *)
Definition counting_body : kwargs -> nat -> result unit * nat :=
  fun _ runs => (Ok tt, S runs).

End Validation.

(** ** time_series.py and what it imports *)

Module TimeSeries.

(** *** interval_set.py *)

(** An interval set is its table of rows [(start, end)]. *)
Definition IntervalSet := list (Q * Q).

(** [ep.start.values] and [ep.end.values] *)
Definition starts_of (ep : IntervalSet) : list Q := map fst ep.
Definition ends_of (ep : IntervalSet) : list Q := map snd ep.

(** [np.sum(ep.values[:, 1] - ep.values[:, 0])] *)
Definition tot_length (ep : IntervalSet) : Q :=
  fold_right Qplus 0 (map (fun row => snd row - fst row) ep).

(** [t] lies in the closed interval [row]. *)
Definition in_interval (t : Q) (row : Q * Q) : bool :=
  Qle_bool (fst row) t && Qle_bool t (snd row).

Definition in_intervals (t : Q) (ep : IntervalSet) : bool :=
  existsb (in_interval t) ep.

Fixpoint insert_by_start (row : Q * Q) (rows : list (Q * Q)) : list (Q * Q) :=
  match rows with
  | [] => [row]
  | r :: rows' =>
      if Qle_bool (fst row) (fst r) then row :: rows
      else r :: insert_by_start row rows'
  end.

Fixpoint merge_rows (cur : Q * Q) (rows : list (Q * Q)) : list (Q * Q) :=
  match rows with
  | [] => [cur]
  | r :: rows' =>
      if Qle_bool (fst r) (snd cur)
      then merge_rows (fst cur, if Qle_bool (snd r) (snd cur)
                                then snd cur else snd r) rows'
      else cur :: merge_rows r rows'
  end.

(** Modelled from the spec: the constructor of [IntervalSet]
    (interval_set.py is not under src/). Section 4.1: a pair with
    [end < start] is a validation error; the rows are sorted by start, and
    two rows merge when the next start is at or before the current end. *)
Definition IntervalSet_init (starts ends : list Q) : result IntervalSet :=
  if negb (length starts =? length ends)%nat then Raise ValueError else
  let rows := combine starts ends in
  if existsb (fun row => Qlt_bool (snd row) (fst row)) rows
  then Raise ValueError
  else
    match fold_right insert_by_start [] rows with
    | [] => Ok []
    | r :: rows' => Ok (merge_rows r rows')
    end.

(** [IntervalSet(pd.DataFrame(columns=["start", "end"]))]: no row. *)
Definition IntervalSet_empty : IntervalSet := [].

(** *** time_units.py *)

Definition round_half_even (x : Q) : Z :=
  let f := Qfloor x in
  match Qcompare (x - inject_Z f) (1 # 2) with
  | Lt => f
  | Gt => (f + 1)%Z
  | Eq => if Z.even f then f else (f + 1)%Z
  end.

(** [np.around(x, decimals)], as a fraction in lowest terms *)
Definition np_around (x : Q) (decimals : nat) : Q :=
  let scale := inject_Z (10 ^ Z.of_nat decimals) in
  Qred (inject_Z (round_half_even (x * scale)) / scale).

(** The factor table of section 4.2. *)
Definition unit_factor (units : string) : option Q :=
  if String.eqb units "s" then Some 1
  else if String.eqb units "ms" then Some (1 # 1000)
  else if String.eqb units "us" then Some (1 # 1000000)
  else None.

Fixpoint insert_time (x : Q) (t : list Q) : list Q :=
  match t with
  | [] => [x]
  | y :: t' =>
      match Qcompare x y with
      | Lt => x :: t
      | Eq => t
      | Gt => y :: insert_time x t'
      end
  end.

(** Modelled from the spec: [sort_timestamps] (time_units.py is not under
    src/). Section 4.2: ascending sort in which exact duplicate timestamps
    are collapsed to one. The constructors pass the time array alone. *)
Definition sort_timestamps (t : list Q) : list Q :=
  fold_right insert_time [] t.

Section Precision.

(** The number of decimals kept by [format_timestamps]: section 3 of the
    spec says "a fixed sub-unit precision" and time_units.py is not under
    src/, so the number is a parameter of everything below. *)
Variable decimals : nat.

(** Modelled from the spec: [format_timestamps] (time_units.py is not under
    src/). Sections 3 and 4.2: the values are multiplied by the factor of
    their unit and rounded; an unknown unit is an error. *)
Definition format_timestamps (t : list Q) (units : string)
  : result (list Q) :=
  match unit_factor units with
  | Some factor => Ok (map (fun x => np_around (x * factor) decimals) t)
  | None => Raise ValueError
  end.

End Precision.

(** [np.arange(n)] *)
Definition arange (n : nat) : list Q :=
  map (fun k => inject_Z (Z.of_nat k)) (seq 0 n).

(** A whole number of seconds. *)
Definition is_whole (x : Q) : bool := Pos.eqb (Qden x) 1.

(** The time array the body of a constructor works on when the unit is
    seconds: rounded, then sorted. *)
Definition normalized (decimals : nat) (t : list Q) : list Q :=
  sort_timestamps (map (fun x => np_around (x * 1) decimals) t).

(** *** jitted_functions.py *)

Section Restrict.
Context {D : Type}.

(** The forward scan of section 4.3: one cursor over the samples, one over
    the intervals. A sample before the current interval is skipped, a sample
    inside it is emitted, a sample after it moves on to the next interval. *)
Fixpoint restrict_scan (ep : IntervalSet) : list (Q * D) -> list (Q * D) :=
  fix scan (samples : list (Q * D)) : list (Q * D) :=
    match ep, samples with
    | [], _ => []
    | _, [] => []
    | row :: ep', (t, d) :: samples' =>
        if Qlt_bool t (fst row) then scan samples'
        else if Qle_bool t (snd row) then (t, d) :: scan samples'
        else restrict_scan ep' samples
    end.

(** The canonical form of section 3: every row has its start at or before
    its end, and every row ends before the later ones start. *)
Definition canonical (ep : IntervalSet) : Prop :=
  Forall (fun row => fst row <= snd row) ep
  /\ StronglySorted (fun row later => snd row < fst later) ep.

(** Modelled from the spec: [jitrestrict] (jitted_functions.py is not under
    src/). Section 4.3, Restrict: only the [(time, data)] pairs whose time
    lies within an interval (boundaries included) are emitted. The pairs are
    those of the two arrays, position by position. *)
Definition jitrestrict (time_array : list Q) (data_array : list D)
  (starts ends : list Q) : list Q * list D :=
  let kept := restrict_scan (combine starts ends) (combine time_array data_array) in
  (map fst kept, map snd kept).

End Restrict.

(** *** numpy arrays and their indexing *)

(** The data buffer of a container: one value per sample, or one row per
    sample. *)
Inductive ndarray : Type :=
| Array1 (data : list Q)
| Array2 (rows : list (list Q)).

(** What [a[key]] returns: a number or an array. *)
Inductive npitem : Type :=
| Scalar (x : Q)
| Arr (a : ndarray).

(** [a.shape[0]] and [len(a.shape)] *)
Definition shape0 (a : ndarray) : nat :=
  match a with
  | Array1 data => length data
  | Array2 rows => length rows
  end.

Definition ndim (a : ndarray) : nat :=
  match a with
  | Array1 _ => 1
  | Array2 _ => 2
  end.

(** [a.astype(np.float64).flatten()] *)
Definition flatten (a : ndarray) : list Q :=
  match a with
  | Array1 data => data
  | Array2 rows => concat rows
  end.

(** The keys of [__getitem__]: an integer, a slice, an array of integers, an
    array of booleans. *)
Inductive key : Type :=
| KInt (i : Z)
| KSlice (start stop step : option Z)
| KArray (ix : list Z)
| KMask (mask : list bool).

(** An integer index on an axis of length [n]: negative indices count from
    the end. *)
Definition normalize_index (n : nat) (i : Z) : option nat :=
  let n := Z.of_nat n in
  if (0 <=? i)%Z && (i <? n)%Z then Some (Z.to_nat i)
  else if (- n <=? i)%Z && (i <? 0)%Z then Some (Z.to_nat (i + n))
  else None.

(** [slice(start, stop, step).indices(n)] *)
Definition slice_indices (n : Z) (start stop : option Z) (step : Z)
  : Z * Z :=
  let lower := if (step <? 0)%Z then (-1)%Z else 0%Z in
  let upper := if (step <? 0)%Z then (n - 1)%Z else n in
  let clip (i : Z) :=
    if (i <? 0)%Z then Z.max (i + n) lower else Z.min i upper in
  let start :=
    match start with
    | None => if (step <? 0)%Z then upper else lower
    | Some i => clip i
    end in
  let stop :=
    match stop with
    | None => if (step <? 0)%Z then lower else upper
    | Some i => clip i
    end in
  (start, stop).

(** [range(start, stop, step)] for [step <> 0] *)
Definition range (start stop step : Z) : list Z :=
  let count :=
    if (0 <? step)%Z then ((stop - start + step - 1) / step)%Z
    else ((start - stop - step - 1) / (- step))%Z in
  map (fun k => start + Z.of_nat k * step)%Z (seq 0 (Z.to_nat count)).

Fixpoint positions_of_mask (p : nat) (mask : list bool) : list nat :=
  match mask with
  | [] => []
  | b :: mask' =>
      if b then p :: positions_of_mask (S p) mask'
      else positions_of_mask (S p) mask'
  end.

Fixpoint normalize_all (n : nat) (ix : list Z) : result (list nat) :=
  match ix with
  | [] => Ok []
  | i :: ix' =>
      match normalize_index n i with
      | Some p => let! ps := normalize_all n ix' in Ok (p :: ps)
      | None => Raise IndexError
      end
  end.

(** The positions along the first axis that a key selects on an array of
    [n] entries. *)
Definition positions (n : nat) (k : key) : result (list nat) :=
  match k with
  | KInt i =>
      match normalize_index n i with
      | Some p => Ok [p]
      | None => Raise IndexError
      end
  | KSlice start stop step =>
      let step := default 1%Z step in
      if (step =? 0)%Z then Raise ValueError
      else
        let '(start, stop) := slice_indices (Z.of_nat n) start stop step in
        Ok (map Z.to_nat (range start stop step))
  | KArray ix => normalize_all n ix
  | KMask mask =>
      if (length mask =? n)%nat then Ok (positions_of_mask 0 mask)
      else Raise IndexError
  end.

(** The entries at the given (valid) positions. *)
Definition take {A : Type} (a : list A) (ps : list nat) : list A :=
  omap (fun p => a !! p) ps.

(** [a.__getitem__(key)] *)
Definition np_getitem (a : ndarray) (k : key) : result npitem :=
  let! ps := positions (shape0 a) k in
  match k, a with
  | KInt _, Array1 data => Ok (Scalar (nth (hd O ps) data 0))
  | KInt _, Array2 rows => Ok (Arr (Array1 (nth (hd O ps) rows [])))
  | _, Array1 data => Ok (Arr (Array1 (take data ps)))
  | _, Array2 rows => Ok (Arr (Array2 (take rows ps)))
  end.

(** [np.atleast_2d(x)] *)
Definition atleast_2d (x : npitem) : ndarray :=
  match x with
  | Scalar x => Array2 [[x]]
  | Arr (Array1 data) => Array2 [data]
  | Arr (Array2 rows) => Array2 rows
  end.

(** [np.empty_like(t)]: the shape of [t]; the contents are whatever the
    memory holds, zeros stand for them. *)
Definition empty_like (t : list Q) : ndarray := Array1 (repeat 0 (length t)).

(** [jitrestrict] on a data buffer of either shape: the first axis is the
    one of the samples. *)
Definition jitrestrict_nd (t : list Q) (d : ndarray) (starts ends : list Q)
  : list Q * ndarray :=
  match d with
  | Array1 data =>
      let '(t, data) := jitrestrict t data starts ends in (t, Array1 data)
  | Array2 rows =>
      let '(t, rows) := jitrestrict t rows starts ends in (t, Array2 rows)
  end.

(** The four methods of [Tsd.threshold] and their comparisons. *)
Definition threshold_methods : list string :=
  ["above"; "below"; "aboveequal"; "belowequal"]%string.

Definition threshold_test (method : string) (thr x : Q) : option bool :=
  if String.eqb method "above" then Some (Qlt_bool thr x)
  else if String.eqb method "below" then Some (Qlt_bool x thr)
  else if String.eqb method "aboveequal" then Some (Qle_bool thr x)
  else if String.eqb method "belowequal" then Some (Qle_bool x thr)
  else None.

Definition midpoint (a b : Q) : Q := a + (b - a) / 2.

(** Two successive samples lie in one interval of the support. *)
Definition same_epoch (ep : IntervalSet) (a b : Q) : bool :=
  existsb (fun row => Qle_bool (fst row) a && Qle_bool b (snd row)) ep.

(** The runs of samples that pass the test, read from left to right.
    [prev] is the time of the last sample read and [run] the start of the
    run it belongs to, if it passed. A run opens or closes halfway between
    the two samples where the test changes; at an end of the series or of
    an interval of the support it stops on the sample itself. *)
Fixpoint runs_from (ep : IntervalSet) (prev : Q) (run : option Q)
  (samples : list (Q * bool)) : list (Q * Q) :=
  match samples with
  | [] =>
      match run with
      | Some s => [(s, prev)]
      | None => []
      end
  | (t, pass) :: rest =>
      if same_epoch ep prev t then
        match run, pass with
        | None, true => runs_from ep t (Some (midpoint prev t)) rest
        | Some s, false => (s, midpoint prev t) :: runs_from ep t None rest
        | _, _ => runs_from ep t run rest
        end
      else
        let next := if pass then Some t else None in
        match run with
        | Some s => (s, prev) :: runs_from ep t next rest
        | None => runs_from ep t next rest
        end
  end.

Definition threshold_runs (ep : IntervalSet) (samples : list (Q * bool))
  : list (Q * Q) :=
  match samples with
  | [] => []
  | (t, pass) :: rest => runs_from ep t (if pass then Some t else None) rest
  end.

(** Modelled from the spec: [jitthreshold] (jitted_functions.py is not under
    src/). Section 4.3, Threshold: the samples for which [data op threshold]
    holds are returned with the run-length intervals where it holds, and it
    is a domain error ([RuntimeError] in the docstring of [Tsd.threshold])
    when there is no such interval. Where a run starts and ends is fixed by
    scenario 3 of section 8 and by the docstring of [Tsd.threshold]: for the
    series 0..99 above 50 the run is [[50.5, 99.0]], halfway between the
    samples 50 and 51 and on the last sample. A buffer with one row per
    sample has no truth value against a number. *)
Definition jitthreshold (time_array : list Q) (data_array : ndarray)
  (starts ends : list Q) (thr : Q) (method : string)
  : result (list Q * list Q * list Q * list Q) :=
  match data_array with
  | Array2 _ => Raise TypeError
  | Array1 data =>
      match threshold_test method thr 0 with
      | None => Raise ValueError
      | Some _ =>
          let pass x := default false (threshold_test method thr x) in
          let samples := combine time_array data in
          let kept := filter (fun s => pass (snd s) = true) samples in
          let runs :=
            threshold_runs (combine starts ends)
              (map (fun s => (fst s, pass (snd s))) samples) in
          match runs with
          | [] => Raise RuntimeError
          | _ :: _ =>
              Ok (map fst kept, map snd kept, map fst runs, map snd runs)
          end
      end
  end.

(** *** The containers *)

(** The attributes set by the constructors. [Tsd], [Ts] and [TsdFrame] have
    the same ones and are told apart by [nap_class]; the column labels of a
    [TsdFrame] play no part below and are left out. *)
Record series : Type := mk_series {
  nap_class : string;
  index : list Q;
  values : ndarray;
  time_support : IntervalSet;
  rate : npfloat;
}.

Section Containers.
Variable decimals : nat.

(** The text shared by [Tsd.__init__] (lines 117 to 151) and
    [TsdFrame.__init__] (lines 934 to 969), from [t = t.astype(...)] on.
    [d] is an array by then, so of the two restrictions only [jitrestrict]
    is reached. *)
Definition init_body (cls : string) (t : list Q) (d : ndarray)
  (time_units : string) (time_support : option IntervalSet) : result series :=
  let! t := format_timestamps decimals t time_units in
  let t := sort_timestamps t in
  if (0 <? length t)%nat then
    match time_support with
    | Some time_support =>
        let '(t, d) :=
          jitrestrict_nd t d (starts_of time_support) (ends_of time_support) in
        Ok (mk_series cls t d time_support
              (fdiv (Fin (len t)) (Fin (tot_length time_support))))
    | None =>
        let! time_support := IntervalSet_init [List.hd 0 t] [List.last t 0] in
        Ok (mk_series cls t d time_support
              (fdiv (Fin (len t)) (Fin (tot_length time_support))))
    end
  else
    Ok (mk_series cls [] (Array1 []) IntervalSet_empty (Fin 0)).

(** [isinstance(x, Number)] turns [x] into [np.array([x])]. *)
Definition as_array (x : npitem) : ndarray :=
  match x with
  | Scalar x => Array1 [x]
  | Arr a => a
  end.

(** [Tsd.__init__] for [self] of class [cls] ([Tsd] or its subclass). *)
Definition Tsd_init_as (cls : string) (t : npitem) (d : option npitem)
  (time_units : string) (time_support : option IntervalSet) : result series :=
  let t := as_array t in
  let d :=
    match d with
    | Some d => as_array d
    | None => empty_like (flatten t)
    end in
  init_body cls (flatten t) d time_units time_support.

Definition Tsd_init := Tsd_init_as "Tsd".

(** [Ts.__init__]: [Tsd.__init__] with [d = None]. *)
Definition Ts_init (t : npitem) (time_units : string)
  (time_support : option IntervalSet) : result series :=
  Tsd_init_as "Ts" t None time_units time_support.

(** [TsdFrame.__init__] with [t] an array. *)
Definition TsdFrame_init (t : list Q) (d : option ndarray)
  (time_units : string) (time_support : option IntervalSet) : result series :=
  match d with
  | None => Raise RuntimeError
  | Some d =>
      let d :=
        match d with
        | Array1 data => Array2 (map (fun x => [x]) data)
        | Array2 rows => Array2 rows
        end in
      init_body "TsdFrame" t d time_units time_support
  end.

(** [Tsd.restrict], inherited by [Ts] *)
Definition Tsd_restrict (self : series) (ep : IntervalSet) : result series :=
  let '(t, d) :=
    jitrestrict_nd (index self) (values self) (starts_of ep) (ends_of ep) in
  Tsd_init (Arr (Array1 t)) (Some (Arr d)) "s" (Some ep).

(** [TsdFrame.restrict] *)
Definition TsdFrame_restrict (self : series) (iset : IntervalSet)
  : result series :=
  let '(t, d) :=
    jitrestrict_nd (index self) (values self)
      (starts_of iset) (ends_of iset) in
  TsdFrame_init t (Some d) "s" (Some iset).

(** [try: ... except: raise IndexError] *)
Definition or_IndexError {A : Type} (r : result A) : result A :=
  match r with
  | Ok a => Ok a
  | Raise _ => Raise IndexError
  end.

(** [Tsd.__getitem__], inherited by [Ts] *)
Definition Tsd_getitem (self : series) (k : key) : result series :=
  or_IndexError (
    let! data := np_getitem (values self) k in
    let! index := np_getitem (Array1 (index self)) k in
    Tsd_init index (Some data) "s" None).

(** What [TsdFrame.__getitem__] may return. *)
Inductive frame_item : Type :=
| ItemSeries (s : series)
| ItemArray (x : npitem)
| ItemNone.

(** [TsdFrame.__getitem__] for a key that is not a tuple *)
Definition TsdFrame_getitem (self : series) (k : key) : result frame_item :=
  or_IndexError (
    let! output := np_getitem (values self) k in
    let! index := np_getitem (Array1 (index self)) k in
    match index, output with
    | Arr index, Arr output =>
        if (shape0 output =? shape0 index)%nat then
          match output with
          | Array1 _ =>
              let! s := Tsd_init (Arr index) (Some (Arr output)) "s" None in
              Ok (ItemSeries s)
          | Array2 _ =>
              let! s := TsdFrame_init (flatten index) (Some output) "s" None in
              Ok (ItemSeries s)
          end
        else Ok ItemNone
    | Scalar index, _ =>
        let! s := TsdFrame_init [index] (Some (atleast_2d output)) "s" None in
        Ok (ItemSeries s)
    | _, _ => Ok (ItemArray output)
    end).

(** [Tsd.threshold], with the compiled kernel it calls as a parameter *)
Definition threshold_with
  (kernel : list Q -> ndarray -> list Q -> list Q -> Q -> string ->
            result (list Q * list Q * list Q * list Q))
  (self : series) (thr : Q) (method : string) : result series :=
  let time_array := index self in
  let data_array := values self in
  let starts := starts_of (time_support self) in
  let ends := ends_of (time_support self) in
  if negb (existsb (String.eqb method) threshold_methods)
  then Raise ValueError
  else
    let! (t, d, ns, ne) :=
      kernel time_array data_array starts ends thr method in
    let! time_support := IntervalSet_init ns ne in
    Tsd_init (Arr (Array1 t)) (Some (Arr (Array1 d))) "s" (Some time_support).

Definition Tsd_threshold := threshold_with jitthreshold.

(** *** What the properties below speak of *)

(** [len(index) / total_duration(time_support)] *)
Definition rate_formula (r : series) : npfloat :=
  fdiv (Fin (len (index r))) (Fin (tot_length (time_support r))).

(** The samples [restrict] keeps, before the constructor sees them. *)
Definition kept_times (x : series) (ep : IntervalSet) : list Q :=
  fst (jitrestrict_nd (index x) (values x) (starts_of ep) (ends_of ep)).

(** [r] was just returned by a constructor or by [restrict], which handed
    the time array [t] to the body of the constructor. *)
Inductive fresh : list Q -> series -> Prop :=
| fresh_Tsd t d units ts r :
    Tsd_init t d units ts = Ok r -> fresh (flatten (as_array t)) r
| fresh_Ts t units ts r :
    Ts_init t units ts = Ok r -> fresh (flatten (as_array t)) r
| fresh_TsdFrame t d units ts r :
    TsdFrame_init t d units ts = Ok r -> fresh t r
| fresh_Tsd_restrict x ep r :
    Tsd_restrict x ep = Ok r -> fresh (kept_times x ep) r
| fresh_TsdFrame_restrict x ep r :
    TsdFrame_restrict x ep = Ok r -> fresh (kept_times x ep) r.

(** The single interval from the first to the last entry of a time index;
    no interval when the index is empty. *)
Definition bounding_support (idx : list Q) : IntervalSet :=
  match idx with
  | [] => []
  | t0 :: _ => [(t0, List.last idx 0)]
  end.

End Containers.

End TimeSeries.

(** ** correlograms.py: [compute_autocorrelogram] *)

Module Autocorrelogram.
Import Correlograms TimeSeries.

(** A [pandas.Series] of floats: its index and its data. *)
Abbreviation Series := (list Q * list npfloat)%type.

(** A [pandas.DataFrame] of floats: the row labels and, under each column
    key, one value per row. *)
Record DataFrame : Type := mk_DataFrame {
  df_index : list Q;
  df_columns : gmap Z (list npfloat);
}.

(** [pd.DataFrame.from_dict(d)] for Series that have the same index (here
    all are made with the same bin size and window): that index is the one
    of the frame; no Series, no row. *)
Definition from_dict (d : gmap Z Series) : DataFrame :=
  mk_DataFrame
    (match map_to_list d with
     | [] => []
     | (_, s) :: _ => fst s
     end)
    (snd <$> d).

(** [frame / rates]: the column of key [n] is divided by the entry of key
    [n], a key without entry by [nan]. *)
Definition divide_columns (frame : DataFrame) (rates : gmap Z npfloat)
  : DataFrame :=
  mk_DataFrame (df_index frame)
    (map_imap
       (fun n col => Some (map (fun v => fdiv v (default NaN (rates !! n))) col))
       (df_columns frame)).

(** [0 in frame.index] *)
Definition has_zero_label (frame : DataFrame) : bool :=
  existsb (fun label => Qeq_bool label 0) (df_index frame).

(** [frame.loc[0] = 0.0]: every row labelled 0, in every column. *)
Definition set_zero_rows (frame : DataFrame) : DataFrame :=
  mk_DataFrame (df_index frame)
    ((fun col =>
        zip_with (fun label v => if Qeq_bool label 0 then Fin 0 else v)
          (df_index frame) col)
     <$> df_columns frame).

(** Modelled from the spec: [TsGroup] (ts_group.py is not under src/).
    Section 3: a mapping from a unit identifier to a time-series container,
    with metadata indexed by the same keys; section 2: the group forwards
    restriction to every member. The metadata "rate" is taken to be the rate
    of the member. *)
Record TsGroup : Type := mk_TsGroup {
  members : gmap Z series;
}.

Section Body.
Variable decimals : nat.

(** [x.restrict(ep)], which does not raise. *)
Definition restricted (ep : IntervalSet) (x : series) : series :=
  match Tsd_restrict decimals x ep with
  | Ok r => r
  | Raise _ => x
  end.

Definition TsGroup_restrict (group : TsGroup) (ep : IntervalSet) : TsGroup :=
  mk_TsGroup (restricted ep <$> members group).

(** [group.get_info("rate")] *)
Definition get_info_rate (group : TsGroup) : gmap Z npfloat :=
  rate <$> members group.

(** [format_timestamps(np.array([x]), time_units)[0]] *)
Definition format_scalar (x : Q) (time_units : string) : result Q :=
  let! t := format_timestamps decimals [x] time_units in
  Ok (List.hd 0 t).

(** One turn of [for n in newgroup.keys()], on the dictionary built so
    far. *)
Definition autocorr_step (binsize windowsize : Q) (n : Z) (unit_ : series)
  (autocorrs : result (gmap Z Series)) : result (gmap Z Series) :=
  let! autocorrs := autocorrs in
  let spk_time := index unit_ in
  let! (auc, times) :=
    _cross_correlogram spk_time spk_time binsize windowsize in
  Ok (<[n := (map (fun x => np_around x 6) times, auc)]> autocorrs).

(** The body of [compute_autocorrelogram]; the decorator has checked the
    classes of the arguments, [ep] is an [IntervalSet] or was not passed. *)
Definition compute_autocorrelogram (group : TsGroup) (binsize windowsize : Q)
  (ep : option IntervalSet) (norm : bool) (time_units : string)
  : result DataFrame :=
  let newgroup :=
    match ep with
    | Some ep => TsGroup_restrict group ep
    | None => group
    end in
  let! binsize := format_scalar binsize time_units in
  let! windowsize := format_scalar windowsize time_units in
  let! autocorrs :=
    map_fold (autocorr_step binsize windowsize) (Ok ∅) (members newgroup) in
  let autocorrs := from_dict autocorrs in
  let autocorrs :=
    if norm then divide_columns autocorrs (get_info_rate newgroup)
    else autocorrs in
  (* Bug here *)
  let autocorrs :=
    if has_zero_label autocorrs then set_zero_rows autocorrs
    else autocorrs in
  Ok autocorrs.

End Body.

(** *** What the properties below speak of *)

(** Every column has one value per row. *)
Definition aligned (frame : DataFrame) : Prop :=
  forall n col,
    df_columns frame !! n = Some col ->
    length col = length (df_index frame).

(** What the loop over the keys has built: a Series per key read so far,
    all on the rounded bin centers. *)
Definition built (idx : list Q) (m : gmap Z series) (d : gmap Z Series)
  : Prop :=
  dom d = dom m
  /\ forall n s, d !! n = Some s ->
                 fst s = idx /\ length (snd s) = length idx.

End Autocorrelogram.

(** ** correlograms.py: the decorator, for calls with keyword arguments *)

Module Decorator.
Import Validation.

(** [inspect.signature(func).bind_partial] for any mix of positional and
    keyword arguments: a keyword must name a parameter of the signature and
    may not name one that a positional argument already fills. This is the
    binding of [Validation.bind_partial], under the name that the facts on
    keyword calls are stated with. *)
Definition bind_partial (sig : list string) (args : list pyobj)
  (kw : kwargs) : result kwargs :=
  let! bound := bind_positional sig args ∅ in
  if bool_decide (dom kw ⊆ (list_to_set sig : gset string))
     && bool_decide (kw ##ₘ bound)
  then Ok (bound ∪ kw)
  else Raise TypeError.

(** The wrapper, with this binding. *)
Definition wrapper {Σ A : Type} (func : pyfunc Σ A)
  (args : list pyobj) (kw : kwargs) (σ : Σ) : result A * Σ :=
  match bind_partial (signature func) args kw with
  | Raise e => (Raise e, σ)
  | Ok kw =>
      match check_group (__name__ func) kw with
      | Raise e => (Raise e, σ)
      | Ok _ =>
          match check_parameters parameters_type kw with
          | Raise e => (Raise e, σ)
          | Ok _ => body func kw σ
          end
      end
  end.

End Decorator.

(** ** What [_cross_correlogram] counts *)

Module CorrelogramCounts.

(** The number of entries of [t] below [x], and in [[lo, hi)]. *)
Definition count_before (t : list Q) (x : Q) : nat :=
  length (List.filter (fun y => Qlt_bool y x) t).

Definition count_between (t : list Q) (lo hi : Q) : nat :=
  length (List.filter (fun y => Qle_bool lo y && Qlt_bool y hi) t).

(** The bin of index [j] around the reference time [x]: the lags from
    [-w + j * binsize] to [-w + (j + 1) * binsize], the first included and
    the second not. *)
Definition bin_low (x w binsize : Q) (j : nat) : Q :=
  x - w + inject_Z (Z.of_nat j) * binsize.

Definition bin_high (x w binsize : Q) (j : nat) : Q :=
  x - w + inject_Z (Z.of_nat (S j)) * binsize.

(** The number of pairs of a reference time and a target time whose lag
    falls in the bin [j]. *)
Definition pair_count (t1 t2 : list Q) (w binsize : Q) (j : nat) : nat :=
  list_sum
    (map (fun x => count_between t2 (bin_low x w binsize j)
                     (bin_high x w binsize j)) t1).

End CorrelogramCounts.

(** ** metadata_class.py: the metadata table of [_MetadataBase] *)

Module Metadata.

(** A label: a column name or an index label. Column names are meant to be
    strings, index labels are often integers. A string is a sequence of
    code points below 256. *)
Inductive name : Type :=
| NStr (s : string)
| NInt (z : Z).

#[global] Instance name_eq_dec : EqDecision name.
Proof. solve_decision. Defined.

(** One entry of a metadata column. [CObj] is any other object that has no
    [__iter__]. *)
Inductive cell : Type :=
| CNum (q : Q)
| CBool (b : bool)
| CStr (s : string)
| CNone
| CObj.

(** What a caller passes for one column. *)
Inductive value : Type :=
| VSeries (items : list (name * cell))   (* pandas.Series: label, entry *)
| VArray (data : list cell)              (* numpy.ndarray, list or tuple *)
| VCell (c : cell)                       (* a single object *)
| VOther.                                (* another iterable: dict, set, ... *)

(** [pandas.DataFrame]: the index and the columns in their order. *)
Record Frame : Type := mkFrame {
  md_index : list name;
  md_columns : list (name * list cell)
}.

(** The positional argument [metadata] of [set_info]. *)
Inductive metadata_arg : Type :=
| MNone
| MDataFrame (df : Frame)
| MDict (items : list (name * value))
| MSeries (items : list (name * cell))
| MArray                                 (* numpy.ndarray or list *)
| MOther.

(** The object that inherits [_MetadataBase]: the names that the ordinary
    attribute lookup finds, the columns of a [TsdFrame], [len(self)] and the
    metadata table. *)
Record obj : Type := mkObj {
  attributes : string -> bool;
  frame_columns : list name;
  self_len : nat;
  _metadata : Frame
}.

Definition with_metadata (self : obj) (md : Frame) : obj :=
  mkObj (attributes self) (frame_columns self) (self_len self) md.

(** *** str methods *)

Definition in_range (lo hi n : N) : bool := ((lo <=? n) && (n <=? hi))%N.

(** [str.isalpha] on one code point below 256: the ASCII letters, the
    ordinal indicators, the micro sign and the Latin-1 letters. *)
Definition isalpha (c : Ascii.ascii) : bool :=
  let n := Ascii.N_of_ascii c in
  in_range 65 90 n || in_range 97 122 n
  || (n =? 170)%N || (n =? 181)%N || (n =? 186)%N
  || in_range 192 214 n || in_range 216 246 n || in_range 248 255 n.

(** [str.isalnum] on one code point below 256: a letter, a decimal digit, a
    superscript digit or a vulgar fraction. *)
Definition isalnum (c : Ascii.ascii) : bool :=
  let n := Ascii.N_of_ascii c in
  isalpha c || in_range 48 57 n
  || (n =? 178)%N || (n =? 179)%N || (n =? 185)%N || in_range 188 190 n.

Definition is_underscore (c : Ascii.ascii) : bool := (Ascii.N_of_ascii c =? 95)%N.

(** [name.replace("_", "")] *)
Fixpoint remove_underscores (s : string) : string :=
  match s with
  | EmptyString => EmptyString
  | String c r =>
      if is_underscore c then remove_underscores r
      else String c (remove_underscores r)
  end.

Fixpoint all_chars (p : Ascii.ascii -> bool) (s : string) : bool :=
  match s with
  | EmptyString => true
  | String c r => p c && all_chars p r
  end.

(** [s.isalnum()]: false on the empty string. *)
Definition str_isalnum (s : string) : bool :=
  match s with
  | EmptyString => false
  | _ => all_chars isalnum s
  end.

(** *** Attribute lookup *)

Definition metadata_columns (self : obj) : list name :=
  map fst (md_columns (_metadata self)).

(** [hasattr(self, name)]: the ordinary lookup, then [__getattr__], which
    finds the metadata columns. *)
Definition hasattr (self : obj) (s : string) : bool :=
  attributes self s || bool_decide (NStr s ∈ metadata_columns self).

(** [name in self.columns], evaluated when [hasattr(self, "columns")]: the
    columns of a [TsdFrame]; when [columns] is only a metadata column, it is
    a [pandas.Series] and [in] looks at its index. *)
Definition in_columns (self : obj) (n : name) : bool :=
  if attributes self "columns" then bool_decide (n ∈ frame_columns self)
  else bool_decide (n ∈ md_index (_metadata self)).

Definition _raise_invalid_metadata_column_name (self : obj) (n : name)
  : result unit :=
  match n with
  | NInt _ => Raise TypeError
  | NStr s =>
      if hasattr self s && negb (bool_decide (n ∈ metadata_columns self))
      then Raise ValueError
      else if hasattr self "columns" && in_columns self n
      then Raise ValueError
      else
        match s with
        | EmptyString => Raise IndexError        (* name[0] *)
        | String c _ =>
            if negb (isalpha c) then Raise ValueError
            else if negb (str_isalnum (remove_underscores s))
            then Raise ValueError
            else Ok tt
        end
  end.

(** The list comprehensions and the loop of
    [_check_metadata_column_names]: the first invalid name raises. *)
Fixpoint check_each (self : obj) (names : list name) : result unit :=
  match names with
  | [] => Ok tt
  | n :: rest =>
      let! _ := _raise_invalid_metadata_column_name self n in
      check_each self rest
  end.

Definition _check_metadata_column_names (self : obj)
  (metadata : metadata_arg) (kwargs : list (name * value)) : result unit :=
  let! _ :=
    match metadata with
    | MDataFrame df => check_each self (map fst (md_columns df))
    | MDict items => check_each self (map fst items)
    | MSeries items =>
        if (self_len self =? 1)%nat then check_each self (map fst items)
        else Ok tt
    | _ => Ok tt
    end in
  check_each self (map fst kwargs).

(** *** Assignments *)

(** [d[k] = v] on a dict or on the columns of a DataFrame: an existing key
    keeps its place, a new one goes to the end. *)
Fixpoint assoc_set {V : Type} (k : name) (v : V) (l : list (name * V))
  : list (name * V) :=
  match l with
  | [] => [(k, v)]
  | (k', v') :: rest =>
      if decide (k = k') then (k, v) :: rest
      else (k', v') :: assoc_set k v rest
  end.

Fixpoint assoc_get {V : Type} (k : name) (l : list (name * V)) : option V :=
  match l with
  | [] => None
  | (k', v) :: rest => if decide (k = k') then Some v else assoc_get k rest
  end.

(** [self._metadata[k] = col] *)
Definition set_column (k : name) (col : list cell) (self : obj) : obj :=
  let md := _metadata self in
  with_metadata self (mkFrame (md_index md) (assoc_set k col (md_columns md))).

(** [{**metadata, **kwargs}] *)
Definition dict_merge {V : Type} (d kwargs : list (name * V))
  : list (name * V) :=
  fold_left (fun acc kv => assoc_set (fst kv) (snd kv) acc) kwargs d.

Definition has_iter (v : value) : bool :=
  match v with
  | VCell (CStr _) => true
  | VCell _ => false
  | _ => true
  end.

(** One turn of [for k, v in kwargs.items()]: the object after the turn and
    the number of entries added to [not_set]. *)
Definition set_item (self : obj) (k : name) (v : value)
  : result (obj * nat) :=
  let index := md_index (_metadata self) in
  match v with
  | VSeries items =>
      if bool_decide (index = map fst items)
      then Ok (set_column k (map snd items) self, O)
      else Raise ValueError
  | VArray data =>
      if (length index =? length data)%nat
      then Ok (set_column k data self, O)
      else Raise ValueError
  | VCell c =>
      if negb (has_iter v) && (length index =? 1)%nat
      then Ok (set_column k [c] self, O)
      else Ok (self, 1%nat)
  | VOther => Ok (self, 1%nat)
  end.

(** The loop over the keyword arguments; an exception leaves the object as
    the turns before it made it. *)
Fixpoint set_items (kwargs : list (name * value)) (self : obj)
  (not_set : nat) : result nat * obj :=
  match kwargs with
  | [] => (Ok not_set, self)
  | (k, v) :: rest =>
      match set_item self k v with
      | Ok (self', missed) => set_items rest self' (not_set + missed)
      | Raise e => (Raise e, self)
      end
  end.

(** [self._metadata[metadata.columns] = metadata], the index being equal:
    column by column. *)
Definition set_columns (df : Frame) (self : obj) : obj :=
  fold_left (fun acc kc => set_column (fst kc) (snd kc) acc)
    (md_columns df) self.

(** [for key, val in metadata.items(): self._metadata[key] = val]: each
    entry fills its column. *)
Definition set_broadcast (items : list (name * cell)) (self : obj) : obj :=
  fold_left
    (fun acc kc =>
       set_column (fst kc)
         (repeat (snd kc) (length (md_index (_metadata acc)))) acc)
    items self.

(** The branch on [metadata]: the keyword arguments to go on with and the
    length of [not_set]. *)
Definition set_metadata_arg (metadata : metadata_arg)
  (kwargs : list (name * value)) (self : obj)
  : result (list (name * value) * nat) * obj :=
  match metadata with
  | MNone => (Ok (kwargs, O), self)
  | MDataFrame df =>
      if bool_decide (md_index (_metadata self) = md_index df)
      then (Ok (kwargs, O), set_columns df self)
      else (Raise ValueError, self)
  | MDict items => (Ok (dict_merge items kwargs, O), self)
  | MSeries items =>
      if (self_len self =? 1)%nat
      then (Ok (kwargs, O), set_broadcast items self)
      else (Raise RuntimeError, self)
  | MArray => (Raise RuntimeError, self)
  | MOther => (Ok (kwargs, 1%nat), self)
  end.

Definition set_info (metadata : metadata_arg) (kwargs : list (name * value))
  (self : obj) : result unit * obj :=
  match _check_metadata_column_names self metadata kwargs with
  | Raise e => (Raise e, self)
  | Ok _ =>
      match set_metadata_arg metadata kwargs self with
      | (Raise e, self) => (Raise e, self)
      | (Ok (kwargs, not_set), self) =>
          match set_items kwargs self not_set with
          | (Raise e, self) => (Raise e, self)
          | (Ok not_set, self) =>
              if (0 <? not_set)%nat then (Raise TypeError, self)
              else (Ok tt, self)
          end
      end
  end.

(** [get_info(key)] for a string key: the column as a [pandas.Series], its
    entries beside the index labels; a missing column raises [KeyError]. *)
Definition get_info (self : obj) (key : string)
  : result (list (name * cell)) :=
  match assoc_get (NStr key) (md_columns (_metadata self)) with
  | Some col => Ok (zip (md_index (_metadata self)) col)
  | None => Raise KeyError
  end.

(** [self[key] = value] *)
Definition __setitem__ (key : name) (v : value) (self : obj)
  : result unit * obj :=
  match key with
  | NStr _ => set_info MNone [(key, v)] self
  | NInt _ => (Raise TypeError, self)
  end.

Definition __getitem__ (self : obj) (key : string) := get_info self key.

(** Every column is as long as the index. *)
Definition well_formed (md : Frame) : Prop :=
  Forall (fun kc => length (snd kc) = length (md_index md)) (md_columns md).

(** A name made of a letter followed by letters, digits and underscores. *)
Definition identifier (s : string) : bool :=
  match s with
  | EmptyString => false
  | String c r => isalpha c && all_chars (fun c => isalnum c || is_underscore c) r
  end.

(** The parts of the object that no assignment touches. *)
Definition same_frame (a b : obj) : Prop :=
  attributes b = attributes a
  /\ frame_columns b = frame_columns a
  /\ self_len b = self_len a
  /\ md_index (_metadata b) = md_index (_metadata a).

(** What a loop of assignments keeps: the frame, the shape of the table, and
    no other new column than the keys it runs over. *)
Definition keeps (keys : list name) (a b : obj) : Prop :=
  same_frame a b
  /\ (well_formed (_metadata a) -> well_formed (_metadata b))
  /\ (forall n, n ∈ metadata_columns b ->
        n ∈ metadata_columns a \/ n ∈ keys).

End Metadata.

(** ** The numpy functions that the processing modules call *)

Module Numpy.

(** [ceil(a / b)] for whole numbers [a] and [b <> 0]. *)
Definition ceil_div (a b : Z) : Z := (- ((- a) / b))%Z.

(** The entries of [numpy.arange(start, stop, step)] for whole numbers and
    [step <> 0]: [ceil((stop - start) / step)] values [start + i * step],
    none when that length is not positive. numpy takes the length from the
    quotient [(stop - start) / step] computed in binary64, and the entries
    from sums and products in the type of the arguments; on whole numbers
    below [2^53] in magnitude, Python ints or floats, the sums and products
    are exact and the binary64 quotient has the ceiling of the exact one.
    Arguments with a fractional part are left out: there the rounding of
    the quotient can add or drop an entry. *)
Definition arange_values (start stop step : Z) : list Z :=
  map (fun i => (start + Z.of_nat i * step)%Z)
    (seq 0 (Z.to_nat (ceil_div (stop - start) step))).

(** [numpy.arange(start, stop, step)] on Python ints: the division that
    gives the length raises on a zero step. *)
Definition arange (start stop step : Z) : result (list Z) :=
  if (step =? 0)%Z then Raise ZeroDivisionError
  else Ok (arange_values start stop step).

(** [numpy.searchsorted(a, v)] with [side="left"] on a sorted array [a]:
    the first position whose entry is not below [v]. *)
Fixpoint searchsorted (a : list Q) (v : Q) : nat :=
  match a with
  | [] => O
  | x :: rest => if Qlt_bool x v then S (searchsorted rest v) else O
  end.

(** [a[start:stop]] for two non-negative bounds, by the rules of
    [slice.indices]. *)
Definition slice_between {A : Type} (a : list A) (start stop : nat)
  : list A :=
  let '(i, j) :=
    TimeSeries.slice_indices (Z.of_nat (length a))
      (Some (Z.of_nat start)) (Some (Z.of_nat stop)) 1 in
  firstn (Z.to_nat (j - i)) (skipn (Z.to_nat i) a).

(** [a[start:stop]] for any two bounds. *)
Definition slice {A : Type} (a : list A) (start stop : Z) : list A :=
  let '(i, j) :=
    TimeSeries.slice_indices (Z.of_nat (length a)) (Some start) (Some stop) 1 in
  firstn (Z.to_nat (j - i)) (skipn (Z.to_nat i) a).

Section Arrays.
(** Arrays of complex numbers: the entries and their arithmetic. *)
Context {C : Type}.
Variables (czero : C) (cadd csub cmul : C -> C -> C).

(** [numpy.convolve(a, v)], mode [full]: entry [k] sums [a[i] * v[k - i]]
    over the [i] for which both exist; an empty argument is refused. *)
Definition convolve (a v : list C) : result (list C) :=
  if (length a =? 0)%nat || (length v =? 0)%nat then Raise ValueError
  else
    Ok (map
          (fun k =>
             fold_left cadd
               (map (fun i => cmul (nth i a czero) (nth (k - i) v czero))
                  (List.filter
                     (fun i => (i <=? k)%nat && (k - i <? length v)%nat)
                     (seq 0 (length a))))
               czero)
          (seq 0 (length a + length v - 1))).

(** [numpy.diff(a)] *)
Fixpoint diff (a : list C) : list C :=
  match a with
  | x :: ((y :: _) as rest) => csub y x :: diff rest
  | _ => []
  end.

End Arrays.

End Numpy.

(** ** signal_processing.py *)

Module SignalProcessing.
Import Numpy.

(** [_create_freqs(freq_start, freq_stop, freq_step)] on Python ints, the
    type of the default step. *)
Definition _create_freqs (freq_start freq_stop freq_step : Z)
  : result (list Z) :=
  arange freq_start (freq_stop + freq_step)%Z freq_step.

(** The argument [norm] of [_convolve_wavelet]: ["sss"], ["amp"], [None], or
    anything else. *)
Inductive norm : Type :=
| NormSss
| NormAmp
| NormNone
| NormOther.

Section Wavelet.
Context {C : Type}.
Variables (czero : C) (cadd csub cmul : C -> C -> C) (cneg : C -> C).

(** [_convolve_wavelet] from the convolution on. The kernel
    [int_psi_scale], which the function cuts out of the integrated Morlet
    wavelet, and the numbers [scale] and [sqrt(scale)] are arguments here;
    the test of [norm] is the first statement of the function. *)
Definition _convolve_wavelet (sig int_psi_scale : list C)
  (scale sqrt_scale : C) (nrm : norm) : result (list C) :=
  match nrm with
  | NormOther => Raise ValueError
  | _ =>
      let! conv := convolve czero cadd cmul sig int_psi_scale in
      let coef :=
        match nrm with
        | NormSss => map (cmul (cneg sqrt_scale)) (diff csub conv)
        | NormAmp => map (cmul (cneg scale)) (diff csub conv)
        | _ => diff csub conv
        end in
      let d := (len coef - len sig) / 2 in
      if Qlt_bool 0 d then Ok (slice coef (Qfloor d) (- Qceiling d))
      else if Qlt_bool d 0 then Raise ValueError
      else Ok coef
  end.

End Wavelet.

End SignalProcessing.

(** ** perievent.py *)

Module Perievent.
Import Numpy.

(** The arrays that [_align_tsd] cuts out for the reference events, in the
    order of the events: for event [i] the times [tmp], counted from the
    event, and the data [tmp2]. The function wraps each pair into a [Ts] or
    a [Tsd] with the given time support and collects them in a [TsGroup]. *)
Definition _align_tsd {V : Type} (index : list Q) (values : list V)
  (tref : list Q) (window : Q * Q) : list (list Q * list V) :=
  let lbounds := map (fun r => searchsorted index (r - fst window)) tref in
  let rbounds := map (fun r => searchsorted index (r + snd window)) tref in
  map
    (fun i =>
       let l := nth i lbounds O in
       let r := nth i rbounds O in
       (map (fun t => t - nth i tref 0) (slice_between index l r),
        slice_between values l r))
    (seq 0 (length tref)).

(** The samples of a series inside the window [[lo, hi)]. *)
Definition inside {V : Type} (lo hi : Q) (sample : Q * V) : bool :=
  Qle_bool lo (fst sample) && Qlt_bool (fst sample) hi.

(** The time index of [compute_event_trigger_average], from the two sides
    [start] and [end] of the window and the bin size, when the three are
    whole numbers of seconds and the bin size is positive. They are float64
    numbers, on which the arithmetic of [arange] is then exact. *)
Definition time_idx (start end_ : Z) (binsize : positive) : list Z :=
  let idx1 :=
    map Z.opp
      (removelast
         (rev (arange_values 0 (start + Z.pos binsize) (Z.pos binsize)))) in
  let idx2 :=
    tail (arange_values 0 (end_ + Z.pos binsize) (Z.pos binsize)) in
  idx1 ++ [0%Z] ++ idx2.

End Perievent.

(** ** time_series.py: the array protocol of the containers *)

Module ArrayProtocol.
Import TimeSeries.

(** An argument of a universal function. *)
Inductive ufunc_arg : Type :=
| ArgNumber (x : Q)
| ArgSeries (s : series)
| ArgOther.

(** [isinstance(a, cls)] for a container [a]: [Ts] is a subclass of
    [Tsd]. *)
Definition is_instance (a : series) (cls : string) : bool :=
  String.eqb (nap_class a) cls
  || (String.eqb cls "Tsd" && String.eqb (nap_class a) "Ts").

(** The loop [for a in args]: the arrays to hand to the function, or
    nothing when [NotImplemented] is returned. *)
Fixpoint new_args (cls : string) (args : list ufunc_arg)
  : option (list npitem) :=
  match args with
  | [] => Some []
  | ArgNumber x :: rest =>
      match new_args cls rest with
      | Some l => Some (Scalar x :: l)
      | None => None
      end
  | ArgSeries a :: rest =>
      if is_instance a cls then
        match new_args cls rest with
        | Some l => Some (Arr (values a) :: l)
        | None => None
        end
      else None
  | ArgOther :: _ => None
  end.

Section Protocol.
Variable decimals : nat.

(** [Tsd.__array_ufunc__] for [self] of class [Tsd]; [None] stands for
    [NotImplemented]. *)
Definition Tsd_array_ufunc (ufunc : list npitem -> result ndarray)
  (method : string) (self : series) (args : list ufunc_arg)
  : result (option series) :=
  if String.eqb method "__call__" then
    match new_args "Tsd" args with
    | None => Ok None
    | Some new_args =>
        let! out := ufunc new_args in
        let! r :=
          Tsd_init decimals (Arr (Array1 (index self))) (Some (Arr out))
            "s" None in
        Ok (Some r)
    end
  else Ok None.

(** [TsdFrame.__array_ufunc__] *)
Definition TsdFrame_array_ufunc (ufunc : list npitem -> result ndarray)
  (method : string) (self : series) (args : list ufunc_arg)
  : result (option series) :=
  if String.eqb method "__call__" then
    match new_args "TsdFrame" args with
    | None => Ok None
    | Some new_args =>
        let! out := ufunc new_args in
        let! r := TsdFrame_init decimals (index self) (Some out) "s" None in
        Ok (Some r)
    end
  else Ok None.

End Protocol.

End ArrayProtocol.
(** * Facts about numbers *)

Lemma Qlt_bool_iff (x y : Q) : Qlt_bool x y = true <-> x < y.
Proof.
  unfold Qlt_bool. rewrite negb_true_iff.
  split.
  - intros H. apply Qnot_le_lt. intros Hle.
    apply Qle_bool_iff in Hle. congruence.
  - intros H. destruct (Qle_bool y x) eqn:E; [|reflexivity].
    apply Qle_bool_iff in E. exfalso. exact (Qlt_not_le _ _ H E).
Qed.

(** * Properties of [_cross_correlogram] *)

Module CorrelogramFacts.
Import Correlograms.

Lemma fold_left_invariant {S X : Type} (P : S -> Prop) (f : S -> X -> S)
  (l : list X) (s : S) :
  P s -> (forall st x, P st -> P (f st x)) -> P (fold_left f l s).
Proof.
  intros Hs Hf. revert s Hs.
  induction l as [|x l IH]; intros s Hs; simpl; [exact Hs|].
  apply IH, Hf, Hs.
Qed.

Lemma bin_step_length t2 binsize st j :
  length (snd (bin_step t2 binsize st j)) = length (snd st).
Proof.
  destruct st as [[rbound leftb] C]. unfold bin_step.
  destruct (count_bin _ _ _ _ _) as [leftb' k]. simpl.
  apply length_insert.
Qed.

Lemma ref_step_length t1 t2 binsize w nbins st i1 :
  length (snd (ref_step t1 t2 binsize w nbins st i1)) = length (snd st).
Proof.
  destruct st as [i2 C]. unfold ref_step.
  set (init := (_, _, C)).
  assert (H : length (snd (fold_left (bin_step t2 binsize) (seq 0 nbins) init))
              = length C).
  { apply (fold_left_invariant (fun st => length (snd st) = length C)).
    - reflexivity.
    - intros st x Hst. rewrite bin_step_length. exact Hst. }
  destruct (fold_left _ _ init) as [[? ?] C']. exact H.
Qed.

(** The parity test of the source, [np.floor(nbins / 2) * 2 == nbins], is
    evenness. *)
Lemma floor_half_test (n : Z) :
  (Qfloor (inject_Z n / 2) * 2 =? n)%Z = Z.even n.
Proof.
  assert (E : Qfloor (inject_Z n / 2) = (n / 2)%Z).
  { unfold Qdiv, Qmult, Qinv, inject_Z, Qfloor. simpl.
    rewrite Z.mul_1_r. reflexivity. }
  rewrite E.
  destruct (Z.even n) eqn:Hev.
  - apply Z.eqb_eq. apply Z.even_spec in Hev. destruct Hev as [k ->].
    rewrite (Z.mul_comm 2 k), Z.div_mul by lia. reflexivity.
  - apply Z.eqb_neq. intros Heq.
    assert (Hn : Z.even n = true).
    { apply Z.even_spec. exists (n / 2)%Z. lia. }
    congruence.
Qed.

Lemma number_of_bins_spec binsize windowsize :
  number_of_bins binsize windowsize =
    let n := Qfloor ((windowsize * 2) / binsize) in
    if Z.even n then (n + 1)%Z else n.
Proof. unfold number_of_bins. rewrite floor_half_test. reflexivity. Qed.

Lemma number_of_bins_odd binsize windowsize :
  Z.odd (number_of_bins binsize windowsize) = true.
Proof.
  rewrite number_of_bins_spec. cbv zeta.
  destruct (Z.even _) eqn:Hev.
  - rewrite Z.odd_add, <- Z.negb_even, Hev. reflexivity.
  - rewrite <- Z.negb_even, Hev. reflexivity.
Qed.

Lemma number_of_bins_ge_3 binsize windowsize :
  0 < binsize -> binsize <= windowsize ->
  (3 <= number_of_bins binsize windowsize)%Z.
Proof.
  intros Hb Hw.
  assert (H2 : (2 <= Qfloor ((windowsize * 2) / binsize))%Z).
  { change 2%Z with (Qfloor (inject_Z 2)) at 1.
    apply Qfloor_resp_le.
    apply Qle_shift_div_l; [exact Hb|].
    change (inject_Z 2) with 2. lra. }
  pose proof (number_of_bins_odd binsize windowsize) as Hodd.
  rewrite number_of_bins_spec in *. cbv zeta in *.
  destruct (Z.even _) eqn:Hev; [lia|].
  destruct (Z.eq_dec (Qfloor (windowsize * 2 / binsize)) 2%Z) as [E|E]; [|lia].
  rewrite E in Hev. discriminate.
Qed.

Lemma bin_centers_length nbins binsize w :
  length (bin_centers nbins binsize w) = nbins.
Proof. unfold bin_centers. rewrite length_map, length_seq. reflexivity. Qed.

Lemma bin_centers_lookup nbins binsize w (j : nat) :
  (j < nbins)%nat ->
  bin_centers nbins binsize w !! j
  = Some (- w + binsize / 2 + inject_Z (Z.of_nat j) * binsize).
Proof.
  intros Hj. unfold bin_centers.
  rewrite list_lookup_fmap, lookup_seq_lt by exact Hj. reflexivity.
Qed.

(** With a non-zero bin size and a non-negative bin count the function
    returns, and its two arrays have [nbins] entries. *)
Lemma cross_correlogram_returns t1 t2 binsize windowsize :
  ~ binsize == 0 ->
  (0 <= number_of_bins binsize windowsize)%Z ->
  let nbins := number_of_bins binsize windowsize in
  exists C,
    _cross_correlogram t1 t2 binsize windowsize
    = Ok (C, bin_centers (Z.to_nat nbins) binsize (half_window nbins binsize))
    /\ length C = Z.to_nat nbins.
Proof.
  intros Hb Hn nbins. unfold _cross_correlogram.
  destruct (Qeq_bool binsize 0) eqn:E.
  { apply Qeq_bool_iff in E. contradiction. }
  fold nbins.
  destruct (nbins <? 0)%Z eqn:E2; [apply Z.ltb_lt in E2; lia|].
  set (w := half_window nbins binsize).
  set (init := (O, repeat 0 (Z.to_nat nbins))).
  assert (H : length (snd (fold_left
                (ref_step t1 t2 binsize w (Z.to_nat nbins))
                (seq 0 (length t1)) init)) = Z.to_nat nbins).
  { apply (fold_left_invariant (fun st => length (snd st) = Z.to_nat nbins)).
    - simpl. apply repeat_length.
    - intros st x Hst. rewrite ref_step_length. exact Hst. }
  destruct (fold_left _ _ init) as [i2 C]. simpl in H.
  eexists. split; [reflexivity|].
  rewrite length_map. exact H.
Qed.

(** When the function returns, its arrays are the bin centers of
    [number_of_bins] and as many counts. *)
Lemma cross_correlogram_inv t1 t2 binsize windowsize C B :
  _cross_correlogram t1 t2 binsize windowsize = Ok (C, B) ->
  let nbins := number_of_bins binsize windowsize in
  B = bin_centers (Z.to_nat nbins) binsize (half_window nbins binsize)
  /\ length C = Z.to_nat nbins.
Proof.
  intros H nbins.
  assert (Hb : ~ binsize == 0).
  { intros Hz. apply Qeq_bool_iff in Hz. unfold _cross_correlogram in H.
    rewrite Hz in H. discriminate H. }
  assert (Hn : (0 <= nbins)%Z).
  { destruct (Z.ltb_spec nbins 0) as [Hlt|Hge]; [|exact Hge].
    apply Z.ltb_lt in Hlt. unfold _cross_correlogram in H.
    destruct (Qeq_bool binsize 0); [discriminate H|].
    fold nbins in H. rewrite Hlt in H. discriminate H. }
  destruct (cross_correlogram_returns t1 t2 binsize windowsize Hb Hn)
    as (C' & HC' & Hlen).
  rewrite HC' in H. injection H as <- <-. split; [reflexivity|exact Hlen].
Qed.

(** C3. With reference timestamps [[0]] and target timestamps [[1]], bin
    size 1 and window 100, [_cross_correlogram] returns a count array of 201
    entries whose entry 101, the bin of lag 1, is exactly 1 after the scaling
    by [1 / (n1 * binsize)] with [n1 = 1]. *)
Theorem cross_correlogram_single_pair :
  exists C B,
    _cross_correlogram [0] [1] 1 100 = Ok (C, B)
    /\ length C = 201%nat
    /\ C !! 101%nat = Some (Fin 1)
    /\ (exists lag, B !! 101%nat = Some lag /\ lag == 1).
Proof.
  vm_compute. do 2 eexists. repeat split; try reflexivity.
  eexists. split; reflexivity.
Qed.

(** C10. For [binsize > 0] and [windowsize >= binsize] the function returns;
    the array [B] of bin centers has odd length ([(windowsize * 2) //
    binsize], plus one when that is even), consecutive entries differ by
    [binsize], the middle entry [B[(nbins - 1) / 2]] is 0 in exact
    arithmetic, and the grid is symmetric around it. *)
Theorem bin_centers_odd_and_centered t1 t2 binsize windowsize :
  0 < binsize -> binsize <= windowsize ->
  exists C B,
    _cross_correlogram t1 t2 binsize windowsize = Ok (C, B)
    /\ Nat.Odd (length B)
    /\ Z.of_nat (length B)
       = (let n := Qfloor ((windowsize * 2) / binsize) in
          if Z.even n then n + 1 else n)%Z
    /\ (forall (j : nat) x y,
          B !! j = Some x -> B !! S j = Some y -> y - x == binsize)
    /\ (exists mid, B !! ((length B - 1) / 2)%nat = Some mid /\ mid == 0)
    /\ (forall (j : nat) x y,
          B !! j = Some x -> B !! (length B - 1 - j)%nat = Some y ->
          x == - y).
Proof.
  intros Hb Hw.
  pose proof (number_of_bins_ge_3 _ _ Hb Hw) as H3.
  pose proof (number_of_bins_odd binsize windowsize) as Hodd.
  destruct (cross_correlogram_returns t1 t2 binsize windowsize)
    as (C & HC & _); [lra | lia |].
  set (nbins := number_of_bins binsize windowsize) in *.
  set (w := half_window nbins binsize) in *.
  exists C, (bin_centers (Z.to_nat nbins) binsize w).
  rewrite bin_centers_length.
  assert (Hz : inject_Z (Z.of_nat (Z.to_nat nbins)) == inject_Z nbins).
  { rewrite Z2Nat.id by lia. reflexivity. }
  apply Z.odd_spec in Hodd. destruct Hodd as [h Hh].
  assert (Hhalf : ((Z.to_nat nbins - 1) / 2)%nat = Z.to_nat h).
  { assert (Hn : Z.to_nat nbins = (Z.to_nat h * 2 + 1)%nat) by lia.
    rewrite Hn.
    replace (Z.to_nat h * 2 + 1 - 1)%nat with (Z.to_nat h * 2)%nat by lia.
    apply Nat.div_mul. lia. }
  split; [exact HC|]. split; [|split; [|split; [|split]]].
  - exists (Z.to_nat h). lia.
  - rewrite Z2Nat.id by lia. apply number_of_bins_spec.
  - intros j x y Hx Hy.
    assert (Hj : (S j < Z.to_nat nbins)%nat).
    { apply lookup_lt_Some in Hy. rewrite bin_centers_length in Hy. exact Hy. }
    rewrite bin_centers_lookup in Hx, Hy by lia.
    injection Hx as <-. injection Hy as <-.
    rewrite Nat2Z.inj_succ. unfold Z.succ. rewrite inject_Z_plus.
    change (inject_Z 1) with 1. ring.
  - rewrite Hhalf. eexists. split.
    + apply bin_centers_lookup. lia.
    + rewrite Z2Nat.id by lia. unfold w, half_window. rewrite Hh.
      rewrite inject_Z_plus, inject_Z_mult.
      change (inject_Z 2) with 2. change (inject_Z 1) with 1. field.
  - intros j x y Hx Hy.
    assert (Hj : (j < Z.to_nat nbins)%nat).
    { apply lookup_lt_Some in Hx. rewrite bin_centers_length in Hx. exact Hx. }
    rewrite bin_centers_lookup in Hx, Hy by lia.
    injection Hx as <-. injection Hy as <-.
    rewrite !Nat2Z.inj_sub by lia. rewrite Z2Nat.id by lia.
    unfold w, half_window. unfold Z.sub.
    rewrite !inject_Z_plus, !inject_Z_opp.
    change (inject_Z (Z.of_nat 1)) with 1. field.
Qed.

(** The hypotheses of [bin_centers_odd_and_centered] hold for a bin of 1/2
    and a window of 3. *)
Lemma bin_centers_odd_and_centered_witness :
  exists C B,
    _cross_correlogram [0; 1] [1 # 2] (1 # 2) 3 = Ok (C, B)
    /\ Nat.Odd (length B)
    /\ Z.of_nat (length B)
       = (let n := Qfloor ((3 * 2) / (1 # 2)) in
          if Z.even n then n + 1 else n)%Z
    /\ (forall (j : nat) x y,
          B !! j = Some x -> B !! S j = Some y -> y - x == 1 # 2)
    /\ (exists mid, B !! ((length B - 1) / 2)%nat = Some mid /\ mid == 0)
    /\ (forall (j : nat) x y,
          B !! j = Some x -> B !! (length B - 1 - j)%nat = Some y ->
          x == - y).
Proof.
  apply (bin_centers_odd_and_centered [0; 1] [1 # 2] (1 # 2) 3).
  - reflexivity.
  - discriminate.
Defined.

End CorrelogramFacts.

(** * Properties of [_validate_correlograms_inputs] *)

Module ValidationFacts.
Import Validation.

Lemma check_group_wrong name kw group :
  kw !! "group"%string = Some group ->
  ~ group_has_right_class name group ->
  check_group name kw = Raise TypeError.
Proof.
  intros Hg Hwrong. unfold check_group. rewrite Hg.
  destruct (isinstance group ClsTsGroup) eqn:Hinst.
  { exfalso. apply Hwrong. left. exact Hinst. }
  destruct (as_tuple_or_list group) as [items|] eqn:Hitems; [|reflexivity].
  destruct (String.eqb name "compute_crosscorrelogram") eqn:Hname;
    [|reflexivity].
  apply String.eqb_eq in Hname.
  destruct (negb (forallb _ items) || negb (length items =? 2)%nat) eqn:Hchk;
    [reflexivity|].
  exfalso. apply Hwrong. right. split; [exact Hname|].
  apply orb_false_elim in Hchk as [Hall Hlen].
  apply negb_false_iff in Hall, Hlen.
  apply Nat.eqb_eq in Hlen.
  destruct items as [|g1 [|g2 [|g3 items]]]; try discriminate Hlen.
  simpl in Hall. rewrite andb_true_r in Hall.
  apply andb_true_iff in Hall as [H1 H2].
  exists g1, g2. repeat split; try assumption.
  destruct group; try discriminate Hitems;
    injection Hitems as ->; [left|right]; reflexivity.
Qed.

Lemma check_group_raises_only_TypeError name kw e :
  is_Some (kw !! "group"%string) ->
  check_group name kw = Raise e -> e = TypeError.
Proof.
  intros [group Hg]. unfold check_group. rewrite Hg.
  repeat match goal with
         | |- context [match ?x with _ => _ end] => destruct x
         end; congruence.
Qed.

Lemma check_parameters_raises_only_TypeError table kw e :
  check_parameters table kw = Raise e -> e = TypeError.
Proof.
  induction table as [|[param cls] table IH]; simpl; [discriminate|].
  destruct (kw !! param) as [v|]; [|exact IH].
  destruct (negb (isinstance v cls)); [congruence|exact IH].
Qed.

Lemma check_parameters_wrong table kw param cls v :
  In (param, cls) table ->
  kw !! param = Some v ->
  isinstance v cls = false ->
  check_parameters table kw = Raise TypeError.
Proof.
  intros Hin Hv Hinst.
  induction table as [|[param' cls'] table IH]; [destruct Hin|].
  simpl.
  destruct (check_parameters table kw) as [[]|e] eqn:Hrest.
  - destruct Hin as [Heq|Hin]; [|specialize (IH Hin); discriminate IH].
    injection Heq as -> ->. rewrite Hv, Hinst. reflexivity.
  - apply check_parameters_raises_only_TypeError in Hrest as ->.
    destruct (kw !! param') as [v'|]; [|reflexivity].
    destruct (negb (isinstance v' cls')); reflexivity.
Qed.

Lemma bind_positional_raises_only_TypeError names args bound e :
  bind_positional names args bound = Raise e -> e = TypeError.
Proof.
  revert names bound.
  induction args as [|a args IH]; intros names bound; simpl; [discriminate|].
  destruct names as [|n names]; [congruence|apply IH].
Qed.

(** A call that cannot be bound to the signature is a [TypeError] too, and
    the body does not run. *)
Lemma unbound_call_raises_TypeError {Σ A} (func : pyfunc Σ A) args kw e σ :
  bind_partial (signature func) args kw = Raise e ->
  wrapper func args kw σ = (Raise TypeError, σ).
Proof.
  intros Hbind. unfold wrapper. rewrite Hbind.
  unfold bind_partial, bind in Hbind.
  destruct (bind_positional _ _ _) as [bound|e'] eqn:Hpos.
  - destruct (_ && _); congruence.
  - apply bind_positional_raises_only_TypeError in Hpos. congruence.
Qed.

(** When every argument passed has the right class, the wrapper is the body
    applied to the bound arguments. *)
Lemma validated_call_runs_body {Σ A} (func : pyfunc Σ A) args kw bound σ :
  bind_partial (signature func) args kw = Ok bound ->
  check_group (__name__ func) bound = Ok tt ->
  check_parameters parameters_type bound = Ok tt ->
  wrapper func args kw σ = body func bound σ.
Proof.
  intros Hbind Hg Hp. unfold wrapper. rewrite Hbind, Hg, Hp. reflexivity.
Qed.




End ValidationFacts.

(** * Properties of the containers *)

Module TimeSeriesFacts.
Import TimeSeries.

(** ** Helpers: time units *)

Lemma format_timestamps_seconds decimals t :
  format_timestamps decimals t "s"
  = Ok (map (fun x => np_around (x * 1) decimals) t).
Proof. reflexivity. Qed.

Lemma insert_time_not_nil x t : insert_time x t <> [].
Proof.
  destruct t as [|y t]; simpl; [discriminate|].
  destruct (Qcompare x y); discriminate.
Qed.

Lemma sort_timestamps_nil_iff t : sort_timestamps t = [] <-> t = [].
Proof.
  split; [|intros ->; reflexivity].
  destruct t as [|x t]; [reflexivity|]. simpl.
  intros H. exfalso. exact (insert_time_not_nil _ _ H).
Qed.

Lemma normalized_nil_iff decimals t : normalized decimals t = [] <-> t = [].
Proof.
  unfold normalized. rewrite sort_timestamps_nil_iff.
  destruct t; simpl; split; congruence.
Qed.

(** [sort_timestamps] returns a strictly increasing array. *)
Lemma insert_time_Forall (P : Q -> Prop) x t :
  P x -> Forall P t -> Forall P (insert_time x t).
Proof.
  intros Hx Ht. induction Ht as [|y t Hy Ht IH]; simpl.
  - constructor; [exact Hx|constructor].
  - destruct (Qcompare x y); repeat constructor; assumption.
Qed.

Lemma insert_time_sorted x t :
  StronglySorted Qlt t -> StronglySorted Qlt (insert_time x t).
Proof.
  induction 1 as [|y t Hs IH Hy]; simpl.
  - repeat constructor.
  - destruct (Qcompare x y) eqn:Hc.
    + constructor; assumption.
    + rewrite <- Qlt_alt in Hc. constructor; [constructor; assumption|].
      constructor; [exact Hc|].
      eapply List.Forall_impl; [|exact Hy].
      intros z Hz. simpl in Hz. eapply Qlt_trans; eassumption.
    + rewrite <- Qgt_alt in Hc. constructor; [exact IH|].
      apply insert_time_Forall; assumption.
Qed.

Lemma sort_timestamps_sorted t : StronglySorted Qlt (sort_timestamps t).
Proof.
  induction t as [|x t IH]; simpl; [constructor|].
  apply insert_time_sorted, IH.
Qed.

Lemma sorted_head_le_last t :
  StronglySorted Qlt t -> List.hd 0 t <= List.last t 0.
Proof.
  intros Hs. destruct t as [|x t]; [apply Qle_refl|].
  apply StronglySorted_inv in Hs as [_ Hx].
  destruct t as [|y t]; [apply Qle_refl|].
  assert (Hin : In (List.last (y :: t) 0) (y :: t)).
  { clear. revert y. induction t as [|z t IH]; intros y; [left; reflexivity|].
    right. apply IH. }
  change (List.last (x :: y :: t) 0) with (List.last (y :: t) 0).
  rewrite List.Forall_forall in Hx. apply Qlt_le_weak, Hx, Hin.
Qed.

(** ** Helpers: interval sets *)

Lemma combine_starts_ends (ep : IntervalSet) :
  combine (starts_of ep) (ends_of ep) = ep.
Proof.
  unfold starts_of, ends_of.
  induction ep as [|[s e] ep IH]; simpl; [reflexivity|].
  rewrite IH. reflexivity.
Qed.

(** The bounding interval of a sorted time array is a valid interval set of
    one row. *)
Lemma IntervalSet_init_single a b :
  a <= b -> IntervalSet_init [a] [b] = Ok [(a, b)].
Proof.
  intros Hab. unfold IntervalSet_init. simpl.
  assert (E : Qlt_bool b a = false).
  { destruct (Qlt_bool b a) eqn:E; [|reflexivity].
    apply Qlt_bool_iff in E. exfalso. exact (Qlt_not_le _ _ E Hab). }
  rewrite E. reflexivity.
Qed.

(** ** Helpers: restriction *)

Section RestrictFacts.
Context {D : Type}.

(** Every sample the scan emits lies in an interval of the set. *)
Lemma restrict_scan_inside (ep : IntervalSet) (samples : list (Q * D)) :
  Forall (fun s => in_intervals (fst s) ep = true) (restrict_scan ep samples).
Proof.
  revert samples. induction ep as [|row ep IHep]; intros samples.
  { destruct samples; constructor. }
  induction samples as [|[t d] samples IHs]; [constructor|].
  simpl.
  destruct (Qlt_bool t (fst row)) eqn:Hlt; [exact IHs|].
  destruct (Qle_bool t (snd row)) eqn:Hle.
  - constructor; [|exact IHs].
    unfold in_intervals. simpl. unfold in_interval at 1.
    rewrite Hle, andb_true_r.
    unfold Qlt_bool in Hlt. apply negb_false_iff in Hlt. rewrite Hlt.
    reflexivity.
  - eapply List.Forall_impl; [|apply IHep].
    intros s Hs. simpl in Hs. unfold in_intervals in *. simpl.
    rewrite Hs. apply orb_true_r.
Qed.

(** The scan emits a sub-sequence of its input. *)
Lemma restrict_scan_sublist (ep : IntervalSet) (samples : list (Q * D)) :
  sublist (restrict_scan ep samples) samples.
Proof.
  revert samples. induction ep as [|row ep IHep]; intros samples.
  { destruct samples; apply sublist_nil_l. }
  induction samples as [|[t d] samples IHs]; [constructor|].
  simpl.
  destruct (Qlt_bool t (fst row)); [apply sublist_cons, IHs|].
  destruct (Qle_bool t (snd row)); [apply sublist_skip, IHs|].
  apply IHep.
Qed.

(** On a sorted series and a canonical interval set the scan keeps exactly
    the samples that lie in some interval: it agrees with the search of
    every sample in every interval. *)
Lemma restrict_scan_complete (ep : IntervalSet) (samples : list (Q * D)) :
  canonical ep ->
  StronglySorted Qle (map fst samples) ->
  restrict_scan ep samples
  = List.filter (fun s => in_intervals (fst s) ep) samples.
Proof.
  intros [Hrows Hsep]. revert samples.
  induction ep as [|row ep IHep]; intros samples Hsorted.
  { clear Hsorted.
    assert (E : forall l : list (Q * D), restrict_scan [] l = [])
      by (intros []; reflexivity).
    rewrite E.
    induction samples as [|s samples IH]; [reflexivity|]. simpl. exact IH. }
  apply Forall_cons_1 in Hrows as [Hrow Hrows].
  apply StronglySorted_inv in Hsep as [Hsep Hlater].
  specialize (IHep Hrows Hsep).
  assert (Hbefore : forall t, t <= snd row -> in_intervals t ep = false).
  { intros t Ht. unfold in_intervals. apply not_true_is_false. intros H.
    apply existsb_exists in H as (r & Hin & Hr).
    rewrite List.Forall_forall in Hlater. specialize (Hlater r Hin).
    unfold in_interval in Hr. apply andb_true_iff in Hr as [Hr _].
    apply Qle_bool_iff in Hr. lra. }
  induction samples as [|[t d] samples IHs]; [reflexivity|].
  simpl in Hsorted. pose proof Hsorted as Hall.
  apply StronglySorted_inv in Hsorted as [Htail Hge].
  specialize (IHs Htail).
  assert (Hin : in_intervals t (row :: ep)
                = in_interval t row || in_intervals t ep) by reflexivity.
  assert (Hfilter : forall f : Q * D -> bool,
             List.filter f ((t, d) :: samples)
             = if f (t, d) then (t, d) :: List.filter f samples
               else List.filter f samples) by reflexivity.
  change (restrict_scan (row :: ep) ((t, d) :: samples))
    with (if Qlt_bool t (fst row) then restrict_scan (row :: ep) samples
          else if Qle_bool t (snd row)
               then (t, d) :: restrict_scan (row :: ep) samples
               else restrict_scan ep ((t, d) :: samples)).
  destruct (Qlt_bool t (fst row)) eqn:Hlt.
  - apply Qlt_bool_iff in Hlt.
    assert (E : Qle_bool (fst row) t = false).
    { apply not_true_is_false. intros H. apply Qle_bool_iff in H. lra. }
    rewrite Hfilter. cbv beta. change (fst (t, d)) with t.
    rewrite Hin. unfold in_interval. rewrite E, (Hbefore t) by lra.
    exact IHs.
  - assert (E : Qle_bool (fst row) t = true).
    { unfold Qlt_bool in Hlt. apply negb_false_iff in Hlt. exact Hlt. }
    destruct (Qle_bool t (snd row)) eqn:Hle.
    + rewrite Hfilter. cbv beta. change (fst (t, d)) with t.
      rewrite Hin. unfold in_interval. rewrite E, Hle. simpl.
      f_equal. exact IHs.
    + rewrite IHep by exact Hall.
      apply List.filter_ext_in. intros s Hs.
      assert (Hts : t <= fst s).
      { destruct Hs as [<-|Hs]; [apply Qle_refl|].
        rewrite List.Forall_forall in Hge. apply Hge.
        apply in_map_iff. exists s. split; [reflexivity|exact Hs]. }
      assert (Hout : Qle_bool (fst s) (snd row) = false).
      { apply not_true_is_false. intros H. apply Qle_bool_iff in H.
        assert (Hte : t <= snd row) by (eapply Qle_trans; eassumption).
        apply Qle_bool_iff in Hte. congruence. }
      change (in_intervals (fst s) (row :: ep))
        with (in_interval (fst s) row || in_intervals (fst s) ep).
      unfold in_interval. rewrite Hout, andb_false_r. reflexivity.
Qed.

Lemma restrict_scan_empty_set (samples : list (Q * D)) :
  restrict_scan [] samples = [].
Proof. destruct samples; reflexivity. Qed.

Lemma jitrestrict_inside t (d : list D) (ep : IntervalSet) :
  Forall (fun x => in_intervals x ep = true)
    (fst (jitrestrict t d (starts_of ep) (ends_of ep))).
Proof.
  unfold jitrestrict. rewrite combine_starts_ends. simpl.
  rewrite List.Forall_map. apply restrict_scan_inside.
Qed.

End RestrictFacts.

Lemma jitrestrict_nd_inside t d (ep : IntervalSet) :
  Forall (fun x => in_intervals x ep = true)
    (fst (jitrestrict_nd t d (starts_of ep) (ends_of ep))).
Proof.
  unfold jitrestrict_nd. destruct d as [data|rows].
  - pose proof (jitrestrict_inside t data ep) as H.
    destruct (jitrestrict t data _ _). exact H.
  - pose proof (jitrestrict_inside t rows ep) as H.
    destruct (jitrestrict t rows _ _). exact H.
Qed.

Lemma jitrestrict_nd_empty_set t d :
  jitrestrict_nd t d [] [] = ([], match d with
                                   | Array1 _ => Array1 []
                                   | Array2 _ => Array2 []
                                   end).
Proof.
  destruct d; unfold jitrestrict_nd, jitrestrict;
    change (combine (@nil Q) (@nil Q)) with (@nil (Q * Q));
    rewrite restrict_scan_empty_set; reflexivity.
Qed.

(** ** The body of the constructors *)

Section ContainerFacts.
Variable decimals : nat.

(** With seconds as unit the body never raises, and has three outcomes. *)
Lemma init_body_seconds cls t d ts :
  init_body decimals cls t d "s" ts
  = match normalized decimals t, ts with
    | [], _ => Ok (mk_series cls [] (Array1 []) IntervalSet_empty (Fin 0))
    | t', Some ep =>
        let '(t2, d2) := jitrestrict_nd t' d (starts_of ep) (ends_of ep) in
        Ok (mk_series cls t2 d2 ep (fdiv (Fin (len t2)) (Fin (tot_length ep))))
    | t', None =>
        let ep := [(List.hd 0 t', List.last t' 0)] in
        Ok (mk_series cls t' d ep (fdiv (Fin (len t')) (Fin (tot_length ep))))
    end.
Proof.
  unfold init_body. rewrite format_timestamps_seconds. unfold bind.
  fold (normalized decimals t).
  pose proof (sort_timestamps_sorted
                (map (fun x => np_around (x * 1) decimals) t)) as Hs.
  fold (normalized decimals t) in Hs.
  destruct (normalized decimals t) as [|t0 t'] eqn:Hn; [reflexivity|].
  change (0 <? length (t0 :: t'))%nat with true. cbv iota.
  destruct ts as [ep|]; [reflexivity|].
  rewrite IntervalSet_init_single by (apply sorted_head_le_last, Hs).
  reflexivity.
Qed.

Lemma init_body_seconds_returns cls t d ts :
  exists r, init_body decimals cls t d "s" ts = Ok r /\ nap_class r = cls.
Proof.
  rewrite init_body_seconds.
  destruct (normalized decimals t) as [|t0 t']; [eexists; split; reflexivity|].
  destruct ts as [ep|]; [|eexists; split; reflexivity].
  cbv zeta. destruct (jitrestrict_nd _ _ _ _). eexists; split; reflexivity.
Qed.

(** The rate set by the body, whatever the unit. *)
Lemma init_body_rate cls t d units ts r :
  init_body decimals cls t d units ts = Ok r ->
  match t with
  | [] => rate r = Fin 0 /\ index r = [] /\ time_support r = []
  | _ :: _ => rate r = rate_formula r
  end.
Proof.
  unfold init_body, format_timestamps.
  destruct (unit_factor units) as [factor|]; [|discriminate].
  unfold bind.
  set (sorted := sort_timestamps _).
  assert (Hnil : sorted = [] <-> t = []).
  { unfold sorted. rewrite sort_timestamps_nil_iff.
    destruct t; simpl; split; congruence. }
  destruct sorted as [|t0 t'].
  - assert (t = []) as -> by (apply Hnil; reflexivity).
    simpl. intros [= <-]. repeat split; reflexivity.
  - destruct t as [|x t].
    { destruct Hnil as [_ Hnil]. discriminate Hnil. reflexivity. }
    change (0 <? length (t0 :: t'))%nat with true. cbv iota.
    destruct ts as [ep|].
    + destruct (jitrestrict_nd _ _ _ _) as [t2 d2].
      intros [= <-]. reflexivity.
    + destruct (IntervalSet_init _ _) as [ep|]; [|discriminate].
      intros [= <-]. reflexivity.
Qed.

(** ** Restriction *)

Lemma restrict_through_body cls (t : list Q) (d : ndarray) (ep : IntervalSet) :
  exists r,
    init_body decimals cls t d "s" (Some ep) = Ok r
    /\ nap_class r = cls
    /\ time_support r
       = match t with
         | [] => IntervalSet_empty
         | _ :: _ => ep
         end
    /\ Forall (fun t => in_intervals t ep = true) (index r).
Proof.
  rewrite init_body_seconds.
  destruct (normalized decimals t) as [|t0 t'] eqn:Hn.
  - apply normalized_nil_iff in Hn as ->.
    eexists. repeat split. constructor.
  - destruct t as [|x t]; [discriminate Hn|].
    pose proof (jitrestrict_nd_inside (t0 :: t') d ep) as Hin.
    cbv zeta. destruct (jitrestrict_nd _ _ _ _) as [t2 d2].
    eexists. repeat split. exact Hin.
Qed.

Lemma Tsd_restrict_unfold (x : series) (ep : IntervalSet) :
  Tsd_restrict decimals x ep
  = init_body decimals "Tsd" (kept_times x ep)
      (snd (jitrestrict_nd (index x) (values x) (starts_of ep) (ends_of ep)))
      "s" (Some ep).
Proof.
  unfold Tsd_restrict, kept_times.
  destruct (jitrestrict_nd _ _ _ _) as [t d]. reflexivity.
Qed.

Lemma TsdFrame_restrict_unfold (x : series) (ep : IntervalSet) :
  exists d,
    TsdFrame_restrict decimals x ep
    = init_body decimals "TsdFrame" (kept_times x ep) d "s" (Some ep).
Proof.
  unfold TsdFrame_restrict, kept_times, TsdFrame_init.
  destruct (jitrestrict_nd _ _ _ _) as [t d].
  eexists. reflexivity.
Qed.

(** What [restrict] returns, for every container [x] and interval set
    [ep]: a new container; every time of its index lies inside some interval
    of [ep], boundaries included; its time support is [ep] when the
    restriction keeps at least one sample of [x], and the empty interval set
    when it keeps none. [Tsd.restrict] serves [Tsd] and [Ts],
    [TsdFrame.restrict] serves [TsdFrame]. *)
Lemma restrict_support_and_times (x : series) (ep : IntervalSet) :
  let support :=
    match kept_times x ep with
    | [] => IntervalSet_empty
    | _ :: _ => ep
    end in
  (exists r,
      Tsd_restrict decimals x ep = Ok r
      /\ time_support r = support
      /\ Forall (fun t => in_intervals t ep = true) (index r))
  /\ (exists r,
        TsdFrame_restrict decimals x ep = Ok r
        /\ time_support r = support
        /\ Forall (fun t => in_intervals t ep = true) (index r)).
Proof.
  split.
  - rewrite Tsd_restrict_unfold.
    destruct (restrict_through_body "Tsd" (kept_times x ep)
                (snd (jitrestrict_nd (index x) (values x)
                        (starts_of ep) (ends_of ep))) ep)
      as (r & Hr & _ & Hs & Hin).
    exists r. auto.
  - destruct (TsdFrame_restrict_unfold x ep) as [d ->].
    destruct (restrict_through_body "TsdFrame" (kept_times x ep) d ep)
      as (r & Hr & _ & Hs & Hin).
    exists r. auto.
Qed.

(** C4. Restricting any container to the empty interval set raises nothing:
    the result has no sample, its time support is the empty interval set and
    its rate is 0.0. *)
Theorem restrict_to_empty_set (x : series) :
  Tsd_restrict decimals x []
  = Ok (mk_series "Tsd" [] (Array1 []) IntervalSet_empty (Fin 0))
  /\ TsdFrame_restrict decimals x []
     = Ok (mk_series "TsdFrame" [] (Array1 []) IntervalSet_empty (Fin 0)).
Proof.
  assert (Hkept : kept_times x [] = []).
  { unfold kept_times. change (starts_of []) with (@nil Q).
    change (ends_of []) with (@nil Q).
    rewrite jitrestrict_nd_empty_set. reflexivity. }
  split.
  - rewrite Tsd_restrict_unfold, Hkept, init_body_seconds. reflexivity.
  - destruct (TsdFrame_restrict_unfold x []) as [d ->].
    rewrite Hkept, init_body_seconds. reflexivity.
Qed.

(** ** Rate *)

Lemma fresh_through_body (t : list Q) (r : series) :
  fresh decimals t r ->
  exists cls d units ts, init_body decimals cls t d units ts = Ok r.
Proof.
  intros Hfresh. destruct Hfresh as
      [t d units ts r H | t units ts r H | t d units ts r H
      | x ep r H | x ep r H].
  - do 4 eexists. exact H.
  - do 4 eexists. exact H.
  - unfold TsdFrame_init in H. destruct d as [d|]; [|discriminate].
    do 4 eexists. exact H.
  - rewrite Tsd_restrict_unfold in H. do 4 eexists. exact H.
  - destruct (TsdFrame_restrict_unfold x ep) as [d Hd]. rewrite Hd in H.
    do 4 eexists. exact H.
Qed.

(** C2, amended. Right after a construction, and for the container returned
    by [restrict], [rate] is [len(index)] divided by the total duration of
    the time support whenever the time array handed to the constructor is
    not empty (for [restrict]: whenever a sample is kept); the division is
    numpy's, so a support of duration zero gives [inf] or [nan]. A container
    made from an empty time array has no sample and rate 0.0. *)
Theorem rate_of_fresh_container (t : list Q) (r : series) :
  fresh decimals t r ->
  match t with
  | [] => rate r = Fin 0 /\ index r = []
  | _ :: _ => rate r = rate_formula r
  end.
Proof.
  intros Hfresh.
  destruct (fresh_through_body t r Hfresh) as (cls & d & units & ts & H).
  apply init_body_rate in H. destruct t as [|t0 t]; [|exact H].
  destruct H as (Hrate & Hindex & _). split; assumption.
Qed.

(** ** Element access *)

Lemma normalize_index_lt n i p :
  normalize_index n i = Some p -> (p < n)%nat.
Proof.
  unfold normalize_index. cbv zeta.
  destruct (_ && _) eqn:E1.
  - intros [= <-]. apply andb_true_iff in E1 as [H0 Hn].
    apply Z.leb_le in H0. apply Z.ltb_lt in Hn. lia.
  - destruct ((- Z.of_nat n <=? i)%Z && (i <? 0)%Z) eqn:E2; [|discriminate].
    intros [= <-]. apply andb_true_iff in E2 as [H0 Hn].
    apply Z.leb_le in H0. apply Z.ltb_lt in Hn. lia.
Qed.

Lemma take_one {A : Type} (a : list A) (p : nat) (dflt : A) :
  (p < length a)%nat -> take a [p] = [nth p a dflt].
Proof.
  intros Hp. unfold take. simpl.
  rewrite nth_lookup.
  destruct (a !! p) eqn:E; [reflexivity|].
  apply lookup_ge_None in E. lia.
Qed.

Lemma take_length {A B : Type} (a : list A) (b : list B) (ps : list nat) :
  length a = length b -> length (take a ps) = length (take b ps).
Proof.
  intros Hlen. unfold take.
  induction ps as [|p ps IH]; [reflexivity|]. simpl.
  destruct (a !! p) eqn:Ea, (b !! p) eqn:Eb; simpl.
  - f_equal. exact IH.
  - apply lookup_lt_Some in Ea. apply lookup_ge_None in Eb. lia.
  - apply lookup_ge_None in Ea. apply lookup_lt_Some in Eb. lia.
  - exact IH.
Qed.

Lemma positions_int n i ps :
  positions n (KInt i) = Ok ps -> exists p, ps = [p] /\ (p < n)%nat.
Proof.
  unfold positions.
  destruct (normalize_index n i) as [p|] eqn:E; [|discriminate].
  intros [= <-]. exists p. split; [reflexivity|].
  exact (normalize_index_lt _ _ _ E).
Qed.

Lemma normalized_sorted t : StronglySorted Qlt (normalized decimals t).
Proof. apply sort_timestamps_sorted. Qed.

(** A constructor called without a time support derives the bounding one. *)
Lemma init_body_bounding cls t d :
  exists r,
    init_body decimals cls t d "s" None = Ok r
    /\ nap_class r = cls
    /\ index r = normalized decimals t
    /\ time_support r = bounding_support (index r).
Proof.
  rewrite init_body_seconds.
  destruct (normalized decimals t) as [|t0 t'];
    eexists; repeat split; reflexivity.
Qed.

Lemma Tsd_getitem_unfold (x : series) (k : key) (ps : list nat) :
  positions (length (index x)) k = Ok ps ->
  shape0 (values x) = length (index x) ->
  exists d,
    Tsd_getitem decimals x k
    = or_IndexError
        (init_body decimals "Tsd" (take (index x) ps) d "s" None).
Proof.
  intros Hpos Hshape.
  unfold Tsd_getitem, np_getitem, Tsd_init, Tsd_init_as. rewrite Hshape.
  change (shape0 (Array1 (index x))) with (length (index x)).
  rewrite Hpos.
  remember (init_body decimals) as body eqn:Hbody.
  destruct k as [i|a b c|ix|mask].
  - apply positions_int in Hpos as (p & -> & Hp).
    rewrite (take_one _ _ 0 Hp).
    destruct (values x); simpl; eexists; reflexivity.
  - destruct (values x); simpl; eexists; reflexivity.
  - destruct (values x); simpl; eexists; reflexivity.
  - destruct (values x); simpl; eexists; reflexivity.
Qed.

Lemma Tsd_getitem_spec (x : series) (k : key) (ps : list nat) :
  positions (length (index x)) k = Ok ps ->
  shape0 (values x) = length (index x) ->
  exists r,
    Tsd_getitem decimals x k = Ok r
    /\ nap_class r = "Tsd"%string
    /\ index r = normalized decimals (take (index x) ps)
    /\ time_support r = bounding_support (index r).
Proof.
  intros Hpos Hshape.
  destruct (Tsd_getitem_unfold x k ps Hpos Hshape) as [d ->].
  destruct (init_body_bounding "Tsd" (take (index x) ps) d)
    as (r & -> & Hrest).
  exists r. split; [reflexivity|exact Hrest].
Qed.

Lemma TsdFrame_getitem_unfold (x : series) (k : key) (ps : list nat) :
  positions (length (index x)) k = Ok ps ->
  shape0 (values x) = length (index x) ->
  ndim (values x) = 2%nat ->
  exists d,
    TsdFrame_getitem decimals x k
    = or_IndexError
        (let! s :=
           init_body decimals "TsdFrame" (take (index x) ps) d "s" None in
         Ok (ItemSeries s)).
Proof.
  intros Hpos Hshape Hdim.
  destruct (values x) as [data|rows] eqn:Hv; [discriminate Hdim|].
  simpl in Hshape.
  unfold TsdFrame_getitem, np_getitem, TsdFrame_init. rewrite Hv.
  change (shape0 (Array2 rows)) with (length rows). rewrite Hshape.
  change (shape0 (Array1 (index x))) with (length (index x)).
  rewrite Hpos.
  remember (init_body decimals) as body eqn:Hbody.
  assert (Hlen : (length (take rows ps) =? length (take (index x) ps))%nat
                 = true).
  { apply Nat.eqb_eq, take_length, Hshape. }
  destruct k as [i|a b c|ix|mask].
  - apply positions_int in Hpos as (p & -> & Hp).
    rewrite (take_one _ _ 0 Hp). simpl. eexists. reflexivity.
  - simpl. rewrite Hlen. eexists. reflexivity.
  - simpl. rewrite Hlen. eexists. reflexivity.
  - simpl. rewrite Hlen. eexists. reflexivity.
Qed.

Lemma TsdFrame_getitem_spec (x : series) (k : key) (ps : list nat) :
  positions (length (index x)) k = Ok ps ->
  shape0 (values x) = length (index x) ->
  ndim (values x) = 2%nat ->
  exists r,
    TsdFrame_getitem decimals x k = Ok (ItemSeries r)
    /\ nap_class r = "TsdFrame"%string
    /\ index r = normalized decimals (take (index x) ps)
    /\ time_support r = bounding_support (index r).
Proof.
  intros Hpos Hshape Hdim.
  destruct (TsdFrame_getitem_unfold x k ps Hpos Hshape Hdim) as [d ->].
  destruct (init_body_bounding "TsdFrame" (take (index x) ps) d)
    as (r & -> & Hrest).
  exists r. split; [reflexivity|exact Hrest].
Qed.

(** C8, amended. For a [Tsd] or [Ts] whose data buffer has exactly one
    entry per timestamp, and for every integer, slice, array or mask index
    that is valid for its time index, [[]] returns a [Tsd]; for a [TsdFrame]
    whose data buffer is two-dimensional with exactly one row per timestamp,
    it returns a [TsdFrame]. The index of the result holds the selected
    timestamps in increasing order, and its time support is derived from
    that index and not taken from the source: the single interval from the
    first (smallest) to the last (largest) selected timestamp, and no
    interval when nothing is selected. *)
Theorem getitem_class_and_support (x : series) (k : key) (ps : list nat) :
  positions (length (index x)) k = Ok ps ->
  shape0 (values x) = length (index x) ->
  (exists r,
      Tsd_getitem decimals x k = Ok r
      /\ nap_class r = "Tsd"%string
      /\ index r = normalized decimals (take (index x) ps)
      /\ StronglySorted Qlt (index r)
      /\ time_support r = bounding_support (index r))
  /\ (ndim (values x) = 2%nat ->
      exists r,
        TsdFrame_getitem decimals x k = Ok (ItemSeries r)
        /\ nap_class r = "TsdFrame"%string
        /\ index r = normalized decimals (take (index x) ps)
        /\ StronglySorted Qlt (index r)
        /\ time_support r = bounding_support (index r)).
Proof.
  intros Hpos Hshape. split.
  - destruct (Tsd_getitem_spec x k ps Hpos Hshape) as (r & Hr & Hc & Hi & Hs).
    exists r. repeat split; try assumption.
    rewrite Hi. apply normalized_sorted.
  - intros Hdim.
    destruct (TsdFrame_getitem_spec x k ps Hpos Hshape Hdim)
      as (r & Hr & Hc & Hi & Hs).
    exists r. repeat split; try assumption.
    rewrite Hi. apply normalized_sorted.
Qed.

End ContainerFacts.

(** ** Thresholding *)

Lemma Qred_integer (z : Z) : Qred (inject_Z z) = inject_Z z.
Proof.
  pose proof (Qred_correct (inject_Z z)) as Heq.
  pose proof (gcd_Qred (inject_Z z)) as Hgcd.
  destruct (Qred (inject_Z z)) as [a b].
  unfold Qeq, inject_Z in *. simpl in *.
  assert (Ha : a = (z * Z.pos b)%Z) by lia.
  rewrite Ha, Z.gcd_comm, Z.mul_comm, Z.gcd_mul_diag_l in Hgcd by lia.
  injection Hgcd as ->. f_equal. lia.
Qed.

Lemma round_half_even_integer (x : Q) (z : Z) :
  x == inject_Z z -> round_half_even x = z.
Proof.
  intros Hx. unfold round_half_even.
  assert (Hf : Qfloor x = z) by (rewrite Hx; apply Qfloor_Z).
  rewrite Hf.
  assert (Hc : Qcompare (x - inject_Z z) (1 # 2) = Lt).
  { apply Qlt_alt. rewrite Hx. unfold Qminus. rewrite Qplus_opp_r.
    reflexivity. }
  rewrite Hc. reflexivity.
Qed.

(** Rounding leaves a whole number of seconds as it is, whatever the number
    of decimals. *)
Lemma np_around_integer (z : Z) (decimals : nat) :
  np_around (inject_Z z * 1) decimals = inject_Z z.
Proof.
  unfold np_around.
  set (scale := (10 ^ Z.of_nat decimals)%Z).
  assert (Hpos : (0 < scale)%Z) by (apply Z.pow_pos_nonneg; lia).
  rewrite (round_half_even_integer _ (z * scale)%Z).
  2:{ rewrite inject_Z_mult. ring. }
  rewrite <- (Qred_integer z). apply Qred_complete.
  rewrite inject_Z_mult. field.
  intros H. apply (inject_Z_injective scale 0) in H.
  rewrite H in Hpos. discriminate Hpos.
Qed.

Lemma normalized_integers (decimals : nat) (zs : list Z) :
  normalized decimals (map inject_Z zs) = sort_timestamps (map inject_Z zs).
Proof.
  unfold normalized. f_equal. rewrite List.map_map.
  apply List.map_ext. intros z. apply np_around_integer.
Qed.

Lemma threshold_methods_spec (method : string) :
  existsb (String.eqb method) threshold_methods = true
  <-> In method threshold_methods.
Proof.
  rewrite existsb_exists. split.
  - intros (m & Hin & Heq). apply String.eqb_eq in Heq. subst. exact Hin.
  - intros Hin. exists method. split; [exact Hin|apply String.eqb_refl].
Qed.

Lemma threshold_test_defined (method : string) (thr x : Q) :
  In method threshold_methods -> is_Some (threshold_test method thr x).
Proof.
  intros Hin. simpl in Hin.
  destruct Hin as [<-|[<-|[<-|[<-|[]]]]]; eexists; reflexivity.
Qed.

Lemma midpoint_between (a b : Q) : a <= b -> a <= midpoint a b <= b.
Proof.
  intros Hab. unfold midpoint.
  assert (H : (b - a) / 2 == (b - a) * (1 # 2)) by (field; discriminate).
  rewrite H. split; lra.
Qed.

(** On a sorted series every run ends where it starts or later. *)
Lemma runs_from_ordered (ep : IntervalSet) (samples : list (Q * bool)) :
  forall (prev : Q) (run : option Q),
    (forall s, run = Some s -> s <= prev) ->
    StronglySorted Qle (prev :: map fst samples) ->
    Forall (fun row => fst row <= snd row) (runs_from ep prev run samples).
Proof.
  induction samples as [|[t pass] rest IH]; intros prev run Hrun Hsorted.
  - simpl. destruct run as [s|]; repeat constructor. simpl. auto.
  - apply StronglySorted_inv in Hsorted as [Hrest Hprev].
    simpl in Hrest, Hprev.
    assert (Hpt : prev <= t) by (inversion Hprev; assumption).
    pose proof (midpoint_between prev t Hpt) as [Hm1 Hm2].
    simpl. destruct (same_epoch ep prev t).
    + destruct run as [s|], pass.
      * apply IH; [|exact Hrest].
        intros s' [= <-]. eapply Qle_trans; [apply Hrun; reflexivity|exact Hpt].
      * constructor.
        -- simpl. eapply Qle_trans; [apply Hrun; reflexivity|exact Hm1].
        -- apply IH; [discriminate|exact Hrest].
      * apply IH; [|exact Hrest]. intros s' [= <-]. exact Hm2.
      * apply IH; [discriminate|exact Hrest].
    + assert (Hnext : forall s, (if pass then Some t else None) = Some s ->
                                s <= t).
      { intros s. destruct pass; [|discriminate].
        intros [= <-]. apply Qle_refl. }
      destruct run as [s|].
      * constructor; [simpl; apply Hrun; reflexivity|].
        apply IH; [exact Hnext|exact Hrest].
      * apply IH; [exact Hnext|exact Hrest].
Qed.

Lemma threshold_runs_ordered (ep : IntervalSet) (samples : list (Q * bool)) :
  StronglySorted Qle (map fst samples) ->
  Forall (fun row => fst row <= snd row) (threshold_runs ep samples).
Proof.
  intros Hsorted. destruct samples as [|[t pass] rest]; [constructor|].
  simpl. apply runs_from_ordered; [|exact Hsorted].
  intros s. destruct pass; [|discriminate]. intros [= <-]. apply Qle_refl.
Qed.

Lemma Forall_fst_combine {A : Type} (P : Q -> Prop) (t : list Q) (d : list A) :
  Forall P t -> Forall P (map fst (combine t d)).
Proof.
  intros Ht. revert d.
  induction Ht as [|x t Hx Ht IH]; intros d; [constructor|].
  destruct d as [|y d]; [constructor|]. simpl.
  constructor; [exact Hx|apply IH].
Qed.

Lemma sorted_fst_combine {A : Type} (t : list Q) (d : list A) :
  StronglySorted Qle t -> StronglySorted Qle (map fst (combine t d)).
Proof.
  intros Hs. revert d.
  induction Hs as [|x t Hs IH Hx]; intros d; [constructor|].
  destruct d as [|y d]; [constructor|]. simpl.
  constructor; [apply IH|apply Forall_fst_combine, Hx].
Qed.

(** Rows that are ordered make a valid interval set. *)
Lemma IntervalSet_init_ordered (rows : list (Q * Q)) :
  Forall (fun row => fst row <= snd row) rows ->
  exists ep, IntervalSet_init (map fst rows) (map snd rows) = Ok ep.
Proof.
  intros Hrows. unfold IntervalSet_init.
  rewrite !length_map, Nat.eqb_refl. cbv [negb].
  change (combine (map fst rows) (map snd rows))
    with (combine (starts_of rows) (ends_of rows)).
  rewrite combine_starts_ends.
  assert (E : existsb (fun row => Qlt_bool (snd row) (fst row)) rows = false).
  { apply not_true_is_false. intros H.
    apply existsb_exists in H as (row & Hin & Hlt).
    apply Qlt_bool_iff in Hlt.
    rewrite List.Forall_forall in Hrows.
    exact (Qlt_not_le _ _ Hlt (Hrows row Hin)). }
  rewrite E.
  destruct (fold_right insert_by_start [] rows); eexists; reflexivity.
Qed.

(** With a method it knows, the kernel raises at most [RuntimeError] or
    [TypeError], and the runs it returns on a sorted series are ordered. *)
Lemma jitthreshold_cases t d starts ends thr method :
  In method threshold_methods ->
  StronglySorted Qle t ->
  jitthreshold t d starts ends thr method = Raise RuntimeError
  \/ jitthreshold t d starts ends thr method = Raise TypeError
  \/ exists kept_t kept_d runs,
       jitthreshold t d starts ends thr method
       = Ok (kept_t, kept_d, map fst runs, map snd runs)
       /\ Forall (fun row => fst row <= snd row) runs.
Proof.
  intros Hm Hs. unfold jitthreshold.
  destruct d as [data|rows]; [|right; left; reflexivity].
  destruct (threshold_test_defined method thr 0 Hm) as [b ->].
  set (pass := fun x => default false (threshold_test method thr x)).
  set (samples := map _ (combine t data)).
  pose proof (threshold_runs_ordered (combine starts ends) samples) as Hord.
  destruct (threshold_runs (combine starts ends) samples) as [|row runs].
  - left. reflexivity.
  - right. right. do 3 eexists. split; [reflexivity|].
    apply Hord. unfold samples. rewrite List.map_map. simpl.
    apply sorted_fst_combine, Hs.
Qed.

Section ThresholdFacts.
Variable decimals : nat.

(** C5. [Tsd.threshold(thr, method)] raises [ValueError] exactly when
    [method] is none of "above", "below", "aboveequal", "belowequal" (for a
    [Tsd] whose index is sorted, as the constructor leaves it). When it
    does, the kernel has not been called: the answer is the same whatever
    the kernel is, no container is built, and the input, an immutable
    value, is as it was. *)
Theorem threshold_ValueError_iff (tsd : series) (thr : Q) (method : string) :
  StronglySorted Qle (index tsd) ->
  (Tsd_threshold decimals tsd thr method = Raise ValueError
   <-> ~ In method threshold_methods)
  /\ (~ In method threshold_methods ->
      forall kernel,
        threshold_with decimals kernel tsd thr method = Raise ValueError).
Proof.
  intros Hsorted.
  assert (Hraise : ~ In method threshold_methods ->
                   forall kernel,
                     threshold_with decimals kernel tsd thr method
                     = Raise ValueError).
  { intros Hnot kernel. unfold threshold_with.
    destruct (existsb (String.eqb method) threshold_methods) eqn:E;
      [|reflexivity].
    apply threshold_methods_spec in E. contradiction. }
  split; [|exact Hraise].
  split; [|intros Hnot; apply Hraise, Hnot].
  intros Hval Hin.
  unfold Tsd_threshold, threshold_with in Hval.
  pose proof Hin as Hex. apply threshold_methods_spec in Hex.
  rewrite Hex in Hval. cbv [negb] in Hval.
  destruct (jitthreshold_cases (index tsd) (values tsd)
              (starts_of (time_support tsd)) (ends_of (time_support tsd))
              thr method Hin Hsorted)
    as [H | [H | (kt & kd & runs & H & Hord)]];
    rewrite H in Hval; try discriminate Hval.
  unfold bind in Hval.
  destruct (IntervalSet_init_ordered runs Hord) as [ep Hep].
  rewrite Hep in Hval.
  unfold Tsd_init, Tsd_init_as in Hval. simpl in Hval.
  destruct (init_body_seconds_returns decimals "Tsd" kt (Array1 kd) (Some ep))
    as (r & Hr & _).
  rewrite Hr in Hval. discriminate Hval.
Qed.

(** On whole seconds the rounding of the constructor does nothing, so the
    number of decimals plays no part. *)
Lemma whole_times (t : list Q) :
  forallb is_whole t = true -> t = map inject_Z (map Qnum t).
Proof.
  induction t as [|[n p] t IH]; [reflexivity|]. simpl.
  intros H. apply andb_true_iff in H as [Hp Ht].
  unfold is_whole in Hp. apply Pos.eqb_eq in Hp. simpl in Hp. subst p.
  rewrite <- IH by exact Ht. reflexivity.
Qed.

Lemma init_body_whole cls t d ts :
  forallb is_whole t = true ->
  init_body decimals cls t d "s" ts = init_body 0 cls t d "s" ts.
Proof.
  intros Ht. rewrite (whole_times t Ht).
  rewrite !init_body_seconds, !normalized_integers. reflexivity.
Qed.

Lemma jitthreshold_whole t d starts ends thr method kt kd ns ne :
  jitthreshold t d starts ends thr method = Ok (kt, kd, ns, ne) ->
  forallb is_whole t = true ->
  forallb is_whole kt = true.
Proof.
  unfold jitthreshold. destruct d as [data|rows]; [|discriminate].
  destruct (threshold_test method thr 0); [|discriminate].
  destruct (threshold_runs _ _); [discriminate|].
  intros [= <- _ _ _] Ht.
  rewrite forallb_forall in *. intros x Hx.
  apply in_map_iff in Hx as ([x' y] & <- & Hin).
  apply list_elem_of_In, list_elem_of_filter in Hin as [_ Hin].
  apply list_elem_of_In, in_combine_l in Hin. apply Ht, Hin.
Qed.

Lemma threshold_whole (tsd : series) (thr : Q) (method : string) :
  forallb is_whole (index tsd) = true ->
  Tsd_threshold decimals tsd thr method = Tsd_threshold 0 tsd thr method.
Proof.
  intros Ht. unfold Tsd_threshold, threshold_with.
  destruct (negb _); [reflexivity|].
  destruct (jitthreshold _ _ _ _ _ _) as [[[[kt kd] ns] ne]|e] eqn:Hk;
    [|reflexivity].
  unfold bind. destruct (IntervalSet_init ns ne) as [ep|e]; [|reflexivity].
  unfold Tsd_init, Tsd_init_as. simpl.
  apply init_body_whole. exact (jitthreshold_whole _ _ _ _ _ _ _ _ _ _ Hk Ht).
Qed.

(** C6. The [Tsd] with time index 0..99 and data 0..99, thresholded at 50
    with the method "above", is a container whose time support is the single
    interval from 50.5 (101/2) to 99. *)
Theorem threshold_above_50 :
  exists tsd r,
    Tsd_init decimals (Arr (Array1 (arange 100)))
      (Some (Arr (Array1 (arange 100)))) "s" None = Ok tsd
    /\ Tsd_threshold decimals tsd 50 "above" = Ok r
    /\ time_support r = [(101 # 2, 99)]
    /\ length (index r) = 49%nat.
Proof.
  assert (Hinit : Tsd_init decimals (Arr (Array1 (arange 100)))
                    (Some (Arr (Array1 (arange 100)))) "s" None
                  = Tsd_init 0 (Arr (Array1 (arange 100)))
                      (Some (Arr (Array1 (arange 100)))) "s" None).
  { unfold Tsd_init, Tsd_init_as. simpl as_array. simpl flatten.
    apply init_body_whole. vm_compute. reflexivity. }
  rewrite Hinit.
  eexists. eexists. split; [vm_compute; reflexivity|].
  rewrite threshold_whole by (vm_compute; reflexivity).
  split; [vm_compute; reflexivity|].
  split; reflexivity.
Qed.

End ThresholdFacts.

(** A series at 0, 1, 2 seconds and the unknown method "up". *)
Lemma threshold_ValueError_iff_witness :
  let tsd := mk_series "Tsd" [0; 1; 2] (Array1 [5; 6; 7]) [(0, 2)]
               (Fin (3 # 2)) in
  (Tsd_threshold 9 tsd 6 "up" = Raise ValueError
   <-> ~ In "up"%string threshold_methods)
  /\ (~ In "up"%string threshold_methods ->
      forall kernel, threshold_with 9 kernel tsd 6 "up" = Raise ValueError).
Proof.
  intros tsd. apply (threshold_ValueError_iff 9 tsd 6 "up").
  repeat constructor; unfold Qle; simpl; lia.
Defined.

(** The [Tsd] of the examples: five samples at 0, 1, 2, 3, 4 seconds. *)
Lemma rate_of_fresh_container_witness :
  exists r,
    Tsd_init 9 (Arr (Array1 [0; 1; 2; 3; 4]))
      (Some (Arr (Array1 [10; 11; 12; 13; 14]))) "s" None = Ok r
    /\ rate r = rate_formula r.
Proof.
  eexists. split; [vm_compute; reflexivity|].
  refine (rate_of_fresh_container 9 [0; 1; 2; 3; 4] _ _).
  apply (fresh_Tsd 9 (Arr (Array1 [0; 1; 2; 3; 4]))
           (Some (Arr (Array1 [10; 11; 12; 13; 14]))) "s" None).
  vm_compute. reflexivity.
Defined.

(** C1, at the failing input. The [Tsd] with samples at 0, 1, 2 seconds
    is restricted to the interval set [[10, 30]], in which it has no sample:
    [restrict] returns a container without sample whose time support is the
    empty interval set, where the claim (and the docstring of
    [Tsd.restrict]) has the interval set that was supplied. *)
Lemma restrict_without_sample_drops_support :
  exists x r,
    Tsd_init 9 (Arr (Array1 [0; 1; 2])) (Some (Arr (Array1 [5; 6; 7])))
      "s" None = Ok x
    /\ Tsd_restrict 9 x [(10, 30)] = Ok r
    /\ index r = []
    /\ time_support r = IntervalSet_empty
    /\ time_support r <> [(10, 30)].
Proof.
  do 2 eexists. split; [vm_compute; reflexivity|].
  split; [vm_compute; reflexivity|].
  repeat split. discriminate.
Qed.

(** The sibling path: the constructor given the same samples and the same
    time support keeps the support, although no sample is left. *)
Lemma constructor_without_sample_keeps_support :
  exists r,
    Tsd_init 9 (Arr (Array1 [0; 1; 2])) (Some (Arr (Array1 [5; 6; 7])))
      "s" (Some [(10, 30)]) = Ok r
    /\ index r = []
    /\ time_support r = [(10, 30)]
    /\ rate r = Fin (0 # 20).
Proof.
  eexists. split; [vm_compute; reflexivity|]. repeat split.
Qed.

(** C2 as stated fails: the container made from an empty time array has
    rate 0.0, while no sample over a support of duration 0 is 0/0, [nan]. *)
Lemma rate_counterexample :
  exists r,
    Tsd_init 9 (Arr (Array1 [])) None "s" None = Ok r
    /\ rate r = Fin 0
    /\ rate_formula r = NaN
    /\ rate r <> rate_formula r.
Proof.
  eexists. split; [vm_compute; reflexivity|].
  repeat split; try reflexivity. discriminate.
Qed.

(** The slice [[1:-1]] of the [Tsd] at 0, 1, 2, 3, 4 seconds. *)
Lemma getitem_class_and_support_witness :
  let x :=
    mk_series "Tsd" [0; 1; 2; 3; 4] (Array1 [10; 11; 12; 13; 14])
      [(0, 4)] (Fin (5 # 4)) in
  exists r,
    Tsd_getitem 9 x (KSlice (Some 1%Z) (Some (-1)%Z) None) = Ok r
    /\ nap_class r = "Tsd"%string
    /\ index r = normalized 9 (take (index x) [1; 2; 3]%nat)
    /\ StronglySorted Qlt (index r)
    /\ time_support r = bounding_support (index r).
Proof.
  intros x.
  apply (getitem_class_and_support 9 x
           (KSlice (Some 1%Z) (Some (-1)%Z) None) [1; 2; 3]%nat).
  - vm_compute. reflexivity.
  - reflexivity.
Defined.

(** C8 as stated fails in five ways. Element access on a [Ts] answers
    with a [Tsd], not with the class of the input; the empty slice [[1:1]] of
    a [Tsd] has no bounding interval: its time support has no row. The
    constructors do not compare the lengths of the times and of the data: on
    a [Tsd] of three times and two values the index 2, valid for the time
    index, raises [IndexError], and on a [TsdFrame] of three times and two
    rows the slice [[:]] returns [None]. A [TsdFrame] without sample holds
    a one-dimensional empty buffer, and its slice [[:]] is a [Tsd]. *)
Lemma getitem_counterexample :
  (exists x r,
      Ts_init 9 (Arr (Array1 [0; 1; 2])) "s" None = Ok x
      /\ Tsd_getitem 9 x (KInt 0) = Ok r
      /\ nap_class x = "Ts"%string
      /\ nap_class r = "Tsd"%string
      /\ nap_class r <> nap_class x)
  /\ (exists x r,
        Tsd_init 9 (Arr (Array1 [0; 1; 2])) (Some (Arr (Array1 [5; 6; 7])))
          "s" None = Ok x
        /\ Tsd_getitem 9 x (KSlice (Some 1%Z) (Some 1%Z) None) = Ok r
        /\ time_support r = []
        /\ forall s e, time_support r <> [(s, e)])
  /\ (exists x,
        Tsd_init 9 (Arr (Array1 [0; 1; 2])) (Some (Arr (Array1 [5; 6])))
          "s" None = Ok x
        /\ positions (length (index x)) (KInt 2) = Ok [2%nat]
        /\ Tsd_getitem 9 x (KInt 2) = Raise IndexError)
  /\ (exists x,
        TsdFrame_init 9 [0; 1; 2] (Some (Array2 [[5]; [6]])) "s" None = Ok x
        /\ positions (length (index x)) (KSlice None None None)
           = Ok [0; 1; 2]%nat
        /\ ndim (values x) = 2%nat
        /\ TsdFrame_getitem 9 x (KSlice None None None) = Ok ItemNone)
  /\ (exists x r,
        TsdFrame_init 9 [] (Some (Array2 [])) "s" None = Ok x
        /\ nap_class x = "TsdFrame"%string
        /\ shape0 (values x) = length (index x)
        /\ ndim (values x) = 1%nat
        /\ TsdFrame_getitem 9 x (KSlice None None None) = Ok (ItemSeries r)
        /\ nap_class r = "Tsd"%string).
Proof.
  split; [|split; [|split; [|split]]].
  - do 2 eexists. split; [vm_compute; reflexivity|].
    split; [vm_compute; reflexivity|].
    repeat split. discriminate.
  - do 2 eexists. split; [vm_compute; reflexivity|].
    split; [vm_compute; reflexivity|].
    split; [reflexivity|]. intros s e. discriminate.
  - eexists. split; [vm_compute; reflexivity|].
    split; vm_compute; reflexivity.
  - eexists. split; [vm_compute; reflexivity|].
    split; [vm_compute; reflexivity|].
    split; vm_compute; reflexivity.
  - do 2 eexists. split; [vm_compute; reflexivity|].
    split; [reflexivity|]. split; [reflexivity|]. split; [reflexivity|].
    split; [vm_compute; reflexivity|reflexivity].
Qed.

End TimeSeriesFacts.

(** * Properties of [compute_autocorrelogram] *)

Module AutocorrelogramFacts.
Import Correlograms TimeSeries Autocorrelogram CorrelogramFacts.

Lemma divide_columns_aligned frame rates :
  aligned frame -> aligned (divide_columns frame rates).
Proof.
  intros Hal n col. unfold divide_columns. simpl.
  rewrite map_lookup_imap.
  destruct (df_columns frame !! n) as [col0|] eqn:E; [|discriminate].
  simpl. intros [= <-]. rewrite length_map. exact (Hal n col0 E).
Qed.

Lemma divide_columns_dom frame rates :
  dom (df_columns (divide_columns frame rates)) = dom (df_columns frame).
Proof.
  apply set_eq. intros n. rewrite !elem_of_dom.
  unfold divide_columns. simpl. rewrite map_lookup_imap.
  destruct (df_columns frame !! n); simpl; split; intros [? ?]; eauto;
    discriminate.
Qed.

(** After [frame.loc[0] = 0.0] every row labelled 0 holds 0.0. *)
Lemma set_zero_rows_zero frame n col (i : nat) label :
  aligned frame ->
  df_columns (set_zero_rows frame) !! n = Some col ->
  df_index frame !! i = Some label ->
  label == 0 ->
  col !! i = Some (Fin 0).
Proof.
  intros Hal Hcol Hlabel Hzero. unfold set_zero_rows in Hcol. simpl in Hcol.
  rewrite lookup_fmap in Hcol.
  destruct (df_columns frame !! n) as [col0|] eqn:E; [|discriminate].
  simpl in Hcol. injection Hcol as <-.
  rewrite lookup_zip_with, Hlabel. simpl.
  destruct (col0 !! i) as [v|] eqn:Ev.
  - simpl. apply Qeq_bool_iff in Hzero. rewrite Hzero. reflexivity.
  - apply lookup_ge_None in Ev. apply lookup_lt_Some in Hlabel.
    rewrite (Hal n col0 E) in Ev. lia.
Qed.

Lemma set_zero_rows_aligned frame :
  aligned frame -> aligned (set_zero_rows frame).
Proof.
  intros Hal n col. unfold set_zero_rows. simpl. rewrite lookup_fmap.
  destruct (df_columns frame !! n) as [col0|] eqn:E; [|discriminate].
  simpl. intros [= <-]. rewrite length_zip_with, (Hal n col0 E). lia.
Qed.

Lemma has_zero_label_true frame (i : nat) label :
  df_index frame !! i = Some label -> label == 0 ->
  has_zero_label frame = true.
Proof.
  intros Hlabel Hzero. unfold has_zero_label. apply existsb_exists.
  exists label. split.
  - apply list_elem_of_In, list_elem_of_lookup. eauto.
  - apply Qeq_bool_iff, Hzero.
Qed.

Lemma loop_built binsize windowsize (m : gmap Z series) d :
  map_fold (autocorr_step binsize windowsize) (Ok ∅) m = Ok d ->
  let nbins := number_of_bins binsize windowsize in
  built (map (fun x => np_around x 6)
           (bin_centers (Z.to_nat nbins) binsize (half_window nbins binsize)))
    m d.
Proof.
  intros H nbins. revert d H.
  set (idx := map _ _).
  apply (map_fold_weak_ind
           (fun acc m => forall d, acc = Ok d -> built idx m d)).
  - intros d [= <-]. split; [rewrite !dom_empty_L; reflexivity|].
    intros n s Hn. rewrite lookup_empty in Hn. discriminate.
  - intros n x m' acc Hfresh IH d Hstep.
    unfold autocorr_step in Hstep.
    destruct acc as [d0|e]; [|discriminate]. simpl in Hstep.
    destruct (_cross_correlogram _ _ _ _) as [[auc times]|e] eqn:Hcc;
      [|discriminate].
    simpl in Hstep. injection Hstep as <-.
    destruct (IH d0 eq_refl) as [Hdom Hent].
    apply cross_correlogram_inv in Hcc as [-> Hlen].
    split; [rewrite !dom_insert_L, Hdom; reflexivity|].
    intros k s. rewrite lookup_insert. case_decide.
    + intros [= <-]. simpl. split; [reflexivity|].
      unfold idx. rewrite length_map, bin_centers_length. exact Hlen.
    + apply Hent.
Qed.

Lemma from_dict_aligned idx m d :
  built idx m d ->
  aligned (from_dict d) /\ dom (df_columns (from_dict d)) = dom m.
Proof.
  intros [Hdom Hent]. unfold from_dict. split.
  - intros n col. simpl. rewrite lookup_fmap.
    destruct (d !! n) as [s|] eqn:E; [|discriminate].
    simpl. intros [= <-].
    destruct (map_to_list d) as [|[k s'] rest] eqn:El.
    { apply map_to_list_empty_iff in El. subst d.
      rewrite lookup_empty in E. discriminate. }
    assert (Hs' : d !! k = Some s').
    { apply elem_of_map_to_list. rewrite El. left. }
    destruct (Hent n s E) as [_ ->]. destruct (Hent k s' Hs') as [-> _].
    reflexivity.
  - simpl. rewrite dom_fmap_L. exact Hdom.
Qed.

Section BodyFacts.
Variable decimals : nat.

Lemma restricted_group_dom group ep :
  dom (members (TsGroup_restrict decimals group ep)) = dom (members group).
Proof. unfold TsGroup_restrict. simpl. apply dom_fmap_L. Qed.

(** C7. For every group, the frame returned by [compute_autocorrelogram]
    has a column for every key of the group, and in every column the value
    is exactly 0.0 on each row whose bin-center label is 0. The rows are set
    after the division by the rates, so this holds with and without
    normalization, whatever the correlogram had computed at lag 0. *)
Theorem autocorrelogram_zero_lag (group : TsGroup) (binsize windowsize : Q)
  (ep : option IntervalSet) (norm : bool) (time_units : string)
  (df : DataFrame) :
  compute_autocorrelogram decimals group binsize windowsize ep norm time_units
  = Ok df ->
  dom (df_columns df) = dom (members group)
  /\ forall n col,
       df_columns df !! n = Some col ->
       length col = length (df_index df)
       /\ forall (i : nat) label,
            df_index df !! i = Some label -> label == 0 ->
            col !! i = Some (Fin 0).
Proof.
  unfold compute_autocorrelogram.
  set (newgroup := match ep with
                   | Some ep => TsGroup_restrict decimals group ep
                   | None => group
                   end).
  assert (Hkeys : dom (members newgroup) = dom (members group)).
  { unfold newgroup. destruct ep; [apply restricted_group_dom|reflexivity]. }
  destruct (format_scalar decimals binsize time_units) as [b|e];
    [|discriminate].
  destruct (format_scalar decimals windowsize time_units) as [w|e];
    [|discriminate].
  unfold bind at 1 2.
  destruct (map_fold _ _ _) as [d|e] eqn:Hloop; [|discriminate].
  unfold bind.
  apply loop_built in Hloop. cbv zeta in Hloop.
  apply from_dict_aligned in Hloop as [Hal Hdom].
  set (normed := if norm
                 then divide_columns (from_dict d) (get_info_rate newgroup)
                 else from_dict d).
  assert (Hal' : aligned normed).
  { unfold normed. destruct norm; [apply divide_columns_aligned|]; exact Hal. }
  assert (Hdom' : dom (df_columns normed) = dom (members group)).
  { unfold normed. destruct norm; [rewrite divide_columns_dom|];
      rewrite Hdom; exact Hkeys. }
  intros [= <-].
  destruct (has_zero_label normed) eqn:Hzero.
  - split.
    + unfold set_zero_rows. simpl. rewrite dom_fmap_L. exact Hdom'.
    + intros n col Hcol. split.
      * exact (set_zero_rows_aligned normed Hal' n col Hcol).
      * intros i label Hlabel Hz.
        exact (set_zero_rows_zero normed n col i label Hal' Hcol Hlabel Hz).
  - split; [exact Hdom'|].
    intros n col Hcol. split; [exact (Hal' n col Hcol)|].
    intros i label Hlabel Hz.
    rewrite (has_zero_label_true normed i label Hlabel Hz) in Hzero.
    discriminate Hzero.
Qed.

(** The function returns when the unit is known, the bin size is not zero
    once expressed in seconds and the number of bins is not negative. *)
Lemma compute_autocorrelogram_returns (group : TsGroup)
  (binsize windowsize factor : Q) (ep : option IntervalSet) (norm : bool)
  (time_units : string) :
  unit_factor time_units = Some factor ->
  let b := np_around (binsize * factor) decimals in
  let w := np_around (windowsize * factor) decimals in
  ~ b == 0 ->
  (0 <= number_of_bins b w)%Z ->
  exists df,
    compute_autocorrelogram decimals group binsize windowsize ep norm
      time_units = Ok df.
Proof.
  intros Hunit b w Hb Hn.
  unfold compute_autocorrelogram, format_scalar, format_timestamps.
  rewrite Hunit. simpl. fold b. fold w.
  set (m := members _).
  assert (Hloop : exists d, map_fold (autocorr_step b w) (Ok ∅) m = Ok d).
  { apply (map_fold_weak_ind (fun acc _ => exists d, acc = Ok d)).
    - eexists. reflexivity.
    - intros n x m' acc _ [d ->]. unfold autocorr_step. simpl.
      destruct (cross_correlogram_returns (index x) (index x) b w Hb Hn)
        as (C & -> & _).
      simpl. eexists. reflexivity. }
  destruct Hloop as [d ->]. simpl. eexists. reflexivity.
Qed.

End BodyFacts.

(** One unit with spikes at 0 and 10 seconds, bins of one second over a
    window of ten: the frame has 21 rows and row 10, of label 0, holds
    0.0. *)
Lemma autocorrelogram_zero_lag_witness :
  let group :=
    mk_TsGroup
      {[ 1%Z := mk_series "Ts" [0; 10] (Array1 [0; 0]) [(0, 10)]
                  (Fin (2 # 10)) ]} in
  exists df,
    compute_autocorrelogram 9 group 1 10 None false "s" = Ok df
    /\ length (df_index df) = 21%nat
    /\ df_index df !! 10%nat = Some 0
    /\ dom (df_columns df) = dom (members group)
    /\ forall n col,
         df_columns df !! n = Some col ->
         length col = length (df_index df)
         /\ forall (i : nat) label,
              df_index df !! i = Some label -> label == 0 ->
              col !! i = Some (Fin 0).
Proof.
  intros group. eexists.
  split; [vm_compute; reflexivity|].
  split; [reflexivity|]. split; [reflexivity|].
  apply (autocorrelogram_zero_lag 9 group 1 10 None false "s").
  vm_compute. reflexivity.
Defined.

End AutocorrelogramFacts.
(** * More on [_validate_correlograms_inputs] *)

Module DecoratorFacts.
Import Validation ValidationFacts.
Import Decorator.

(** The two bindings and the two wrappers are the same functions. *)
Lemma bind_partial_agrees sig args kw :
  Decorator.bind_partial sig args kw = Validation.bind_partial sig args kw.
Proof. reflexivity. Qed.

Lemma wrapper_agrees {Σ A} (func : pyfunc Σ A) args kw σ :
  Decorator.wrapper func args kw σ = Validation.wrapper func args kw σ.
Proof. reflexivity. Qed.

Lemma check_group_raise_inv name kw group e :
  kw !! "group"%string = Some group ->
  check_group name kw = Raise e ->
  ~ group_has_right_class name group.
Proof.
  intros Hg Hraise Hright. unfold check_group in Hraise. rewrite Hg in Hraise.
  destruct Hright as [Hinst | (-> & g1 & g2 & Hshape & H1 & H2)].
  - destruct group; try discriminate Hinst. discriminate Hraise.
  - assert (Hitems : as_tuple_or_list group = Some [g1; g2])
      by (destruct Hshape as [-> | ->]; reflexivity).
    rewrite Hitems in Hraise.
    change (String.eqb "compute_crosscorrelogram" "compute_crosscorrelogram")
      with true in Hraise.
    cbn [forallb length Nat.eqb] in Hraise.
    rewrite H1, H2 in Hraise. discriminate Hraise.
Qed.

Lemma check_parameters_raise_inv table kw e :
  check_parameters table kw = Raise e ->
  exists param cls v,
    In (param, cls) table /\ kw !! param = Some v /\ isinstance v cls = false.
Proof.
  induction table as [|[param cls] table IH]; simpl; [discriminate|].
  intros Hraise.
  destruct (kw !! param) as [v|] eqn:Hv.
  - destruct (isinstance v cls) eqn:Hinst; simpl in Hraise.
    + destruct (IH Hraise) as (p & c & w & Hin & Hw & Hi).
      exists p, c, w. auto.
    + exists param, cls, v. auto.
  - destruct (IH Hraise) as (p & c & w & Hin & Hw & Hi).
    exists p, c, w. auto.
Qed.

(** X1. The type check for calls with keyword arguments, as the test suite
    makes them: when the call binds to the signature, passes [group], and
    some passed argument has the wrong class, the wrapper raises [TypeError]
    and the body has not run, whatever it is. *)
Theorem keyword_call_wrong_class_raises_TypeError {Σ A} (func : pyfunc Σ A)
  (args : list pyobj) (kw bound : kwargs) (σ : Σ) :
  bind_partial (signature func) args kw = Ok bound ->
  is_Some (bound !! "group"%string) ->
  wrong_class (__name__ func) bound ->
  wrapper func args kw σ = (Raise TypeError, σ).
Proof.
  intros Hbind Hgroup Hwrong. unfold wrapper. rewrite Hbind.
  destruct Hwrong as [(group & Hg & Hcls) | (param & cls & v & Hin & Hv & Hi)].
  - rewrite (check_group_wrong _ _ _ Hg Hcls). reflexivity.
  - destruct (check_group (__name__ func) bound) as [[]|e] eqn:Hchk.
    + rewrite (check_parameters_wrong _ _ _ _ _ Hin Hv Hi). reflexivity.
    + apply check_group_raises_only_TypeError in Hchk as ->;
        [reflexivity|exact Hgroup].
Qed.

(** [compute_eventcorrelogram(group=g, binsize="a", windowsize=10, ep=ep,
    norm=True, time_units="s")], the first case of
    [test_correlograms_type_errors]. *)
Lemma keyword_call_wrong_class_raises_TypeError_witness :
  wrapper (compute_eventcorrelogram counting_body) []
    (<["group"%string := ObjTsGroup]>
       (<["binsize"%string := ObjStr "a"]>
          (<["windowsize"%string := ObjInt 10]>
             (<["ep"%string := ObjIntervalSet]>
                (<["norm"%string := ObjBool true]>
                   {[ "time_units"%string := ObjStr "s" ]})))))
    0%nat
  = (Raise TypeError, 0%nat).
Proof.
  apply (keyword_call_wrong_class_raises_TypeError
           (compute_eventcorrelogram counting_body) _ _
           (∅ ∪ <["group"%string := ObjTsGroup]>
                  (<["binsize"%string := ObjStr "a"]>
                     (<["windowsize"%string := ObjInt 10]>
                        (<["ep"%string := ObjIntervalSet]>
                           (<["norm"%string := ObjBool true]>
                              {[ "time_units"%string := ObjStr "s" ]})))))).
  - vm_compute. reflexivity.
  - vm_compute. eexists. reflexivity.
  - right. exists "binsize"%string, ClsNumber, (ObjStr "a").
    split; [simpl; auto|]. split; [vm_compute; reflexivity|reflexivity].
Defined.

(** X2. The converse of the type check: in a call that passes [group] and
    in which every passed argument has the class the decorator asks for, the
    wrapper is the decorated function applied to the bound arguments: same
    result, same effect on the state. *)
Theorem right_classes_run_body {Σ A} (func : pyfunc Σ A)
  (args : list pyobj) (kw bound : kwargs) (σ : Σ) :
  bind_partial (signature func) args kw = Ok bound ->
  is_Some (bound !! "group"%string) ->
  ~ wrong_class (__name__ func) bound ->
  wrapper func args kw σ = body func bound σ.
Proof.
  intros Hbind [group Hg] Hright. unfold wrapper. rewrite Hbind.
  destruct (check_group (__name__ func) bound) as [[]|e] eqn:Hchk.
  - destruct (check_parameters parameters_type bound) as [[]|e] eqn:Hpar;
      [reflexivity|].
    exfalso. apply Hright. right.
    exact (check_parameters_raise_inv _ _ _ Hpar).
  - exfalso. apply Hright. left. exists group. split; [exact Hg|].
    exact (check_group_raise_inv _ _ _ _ Hg Hchk).
Qed.

(** [compute_autocorrelogram(group, 1, 10)] with a [TsGroup]: the counting
    body runs once. *)
Lemma right_classes_run_body_witness :
  wrapper (compute_autocorrelogram counting_body)
    [ObjTsGroup; ObjInt 1; ObjInt 10] ∅ 0%nat
  = (Ok tt, 1%nat).
Proof.
  apply (right_classes_run_body
           (compute_autocorrelogram counting_body) _ _
           (<["windowsize"%string := ObjInt 10]>
              (<["binsize"%string := ObjInt 1]>
                 (<["group"%string := ObjTsGroup]> ∅)) ∪ ∅)).
  - vm_compute. reflexivity.
  - vm_compute. eexists. reflexivity.
  - intros [(g & Hg & Hwrong) | (param & cls & v & Hin & Hv & Hi)].
    + vm_compute in Hg. injection Hg as <-. apply Hwrong. left. reflexivity.
    + simpl in Hin.
      repeat (destruct Hin as [[= <- <-] | Hin];
              [vm_compute in Hv; try discriminate Hv;
               injection Hv as <-; discriminate Hi|]).
      destruct Hin.
Defined.

(** X3. A call that can be bound to the signature but does not pass
    [group] raises [KeyError], not [TypeError]: the wrapper reads
    [kwargs["group"]] before any class check, whatever the other arguments
    are; the body does not run. *)
Theorem missing_group_raises_KeyError {Σ A} (func : pyfunc Σ A)
  (args : list pyobj) (kw bound : kwargs) (σ : Σ) :
  bind_partial (signature func) args kw = Ok bound ->
  bound !! "group"%string = None ->
  wrapper func args kw σ = (Raise KeyError, σ).
Proof.
  intros Hbind Hnone. unfold wrapper. rewrite Hbind.
  unfold check_group. rewrite Hnone. reflexivity.
Qed.

(** [compute_autocorrelogram(binsize="a")] *)
Lemma missing_group_raises_KeyError_witness :
  wrapper (compute_autocorrelogram counting_body) []
    {[ "binsize"%string := ObjStr "a" ]} 0%nat
  = (Raise KeyError, 0%nat).
Proof.
  apply (missing_group_raises_KeyError
           (compute_autocorrelogram counting_body) _ _
           (∅ ∪ {[ "binsize"%string := ObjStr "a" ]})).
  - vm_compute. reflexivity.
  - vm_compute. reflexivity.
Defined.

(** X4. [None] is an instance of none of the classes of [parameters_type]:
    a call that passes [None] for [binsize], [windowsize], [ep], [norm],
    [time_units], [reverse] or [event] raises [TypeError] before the body
    runs --- also for [ep], whose declared default is [None], because only
    the arguments that were passed are checked. *)
Theorem explicit_None_raises_TypeError {Σ A} (func : pyfunc Σ A)
  (args : list pyobj) (kw bound : kwargs) (σ : Σ) (param : string)
  (cls : pyclass) :
  bind_partial (signature func) args kw = Ok bound ->
  is_Some (bound !! "group"%string) ->
  In (param, cls) parameters_type ->
  bound !! param = Some ObjNone ->
  wrapper func args kw σ = (Raise TypeError, σ).
Proof.
  intros Hbind Hgroup Hin Hnone. unfold wrapper. rewrite Hbind.
  assert (Hinst : isinstance ObjNone cls = false) by (destruct cls; reflexivity).
  destruct (check_group (__name__ func) bound) as [[]|e] eqn:Hchk.
  - rewrite (check_parameters_wrong _ _ _ _ _ Hin Hnone Hinst). reflexivity.
  - apply check_group_raises_only_TypeError in Hchk as ->;
      [reflexivity|exact Hgroup].
Qed.

(** [compute_autocorrelogram(group, 1, 10, ep=None)] *)
Lemma explicit_None_raises_TypeError_witness :
  wrapper (compute_autocorrelogram counting_body)
    [ObjTsGroup; ObjInt 1; ObjInt 10] {[ "ep"%string := ObjNone ]} 0%nat
  = (Raise TypeError, 0%nat).
Proof.
  apply (explicit_None_raises_TypeError
           (compute_autocorrelogram counting_body) _ _
           (<["windowsize"%string := ObjInt 10]>
              (<["binsize"%string := ObjInt 1]>
                 (<["group"%string := ObjTsGroup]> ∅))
            ∪ {[ "ep"%string := ObjNone ]})
           0%nat "ep" ClsIntervalSet).
  - vm_compute. reflexivity.
  - vm_compute. eexists. reflexivity.
  - simpl. auto.
  - vm_compute. reflexivity.
Defined.

End DecoratorFacts.

(** * What [_cross_correlogram] counts *)

Module CorrelogramCountFacts.
Import Correlograms CorrelogramFacts CorrelogramCounts.

Lemma Qlt_bool_false_iff (x y : Q) : Qlt_bool x y = false <-> y <= x.
Proof.
  unfold Qlt_bool. rewrite negb_false_iff. apply Qle_bool_iff.
Qed.

Lemma Qlt_bool_proper (y x x' : Q) : x == x' -> Qlt_bool y x = Qlt_bool y x'.
Proof.
  intros Hx. apply eq_true_iff_eq. rewrite !Qlt_bool_iff, Hx. reflexivity.
Qed.

Lemma Qle_bool_proper (x x' y : Q) : x == x' -> Qle_bool x y = Qle_bool x' y.
Proof.
  intros Hx. apply eq_true_iff_eq. rewrite !Qle_bool_iff, Hx. reflexivity.
Qed.

Lemma count_before_proper t x x' :
  x == x' -> count_before t x = count_before t x'.
Proof.
  intros Hx. unfold count_before. f_equal. apply List.filter_ext.
  intros y. apply Qlt_bool_proper, Hx.
Qed.

Lemma count_between_proper t lo lo' hi hi' :
  lo == lo' -> hi == hi' -> count_between t lo hi = count_between t lo' hi'.
Proof.
  intros Hlo Hhi. unfold count_between. f_equal. apply List.filter_ext.
  intros y. rewrite (Qle_bool_proper lo lo' y Hlo), (Qlt_bool_proper y hi hi' Hhi).
  reflexivity.
Qed.

Lemma count_before_le_length t x : (count_before t x <= length t)%nat.
Proof. unfold count_before. apply List.filter_length_le. Qed.

Lemma count_before_mono t x x' :
  x <= x' -> (count_before t x <= count_before t x')%nat.
Proof.
  intros Hx. unfold count_before.
  induction t as [|y t IH]; [apply Nat.le_refl|]. simpl.
  destruct (Qlt_bool y x) eqn:E.
  - apply Qlt_bool_iff in E.
    assert (E' : Qlt_bool y x' = true) by (apply Qlt_bool_iff; lra).
    rewrite E'. simpl. lia.
  - destruct (Qlt_bool y x'); simpl; lia.
Qed.

(** The entries below [hi] are those below [lo] and those in [[lo, hi)]. *)
Lemma count_before_split t lo hi :
  lo <= hi ->
  count_before t hi = (count_before t lo + count_between t lo hi)%nat.
Proof.
  intros Hle. unfold count_before, count_between.
  induction t as [|y t IH]; [reflexivity|]. simpl.
  destruct (Qlt_bool y lo) eqn:E1.
  - apply Qlt_bool_iff in E1.
    assert (E2 : Qlt_bool y hi = true) by (apply Qlt_bool_iff; lra).
    assert (E3 : Qle_bool lo y = false).
    { apply not_true_is_false. intros H. apply Qle_bool_iff in H. lra. }
    rewrite E2, E3. simpl. rewrite IH. reflexivity.
  - apply Qlt_bool_false_iff in E1.
    assert (E3 : Qle_bool lo y = true) by (apply Qle_bool_iff; exact E1).
    rewrite E3. simpl. destruct (Qlt_bool y hi); simpl; rewrite IH; lia.
Qed.

(** In a sorted array the entries below [x] are the first ones. *)
Lemma sorted_count_before t x :
  StronglySorted Qle t ->
  (forall i, (i < count_before t x)%nat -> at_ t i < x)
  /\ (forall i, (count_before t x <= i < length t)%nat -> x <= at_ t i).
Proof.
  unfold count_before, at_.
  induction 1 as [|y t Hs IH Hy]; [split; intros i Hi; simpl in Hi; lia|].
  destruct IH as [IH1 IH2]. simpl.
  destruct (Qlt_bool y x) eqn:E.
  - apply Qlt_bool_iff in E. simpl. split; intros [|i] Hi; simpl.
    + exact E.
    + apply IH1. lia.
    + lia.
    + apply IH2. lia.
  - apply Qlt_bool_false_iff in E.
    assert (Hnone : List.filter (fun y => Qlt_bool y x) t = []).
    { clear IH1 IH2 Hs. induction Hy as [|z t Hz Hy IHy]; [reflexivity|].
      simpl. assert (Ez : Qlt_bool z x = false)
        by (apply Qlt_bool_false_iff; lra).
      rewrite Ez. exact IHy. }
    split; intros [|i] Hi; simpl.
    + rewrite Hnone in Hi. simpl in Hi. lia.
    + rewrite Hnone in Hi. simpl in Hi. lia.
    + exact E.
    + rewrite List.Forall_forall in Hy.
      eapply Qle_trans; [exact E|]. apply Hy. apply nth_In. simpl in Hi. lia.
Qed.

Section Sorted.
Variable t2 : list Q.
Hypothesis Hsorted : StronglySorted Qle t2.

Lemma seek_forward_rank x : forall n i2,
  (i2 <= count_before t2 x)%nat ->
  (length t2 - i2 <= n)%nat ->
  seek_forward n t2 x i2 = count_before t2 x.
Proof.
  destruct (sorted_count_before t2 x Hsorted) as [Hlow Hhigh].
  pose proof (count_before_le_length t2 x) as Hlen.
  induction n as [|n IH]; intros i2 Hi Hn; simpl; [lia|].
  destruct (i2 <? length t2)%nat eqn:Hin; simpl.
  - apply Nat.ltb_lt in Hin.
    destruct (Qlt_bool (at_ t2 i2) x) eqn:Hlt.
    + apply Qlt_bool_iff in Hlt. apply IH; [|lia].
      destruct (Nat.le_gt_cases (count_before t2 x) i2) as [Hge|Hlt2]; [|lia].
      specialize (Hhigh i2 (conj Hge Hin)). lra.
    + apply Qlt_bool_false_iff in Hlt.
      destruct (Nat.eq_dec i2 (count_before t2 x)) as [->|Hne]; [reflexivity|].
      assert (Hlt2 : (i2 < count_before t2 x)%nat) by lia.
      specialize (Hlow i2 Hlt2). lra.
  - apply Nat.ltb_ge in Hin. lia.
Qed.

Lemma seek_backward_rank x :
  seek_backward t2 x (count_before t2 x) = count_before t2 x.
Proof.
  destruct (sorted_count_before t2 x Hsorted) as [Hlow _].
  destruct (count_before t2 x) as [|p] eqn:E; [reflexivity|]. simpl.
  assert (Hp : at_ t2 p < x) by (apply Hlow; lia).
  assert (E' : Qlt_bool x (at_ t2 p) = false)
    by (apply Qlt_bool_false_iff; lra).
  rewrite E'. reflexivity.
Qed.

Lemma count_bin_rank x : forall n leftb k,
  (leftb <= count_before t2 x)%nat ->
  (length t2 - leftb <= n)%nat ->
  count_bin n t2 x leftb k
  = (count_before t2 x, (k + Z.of_nat (count_before t2 x - leftb))%Z).
Proof.
  destruct (sorted_count_before t2 x Hsorted) as [Hlow Hhigh].
  pose proof (count_before_le_length t2 x) as Hlen.
  induction n as [|n IH]; intros leftb k Hi Hn; simpl.
  { replace leftb with (count_before t2 x) by lia.
    rewrite Nat.sub_diag, Z.add_0_r. reflexivity. }
  destruct (leftb <? length t2)%nat eqn:Hin; simpl.
  - apply Nat.ltb_lt in Hin.
    destruct (Qlt_bool (at_ t2 leftb) x) eqn:Hlt.
    + apply Qlt_bool_iff in Hlt.
      assert (Hlt2 : (leftb < count_before t2 x)%nat).
      { destruct (Nat.le_gt_cases (count_before t2 x) leftb) as [Hge|H];
          [|exact H].
        specialize (Hhigh leftb (conj Hge Hin)). lra. }
      rewrite IH by lia. f_equal. lia.
    + apply Qlt_bool_false_iff in Hlt.
      assert (Heq : leftb = count_before t2 x).
      { destruct (Nat.eq_dec leftb (count_before t2 x)) as [H|Hne];
          [exact H|].
        assert (Hlt2 : (leftb < count_before t2 x)%nat) by lia.
        specialize (Hlow leftb Hlt2). lra. }
      rewrite <- Heq, Nat.sub_diag, Z.add_0_r. reflexivity.
  - apply Nat.ltb_ge in Hin.
    replace leftb with (count_before t2 x) by lia.
    rewrite Nat.sub_diag, Z.add_0_r. reflexivity.
Qed.

End Sorted.

End CorrelogramCountFacts.

(** * The loops of [_cross_correlogram] on sorted arrays *)

Module CorrelogramLoopFacts.
Import Correlograms CorrelogramFacts CorrelogramCounts CorrelogramCountFacts.

Lemma at_insert (C : list Q) (i j : nat) (v : Q) :
  (i < length C)%nat ->
  at_ (<[i := v]> C) j = if (i =? j)%nat then v else at_ C j.
Proof.
  intros Hi. unfold at_. rewrite !nth_lookup.
  destruct (i =? j)%nat eqn:E.
  - apply Nat.eqb_eq in E. subst j.
    rewrite list_lookup_insert_eq by exact Hi. reflexivity.
  - apply Nat.eqb_neq in E. rewrite list_lookup_insert_ne by exact E.
    reflexivity.
Qed.

Lemma sorted_at_mono (t : list Q) (i j : nat) :
  StronglySorted Qle t -> (i <= j)%nat -> (j < length t)%nat ->
  at_ t i <= at_ t j.
Proof.
  unfold at_. intros Hs. revert i j.
  induction Hs as [|x t Hs IH Hx]; intros i j Hij Hj; [simpl in Hj; lia|].
  destruct i as [|i], j as [|j]; simpl in *; try lia.
  - apply Qle_refl.
  - rewrite List.Forall_forall in Hx. apply Hx, nth_In. lia.
  - apply IH; lia.
Qed.

Lemma map_at_seq {A : Type} (g : Q -> A) (t : list Q) :
  map (fun i => g (at_ t i)) (seq 0 (length t)) = map g t.
Proof.
  induction t as [|x t IH]; [reflexivity|].
  simpl length. rewrite <- cons_seq, <- seq_shift. simpl.
  rewrite List.map_map. f_equal. exact IH.
Qed.

Section Loops.
Variables (t2 : list Q) (binsize : Q).
Hypothesis Hsorted : StronglySorted Qle t2.
Hypothesis Hbin : 0 <= binsize.

Lemma bin_step_sorted (rbound : Q) (C : list Q) (j : nat) :
  bin_step t2 binsize (rbound, count_before t2 rbound, C) j
  = (rbound + binsize, count_before t2 (rbound + binsize),
     <[j := at_ C j
            + inject_Z (Z.of_nat
                (count_between t2 rbound (rbound + binsize)))]> C).
Proof.
  unfold bin_step.
  assert (Hle : rbound <= rbound + binsize) by lra.
  rewrite (count_bin_rank t2 Hsorted);
    [|apply count_before_mono, Hle
     |pose proof (count_before_le_length t2 rbound); lia].
  rewrite (count_before_split t2 rbound (rbound + binsize) Hle).
  rewrite Nat.add_comm, Nat.add_sub, Z.add_0_l, Nat.add_comm. reflexivity.
Qed.

(** The loop over the bins, started on the bin [start] with [rbound] at its
    lower edge: every bin from [start] on receives the number of targets
    inside it. *)
Lemma bin_loop_spec (lbound : Q) : forall cnt start rbound C,
  rbound == lbound + inject_Z (Z.of_nat start) * binsize ->
  (start + cnt <= length C)%nat ->
  exists rbound' leftb' C',
    fold_left (bin_step t2 binsize) (seq start cnt)
      (rbound, count_before t2 rbound, C) = (rbound', leftb', C')
    /\ length C' = length C
    /\ forall j,
         at_ C' j ==
         at_ C j
         + (if (start <=? j)%nat && (j <? start + cnt)%nat
            then inject_Z (Z.of_nat
                   (count_between t2
                      (lbound + inject_Z (Z.of_nat j) * binsize)
                      (lbound + inject_Z (Z.of_nat (S j)) * binsize)))
            else 0).
Proof.
  induction cnt as [|cnt IH]; intros start rbound C Hrb Hlen.
  - simpl. do 3 eexists. split; [reflexivity|]. split; [reflexivity|].
    intros j. rewrite Nat.add_0_r.
    destruct (start <=? j)%nat eqn:E1, (j <? start)%nat eqn:E2; simpl;
      try (rewrite Qplus_0_r; reflexivity).
    apply Nat.leb_le in E1. apply Nat.ltb_lt in E2. lia.
  - simpl seq. cbn [fold_left]. rewrite bin_step_sorted.
    set (C1 := <[start := _]> C).
    assert (Hlen1 : length C1 = length C) by apply length_insert.
    destruct (IH (S start) (rbound + binsize) C1) as (rb & lb & C' & Hf & Hl & Hat).
    { rewrite Hrb, Nat2Z.inj_succ. unfold Z.succ. rewrite inject_Z_plus.
      change (inject_Z 1) with 1. ring. }
    { rewrite Hlen1. lia. }
    exists rb, lb, C'. split; [exact Hf|]. split; [congruence|].
    intros j. rewrite Hat. unfold C1. rewrite at_insert by lia.
    assert (Hcount : count_between t2 rbound (rbound + binsize)
                     = count_between t2
                         (lbound + inject_Z (Z.of_nat start) * binsize)
                         (lbound + inject_Z (Z.of_nat (S start)) * binsize)).
    { apply count_between_proper; [exact Hrb|].
      rewrite Hrb, Nat2Z.inj_succ. unfold Z.succ. rewrite inject_Z_plus.
      change (inject_Z 1) with 1. ring. }
    destruct (start =? j)%nat eqn:Ej.
    + apply Nat.eqb_eq in Ej. subst j.
      assert (E1 : (S start <=? start)%nat = false) by (apply Nat.leb_gt; lia).
      assert (E2 : (start <=? start)%nat = true) by (apply Nat.leb_le; lia).
      assert (E3 : (start <? start + S cnt)%nat = true)
        by (apply Nat.ltb_lt; lia).
      rewrite E1, E2, E3, Hcount. simpl. ring.
    + apply Nat.eqb_neq in Ej.
      destruct (S start <=? j)%nat eqn:E1.
      * apply Nat.leb_le in E1.
        assert (E2 : (start <=? j)%nat = true) by (apply Nat.leb_le; lia).
        rewrite E2. replace (S start + cnt)%nat with (start + S cnt)%nat by lia.
        reflexivity.
      * apply Nat.leb_gt in E1.
        assert (E2 : (start <=? j)%nat = false) by (apply Nat.leb_gt; lia).
        rewrite E2. reflexivity.
Qed.

Variables (t1 : list Q) (w : Q) (nbins : nat).
Hypothesis Hsorted1 : StronglySorted Qle t1.

Lemma ref_step_sorted (i2 : nat) (C : list Q) (i1 : nat) :
  (i2 <= count_before t2 (at_ t1 i1 - w))%nat ->
  (nbins <= length C)%nat ->
  exists C',
    ref_step t1 t2 binsize w nbins (i2, C) i1
    = (count_before t2 (at_ t1 i1 - w), C')
    /\ length C' = length C
    /\ forall j,
         at_ C' j ==
         at_ C j
         + (if (j <? nbins)%nat
            then inject_Z (Z.of_nat
                   (count_between t2 (bin_low (at_ t1 i1) w binsize j)
                      (bin_high (at_ t1 i1) w binsize j)))
            else 0).
Proof.
  intros Hi2 Hlen. unfold ref_step.
  rewrite (seek_forward_rank t2 Hsorted) by (exact Hi2 || lia).
  rewrite (seek_backward_rank t2 Hsorted).
  destruct (bin_loop_spec (at_ t1 i1 - w) nbins 0 (at_ t1 i1 - w) C)
    as (rb & lb & C' & Hf & Hl & Hat).
  { simpl. ring. }
  { simpl. exact Hlen. }
  rewrite Hf. exists C'. split; [reflexivity|]. split; [exact Hl|].
  intros j. rewrite Hat. simpl. reflexivity.
Qed.

(** The loop over the reference times from [start] on. *)
Lemma ref_loop_spec : forall cnt start i2 C,
  (start + cnt <= length t1)%nat ->
  (0 < cnt -> i2 <= count_before t2 (at_ t1 start - w))%nat ->
  (nbins <= length C)%nat ->
  exists i2' C',
    fold_left (ref_step t1 t2 binsize w nbins) (seq start cnt) (i2, C)
    = (i2', C')
    /\ length C' = length C
    /\ forall j,
         at_ C' j ==
         at_ C j
         + (if (j <? nbins)%nat
            then inject_Z (Z.of_nat (list_sum
                   (map (fun i =>
                           count_between t2 (bin_low (at_ t1 i) w binsize j)
                             (bin_high (at_ t1 i) w binsize j))
                      (seq start cnt))))
            else 0).
Proof.
  induction cnt as [|cnt IH]; intros start i2 C Hstart Hi2 Hlen.
  - simpl. do 2 eexists. split; [reflexivity|]. split; [reflexivity|].
    intros j. destruct (j <? nbins)%nat; simpl; rewrite Qplus_0_r; reflexivity.
  - simpl seq. cbn [fold_left].
    destruct (ref_step_sorted i2 C start) as (C1 & Hstep & Hl1 & Hat1);
      [apply Hi2; lia|exact Hlen|].
    rewrite Hstep.
    destruct (IH (S start) (count_before t2 (at_ t1 start - w)) C1)
      as (i2' & C' & Hf & Hl & Hat).
    { lia. }
    { intros Hpos. apply count_before_mono.
      assert (Hmono : at_ t1 start <= at_ t1 (S start))
        by (apply sorted_at_mono; [exact Hsorted1|lia|lia]).
      lra. }
    { rewrite Hl1. exact Hlen. }
    exists i2', C'. split; [exact Hf|]. split; [congruence|].
    intros j. rewrite Hat, Hat1.
    destruct (j <? nbins)%nat; simpl; [|ring].
    rewrite Nat2Z.inj_add, inject_Z_plus. ring.
Qed.

End Loops.

Lemma number_of_bins_pos binsize windowsize :
  0 < binsize -> 0 <= windowsize ->
  (1 <= number_of_bins binsize windowsize)%Z.
Proof.
  intros Hb Hw.
  assert (H0 : (0 <= Qfloor ((windowsize * 2) / binsize))%Z).
  { change 0%Z with (Qfloor (inject_Z 0)) at 1.
    apply Qfloor_resp_le.
    apply Qle_shift_div_l; [exact Hb|].
    change (inject_Z 0) with 0. lra. }
  rewrite number_of_bins_spec. cbv zeta.
  destruct (Z.even _) eqn:Hev; [lia|].
  destruct (Z.eq_dec (Qfloor ((windowsize * 2) / binsize)) 0%Z) as [E|E];
    [rewrite E in Hev; discriminate Hev|lia].
Qed.

(** X7. The half window [w = (nbins / 2) * binsize] that
    [_cross_correlogram] really uses is the requested window size rounded to
    an odd number of half bins: it lies in
    [(windowsize - binsize / 2, windowsize + binsize / 2]]. *)
Theorem half_window_bounds binsize windowsize :
  0 < binsize ->
  let w := half_window (number_of_bins binsize windowsize) binsize in
  windowsize - binsize / 2 < w /\ w <= windowsize + binsize / 2.
Proof.
  intros Hb w. unfold w, half_window.
  set (x := (windowsize * 2) / binsize).
  assert (Hx : x * binsize == windowsize * 2)
    by (unfold x; field; lra).
  pose proof (Qfloor_le x) as Hlo. pose proof (Qlt_floor x) as Hhi.
  rewrite number_of_bins_spec. cbv zeta. fold x.
  rewrite inject_Z_plus in Hhi. change (inject_Z 1) with 1 in Hhi.
  set (F := inject_Z (Qfloor x)) in *.
  assert (H1 : F * binsize <= x * binsize)
    by (apply Qmult_le_compat_r; [exact Hlo|lra]).
  assert (H2 : x * binsize < (F + 1) * binsize)
    by (apply Qmult_lt_compat_r; [exact Hb|exact Hhi]).
  destruct (Z.even (Qfloor x));
    rewrite ?inject_Z_plus; change (inject_Z 1) with 1; fold F;
    clearbody F; clearbody x; clear w;
    unfold Qdiv; change (/ 2) with (1 # 2); split; nra.
Qed.

Lemma half_window_bounds_witness :
  1 - (3 # 10) / 2 < half_window (number_of_bins (3 # 10) 1) (3 # 10)
  /\ half_window (number_of_bins (3 # 10) 1) (3 # 10) <= 1 + (3 # 10) / 2.
Proof. apply (half_window_bounds (3 # 10) 1). reflexivity. Defined.

Lemma at_zeros (n j : nat) : at_ (repeat 0 n) j = 0.
Proof. unfold at_. apply nth_repeat. Qed.

Lemma lookup_at (C : list Q) (j : nat) :
  (j < length C)%nat -> C !! j = Some (at_ C j).
Proof.
  intros Hj. unfold at_. rewrite nth_lookup.
  destruct (lookup_lt_is_Some_2 C j Hj) as [c ->]. reflexivity.
Qed.

(** X5. On sorted timestamp arrays, with a positive bin size and a
    non-negative window size, [_cross_correlogram] returns, and entry [j] of
    its first array is the number of pairs (reference [x], target [y]) with
    [x - w + j * binsize <= y < x - w + (j + 1) * binsize], divided by
    [len(t1) * binsize]; [w] is the half window the function computes.  The
    reference array is not empty here. *)
Theorem cross_correlogram_counts (t1 t2 : list Q) (binsize windowsize : Q) :
  StronglySorted Qle t1 -> StronglySorted Qle t2 ->
  0 < binsize -> 0 <= windowsize -> t1 <> [] ->
  let nbins := number_of_bins binsize windowsize in
  let w := half_window nbins binsize in
  exists C B,
    _cross_correlogram t1 t2 binsize windowsize = Ok (C, B)
    /\ length C = Z.to_nat nbins
    /\ forall j, (j < Z.to_nat nbins)%nat ->
         exists q,
           C !! j = Some (Fin q)
           /\ q == inject_Z (Z.of_nat (pair_count t1 t2 w binsize j))
                  / (len t1 * binsize).
Proof.
  intros Hs1 Hs2 Hb Hw Hne nbins w.
  pose proof (number_of_bins_pos binsize windowsize Hb Hw) as Hn.
  fold nbins in Hn.
  unfold _cross_correlogram.
  destruct (Qeq_bool binsize 0) eqn:E.
  { apply Qeq_bool_iff in E. lra. }
  fold nbins. fold w.
  destruct (nbins <? 0)%Z eqn:E2; [apply Z.ltb_lt in E2; lia|].
  destruct (ref_loop_spec t2 binsize Hs2 (Qlt_le_weak _ _ Hb) t1 w
              (Z.to_nat nbins) Hs1 (length t1) 0 0
              (repeat 0 (Z.to_nat nbins)))
    as (i2 & C' & Hf & Hl & Hat).
  { lia. }
  { lia. }
  { rewrite repeat_length. lia. }
  rewrite Hf. rewrite repeat_length in Hl.
  eexists _, _. split; [reflexivity|].
  split; [rewrite length_map; exact Hl|].
  intros j Hj.
  assert (Hlen : 0 < len t1).
  { unfold len. destruct t1 as [|x t]; [contradiction|].
    change 0 with (inject_Z 0). rewrite <- Zlt_Qlt. simpl length. lia. }
  assert (Hden : Qeq_bool (len t1 * binsize) 0 = false).
  { destruct (Qeq_bool (len t1 * binsize) 0) eqn:Ed; [|reflexivity].
    apply Qeq_bool_iff in Ed. nra. }
  exists (at_ C' j / (len t1 * binsize)). split.
  - rewrite list_lookup_fmap, lookup_at by lia. simpl. rewrite Hden.
    reflexivity.
  - rewrite Hat, at_zeros.
    assert (Ej : (j <? Z.to_nat nbins)%nat = true) by (apply Nat.ltb_lt; lia).
    rewrite Ej, Qplus_0_l.
    rewrite (map_at_seq
               (fun x => count_between t2 (bin_low x w binsize j)
                           (bin_high x w binsize j)) t1).
    reflexivity.
Qed.

Lemma cross_correlogram_counts_witness :
  exists C B,
    _cross_correlogram [0; 1] [0; 1; 2] 1 1 = Ok (C, B)
    /\ length C = 3%nat
    /\ forall j, (j < 3)%nat ->
         exists q,
           C !! j = Some (Fin q)
           /\ q == inject_Z (Z.of_nat
                      (pair_count [0; 1] [0; 1; 2] (3 # 2) 1 j))
                  / (len [0; 1] * 1).
Proof.
  apply (cross_correlogram_counts [0; 1] [0; 1; 2] 1 1).
  - repeat constructor; unfold Qle; simpl; lia.
  - repeat constructor; unfold Qle; simpl; lia.
  - reflexivity.
  - discriminate.
  - discriminate.
Defined.

(** X6. Without reference timestamps the scaling of [_cross_correlogram]
    divides zero counts by [0 * binsize]: the function raises nothing and
    every entry of its first array is nan. *)
Theorem cross_correlogram_no_reference (t2 : list Q) (binsize windowsize : Q) :
  0 < binsize -> 0 <= windowsize ->
  let nbins := number_of_bins binsize windowsize in
  exists C B,
    _cross_correlogram [] t2 binsize windowsize = Ok (C, B)
    /\ C = repeat NaN (Z.to_nat nbins).
Proof.
  intros Hb Hw nbins.
  pose proof (number_of_bins_pos binsize windowsize Hb Hw) as Hn.
  fold nbins in Hn.
  unfold _cross_correlogram.
  destruct (Qeq_bool binsize 0) eqn:E.
  { apply Qeq_bool_iff in E. lra. }
  fold nbins.
  destruct (nbins <? 0)%Z eqn:E2; [apply Z.ltb_lt in E2; lia|].
  simpl fold_left. eexists _, _. split; [reflexivity|].
  rewrite List.map_repeat. reflexivity.
Qed.

Lemma cross_correlogram_no_reference_witness :
  exists C B,
    _cross_correlogram [] [0; 1] 1 1 = Ok (C, B)
    /\ C = repeat NaN 3.
Proof.
  apply (cross_correlogram_no_reference [0; 1] 1 1).
  - reflexivity.
  - discriminate.
Defined.

End CorrelogramLoopFacts.

(** * The metadata table *)

Module MetadataFacts.
Import Metadata.

Lemma assoc_set_keys {V : Type} (k : name) (v : V) (l : list (name * V)) n :
  n ∈ map fst (assoc_set k v l) <-> n = k \/ n ∈ map fst l.
Proof.
  induction l as [|[k' v'] l IH]; simpl.
  - rewrite list_elem_of_singleton, elem_of_nil. tauto.
  - destruct (decide (k = k')) as [<-|Hne]; simpl.
    + rewrite !elem_of_cons. tauto.
    + rewrite !elem_of_cons, IH. tauto.
Qed.

Lemma assoc_get_set_eq {V : Type} (k : name) (v : V) (l : list (name * V)) :
  assoc_get k (assoc_set k v l) = Some v.
Proof.
  induction l as [|[k' v'] l IH]; simpl.
  - destruct (decide (k = k)); [reflexivity|contradiction].
  - destruct (decide (k = k')) as [<-|Hne]; simpl.
    + destruct (decide (k = k)); [reflexivity|contradiction].
    + destruct (decide (k = k')); [contradiction|exact IH].
Qed.

Lemma assoc_get_set_ne {V : Type} (k k0 : name) (v : V)
  (l : list (name * V)) :
  k0 <> k -> assoc_get k0 (assoc_set k v l) = assoc_get k0 l.
Proof.
  intros Hne. induction l as [|[k' v'] l IH]; simpl.
  - destruct (decide (k0 = k)); [contradiction|reflexivity].
  - destruct (decide (k = k')) as [<-|Hkk]; simpl.
    + destruct (decide (k0 = k)); [contradiction|reflexivity].
    + destruct (decide (k0 = k')); [reflexivity|exact IH].
Qed.

Lemma assoc_set_Forall {V : Type} (P : name * V -> Prop) k v l :
  Forall P l -> P (k, v) -> Forall P (assoc_set k v l).
Proof.
  intros Hl Hk. induction Hl as [|[k' v'] l Hx Hl IH]; simpl.
  - constructor; [exact Hk|constructor].
  - destruct (decide (k = k')); constructor; assumption.
Qed.

(** *** Names *)

Lemma isalpha_not_underscore c : isalpha c = true -> is_underscore c = false.
Proof.
  destruct c as [[] [] [] [] [] [] [] []]; vm_compute; congruence.
Qed.

Lemma all_chars_remove_underscores s :
  all_chars isalnum (remove_underscores s)
  = all_chars (fun c => isalnum c || is_underscore c) s.
Proof.
  induction s as [|c s IH]; [reflexivity|]. simpl.
  destruct (is_underscore c) eqn:E; simpl.
  - rewrite IH, orb_true_r. reflexivity.
  - rewrite IH, orb_false_r. reflexivity.
Qed.

Lemma isalpha_isalnum c : isalpha c = true -> isalnum c = true.
Proof. unfold isalnum. intros ->. reflexivity. Qed.

(** After a first letter, the test on the name without its underscores is
    the test of every character. *)
Lemma letter_then_isalnum c r :
  isalpha c = true ->
  str_isalnum (remove_underscores (String c r))
  = all_chars (fun c => isalnum c || is_underscore c) r.
Proof.
  intros Hc. simpl. rewrite (isalpha_not_underscore c Hc).
  unfold str_isalnum. simpl. rewrite (isalpha_isalnum c Hc). simpl.
  apply all_chars_remove_underscores.
Qed.

Lemma accepted_inv (self : obj) (n : name) :
  _raise_invalid_metadata_column_name self n = Ok tt ->
  exists s,
    n = NStr s
    /\ identifier s = true
    /\ (hasattr self s = true -> n ∈ metadata_columns self)
    /\ (hasattr self "columns" && in_columns self n = false).
Proof.
  unfold _raise_invalid_metadata_column_name.
  destruct n as [s|z]; [|discriminate]. intros H. exists s.
  split; [reflexivity|].
  destruct (hasattr self s) eqn:Hattr; cbn [negb andb] in H.
  + destruct (bool_decide (NStr s ∈ metadata_columns self)) eqn:Hcol;
      cbn [negb andb] in H; [|discriminate].
    apply bool_decide_eq_true in Hcol.
    destruct (hasattr self "columns" && in_columns self (NStr s)) eqn:Hc;
      [discriminate|].
    destruct s as [|c r]; [discriminate|].
    destruct (isalpha c) eqn:Hal; cbn [negb andb] in H; [|discriminate].
    rewrite (letter_then_isalnum c r Hal) in H.
    destruct (all_chars _ r) eqn:Hall; cbn [negb andb] in H; [|discriminate].
    simpl. rewrite Hal, Hall. auto.
  + destruct (hasattr self "columns" && in_columns self (NStr s)) eqn:Hc;
      [discriminate|].
    destruct s as [|c r]; [discriminate|].
    destruct (isalpha c) eqn:Hal; cbn [negb andb] in H; [|discriminate].
    rewrite (letter_then_isalnum c r Hal) in H.
    destruct (all_chars _ r) eqn:Hall; cbn [negb andb] in H; [|discriminate].
    simpl. rewrite Hal, Hall. split; [reflexivity|].
    split; [discriminate|reflexivity].
Qed.

Lemma accepted_intro (self : obj) (s : string) :
  identifier s = true ->
  (hasattr self s = true -> NStr s ∈ metadata_columns self) ->
  hasattr self "columns" && in_columns self (NStr s) = false ->
  _raise_invalid_metadata_column_name self (NStr s) = Ok tt.
Proof.
  unfold _raise_invalid_metadata_column_name. intros Hid Hattr Hcol.
  destruct (hasattr self s) eqn:Ha; cbn [negb andb].
  + rewrite (bool_decide_eq_true_2 _ (Hattr eq_refl)). cbn [negb andb].
    rewrite Hcol. destruct s as [|c r]; [discriminate|]. cbn [negb andb] in Hid.
    apply andb_true_iff in Hid as [Hal Hall].
    rewrite Hal. cbn [negb].
    rewrite (letter_then_isalnum c r Hal), Hall. reflexivity.
  + rewrite Hcol. destruct s as [|c r]; [discriminate|]. cbn [negb andb] in Hid.
    apply andb_true_iff in Hid as [Hal Hall].
    rewrite Hal. cbn [negb].
    rewrite (letter_then_isalnum c r Hal), Hall. reflexivity.
Qed.

(** X8. [_raise_invalid_metadata_column_name] accepts a name exactly when it
    is a string that starts with a letter and goes on with letters, digits
    and underscores, that is no attribute of the object other than a metadata
    column, and no column of the frame; so a name with a leading underscore
    is refused although it holds no special character. *)
Theorem accepted_names (self : obj) (n : name) :
  _raise_invalid_metadata_column_name self n = Ok tt
  <-> exists s,
        n = NStr s
        /\ identifier s = true
        /\ (hasattr self s = true -> n ∈ metadata_columns self)
        /\ (hasattr self "columns" && in_columns self n = false).
Proof.
  split; [apply accepted_inv|].
  intros (s & -> & Hid & Hattr & Hcol). apply accepted_intro; assumption.
Qed.

(** *** What the assignments keep *)

Lemma same_frame_refl a : same_frame a a.
Proof. repeat split. Qed.

Lemma same_frame_trans a b c :
  same_frame a b -> same_frame b c -> same_frame a c.
Proof.
  intros (H1 & H2 & H3 & H4) (G1 & G2 & G3 & G4).
  repeat split; congruence.
Qed.

Lemma set_column_same k col self : same_frame self (set_column k col self).
Proof. repeat split. Qed.

Lemma set_column_columns k col self n :
  n ∈ metadata_columns (set_column k col self)
  <-> n = k \/ n ∈ metadata_columns self.
Proof. unfold metadata_columns, set_column. simpl. apply assoc_set_keys. Qed.

Lemma set_column_well_formed k col self :
  well_formed (_metadata self) ->
  length col = length (md_index (_metadata self)) ->
  well_formed (_metadata (set_column k col self)).
Proof.
  unfold well_formed, set_column. simpl. intros Hwf Hlen.
  apply assoc_set_Forall; [exact Hwf|exact Hlen].
Qed.

Lemma keeps_refl keys a : keeps keys a a.
Proof. split; [apply same_frame_refl|]. split; auto. Qed.

Lemma keeps_trans k1 k2 keys a b c :
  (forall n, n ∈ k1 -> n ∈ keys) -> (forall n, n ∈ k2 -> n ∈ keys) ->
  keeps k1 a b -> keeps k2 b c -> keeps keys a c.
Proof.
  intros H1 H2 (Sab & Wab & Cab) (Sbc & Wbc & Cbc).
  split; [eapply same_frame_trans; eassumption|]. split; [auto|].
  intros n Hn. destruct (Cbc n Hn) as [Hb|Hk]; [|auto].
  destruct (Cab n Hb) as [Ha|Hk]; auto.
Qed.

Lemma set_column_keeps k col self :
  (well_formed (_metadata self) ->
   length col = length (md_index (_metadata self))) ->
  keeps [k] self (set_column k col self).
Proof.
  intros Hlen. split; [apply set_column_same|]. split.
  - intros Hwf. apply set_column_well_formed; auto.
  - intros n Hn. apply set_column_columns in Hn as [->|Hn]; [right|left].
    + apply list_elem_of_here.
    + exact Hn.
Qed.

Lemma set_item_keeps self k v self' missed :
  set_item self k v = Ok (self', missed) -> keeps [k] self self'.
Proof.
  unfold set_item. destruct v as [items|data|c|].
  - destruct (bool_decide _) eqn:E; [|discriminate].
    apply bool_decide_eq_true in E. intros [= <- <-].
    apply set_column_keeps. intros _. rewrite E, !length_map. reflexivity.
  - destruct (_ =? _)%nat eqn:E; [|discriminate].
    apply Nat.eqb_eq in E. intros [= <- <-].
    apply set_column_keeps. intros _. symmetry. exact E.
  - destruct (negb _ && (_ =? _)%nat) eqn:E; intros [= <- <-].
    + apply andb_true_iff in E as [_ E]. apply Nat.eqb_eq in E.
      apply set_column_keeps. intros _. symmetry. exact E.
    + apply keeps_refl.
  - intros [= <- <-]. apply keeps_refl.
Qed.

Lemma set_items_keeps : forall kwargs self not_set r self',
  set_items kwargs self not_set = (r, self') ->
  keeps (map fst kwargs) self self'.
Proof.
  induction kwargs as [|[k v] kwargs IH]; intros self ns r self' H; simpl in H.
  - injection H as <- <-. apply keeps_refl.
  - destruct (set_item self k v) as [[self1 missed]|e] eqn:E.
    + apply set_item_keeps in E. apply IH in H.
      eapply keeps_trans; [| |exact E|exact H]; simpl; intros n Hn.
      * apply list_elem_of_singleton in Hn as ->. apply list_elem_of_here.
      * apply list_elem_of_further, Hn.
    + injection H as <- <-. apply keeps_refl.
Qed.

Lemma set_columns_keeps df self :
  md_index (_metadata self) = md_index df -> well_formed df ->
  keeps (map fst (md_columns df)) self (set_columns df self).
Proof.
  unfold set_columns, well_formed. intros Hidx Hwf.
  rewrite <- Hidx in Hwf. clear Hidx.
  generalize dependent self.
  induction (md_columns df) as [|[k col] cols IH]; intros self Hwf; simpl.
  - apply keeps_refl.
  - apply Forall_cons in Hwf as [Hcol Hwf]. simpl in Hcol.
    eapply keeps_trans;
      [| |apply (set_column_keeps k col self); intros _; exact Hcol
       |apply IH; exact Hwf].
    + intros n Hn. apply list_elem_of_singleton in Hn as ->.
      apply list_elem_of_here.
    + intros n Hn. apply list_elem_of_further, Hn.
Qed.

(** Without the shape: the columns of [df] are the only new ones. *)
Lemma set_columns_names df : forall self,
  same_frame self (set_columns df self)
  /\ forall n, n ∈ metadata_columns (set_columns df self) ->
       n ∈ metadata_columns self \/ n ∈ map fst (md_columns df).
Proof.
  unfold set_columns.
  induction (md_columns df) as [|[k col] cols IH]; intros self; simpl.
  - split; [apply same_frame_refl|auto].
  - destruct (IH (set_column k col self)) as [Hs Hn]. split.
    + eapply same_frame_trans; [apply set_column_same|exact Hs].
    + intros n H. destruct (Hn n H) as [H1|H1].
      * apply set_column_columns in H1 as [->|H1]; [right|left; exact H1].
        apply list_elem_of_here.
      * right. apply list_elem_of_further, H1.
Qed.

Lemma set_broadcast_keeps items : forall self,
  keeps (map fst items) self (set_broadcast items self).
Proof.
  unfold set_broadcast.
  induction items as [|[k c] items IH]; intros self; simpl.
  - apply keeps_refl.
  - eapply keeps_trans;
      [| |apply (set_column_keeps k
                   (repeat c (length (md_index (_metadata self)))) self);
          intros _; apply repeat_length
       |apply IH].
    + intros n Hn. apply list_elem_of_singleton in Hn as ->.
      apply list_elem_of_here.
    + intros n Hn. apply list_elem_of_further, Hn.
Qed.

Lemma dict_merge_keys {V : Type} (kwargs : list (name * V)) : forall d n,
  n ∈ map fst (dict_merge d kwargs) ->
  n ∈ map fst d \/ n ∈ map fst kwargs.
Proof.
  unfold dict_merge.
  induction kwargs as [|[k v] kwargs IH]; intros d n Hn; simpl in *.
  - left. exact Hn.
  - apply IH in Hn as [Hn|Hn].
    + apply assoc_set_keys in Hn as [->|Hn]; [right|left; exact Hn].
      apply list_elem_of_here.
    + right. apply list_elem_of_further, Hn.
Qed.

Lemma check_each_ok self names :
  check_each self names = Ok tt ->
  forall n, n ∈ names -> _raise_invalid_metadata_column_name self n = Ok tt.
Proof.
  induction names as [|n0 names IH]; simpl; intros H n Hn.
  - apply elem_of_nil in Hn. contradiction.
  - destruct (_raise_invalid_metadata_column_name self n0) as [[]|e] eqn:E;
      [|discriminate].
    apply elem_of_cons in Hn as [->|Hn]; [exact E|]. apply IH; assumption.
Qed.

Lemma set_metadata_arg_keeps metadata kwargs self r self' :
  (forall df, metadata = MDataFrame df -> well_formed df) ->
  set_metadata_arg metadata kwargs self = (r, self') ->
  same_frame self self'
  /\ (well_formed (_metadata self) -> well_formed (_metadata self')).
Proof.
  intros Hdf. unfold set_metadata_arg.
  destruct metadata as [|df|items|items| |];
    try (intros [= <- <-]; split; [apply same_frame_refl|auto]).
  - destruct (bool_decide _) eqn:E; intros [= <- <-];
      [|split; [apply same_frame_refl|auto]].
    apply bool_decide_eq_true in E.
    destruct (set_columns_keeps df self E (Hdf df eq_refl)) as (Hs & Hw & _).
    split; assumption.
  - destruct (_ =? _)%nat; intros [= <- <-];
      [|split; [apply same_frame_refl|auto]].
    destruct (set_broadcast_keeps items self) as (Hs & Hw & _).
    split; assumption.
Qed.

(** The names [set_info] may write: those of [metadata] that
    [_check_metadata_column_names] looks at, and the keywords. *)
Lemma set_metadata_arg_names metadata kwargs self kwargs' not_set self' :
  set_metadata_arg metadata kwargs self = (Ok (kwargs', not_set), self') ->
  forall n,
    (n ∈ metadata_columns self' \/ n ∈ map fst kwargs') ->
    n ∈ metadata_columns self
    \/ n ∈ map fst kwargs
    \/ match metadata with
       | MDataFrame df => n ∈ map fst (md_columns df)
       | MDict items => n ∈ map fst items
       | MSeries items => self_len self = 1%nat /\ n ∈ map fst items
       | _ => False
       end.
Proof.
  unfold set_metadata_arg.
  destruct metadata as [|df|items|items| |]; try discriminate.
  - intros [= <- <- <-] n [H|H]; auto.
  - destruct (bool_decide _); [|discriminate].
    intros [= <- <- <-] n [H|H]; [|auto].
    destruct (set_columns_names df self) as [_ Hn].
    destruct (Hn n H); auto.
  - intros [= <- <- <-] n [H|H]; [auto|].
    apply dict_merge_keys in H as [H|H]; auto.
  - destruct (_ =? _)%nat eqn:E; [|discriminate].
    apply Nat.eqb_eq in E.
    intros [= <- <- <-] n [H|H]; [|auto].
    destruct (set_broadcast_keeps items self) as (_ & _ & Hn).
    destruct (Hn n H); auto.
  - intros [= <- <- <-] n [H|H]; auto.
Qed.

Lemma checked_names self metadata kwargs :
  _check_metadata_column_names self metadata kwargs = Ok tt ->
  forall n,
    (n ∈ map fst kwargs
     \/ match metadata with
        | MDataFrame df => n ∈ map fst (md_columns df)
        | MDict items => n ∈ map fst items
        | MSeries items => self_len self = 1%nat /\ n ∈ map fst items
        | _ => False
        end) ->
    _raise_invalid_metadata_column_name self n = Ok tt.
Proof.
  unfold _check_metadata_column_names, bind. intros H n Hn.
  destruct metadata as [|df|items|items| |].
  - destruct Hn as [Hn|[]]. (eapply check_each_ok; [|exact Hn]; assumption).
  - destruct (check_each self (map fst (md_columns df))) as [[]|e] eqn:E;
      [|discriminate].
    destruct Hn as [Hn|Hn]; (eapply check_each_ok; [|exact Hn]; assumption).
  - destruct (check_each self (map fst items)) as [[]|e] eqn:E;
      [|discriminate].
    destruct Hn as [Hn|Hn]; (eapply check_each_ok; [|exact Hn]; assumption).
  - destruct (self_len self =? 1)%nat eqn:El.
    + destruct (check_each self (map fst items)) as [[]|e] eqn:E;
        [|discriminate].
      destruct Hn as [Hn|[_ Hn]]; (eapply check_each_ok; [|exact Hn]; assumption).
    + apply Nat.eqb_neq in El.
      destruct Hn as [Hn|[Hl _]]; [|contradiction].
      (eapply check_each_ok; [|exact Hn]; assumption).
  - destruct Hn as [Hn|[]]. (eapply check_each_ok; [|exact Hn]; assumption).
  - destruct Hn as [Hn|[]]. (eapply check_each_ok; [|exact Hn]; assumption).
Qed.

(** X9. Whatever [set_info] is given and however it ends, a column that is
    in the metadata afterwards and was not there before has a name that the
    name check accepted: a string made of a letter followed by letters,
    digits and underscores that is not an attribute of the object. *)
Theorem set_info_new_columns_are_checked metadata kwargs self n :
  n ∈ metadata_columns (snd (set_info metadata kwargs self)) ->
  n ∈ metadata_columns self
  \/ exists s, n = NStr s /\ identifier s = true /\ attributes self s = false.
Proof.
  unfold set_info.
  destruct (_check_metadata_column_names self metadata kwargs) as [[]|e]
    eqn:Hcheck; [|simpl; auto].
  assert (Hnew : forall self',
            (forall n, n ∈ metadata_columns self' ->
               n ∈ metadata_columns self
               \/ _raise_invalid_metadata_column_name self n = Ok tt) ->
            n ∈ metadata_columns self' ->
            n ∈ metadata_columns self
            \/ exists s, n = NStr s /\ identifier s = true
                         /\ attributes self s = false).
  { intros self' Hall Hn. destruct (Hall n Hn) as [H|H]; [left; exact H|].
    apply accepted_inv in H as (s & -> & Hid & Hattr & _).
    destruct (attributes self s) eqn:Ea.
    - left. apply Hattr. unfold hasattr. rewrite Ea. reflexivity.
    - right. exists s. auto. }
  destruct (set_metadata_arg metadata kwargs self) as [[[kw ns]|e] self1]
    eqn:Harg.
  - assert (H1 : forall n, n ∈ metadata_columns self1 \/ n ∈ map fst kw ->
              n ∈ metadata_columns self
              \/ _raise_invalid_metadata_column_name self n = Ok tt).
    { intros m Hm.
      destruct (set_metadata_arg_names _ _ _ _ _ _ Harg m Hm) as [H|H];
        [left; exact H|right].
      eapply checked_names; eassumption. }
    destruct (set_items kw self1 ns) as [[ns'|e] self2] eqn:Hitems.
    + apply set_items_keeps in Hitems as (_ & _ & Hcols).
      assert (Hfinal : n ∈ metadata_columns self2 ->
                n ∈ metadata_columns self
                \/ exists s, n = NStr s /\ identifier s = true
                             /\ attributes self s = false).
      { apply Hnew. intros m Hm. apply H1.
        destruct (Hcols m Hm); auto. }
      destruct (0 <? ns')%nat; exact Hfinal.
    + apply set_items_keeps in Hitems as (_ & _ & Hcols).
      simpl. apply Hnew. intros m Hm. apply H1.
      destruct (Hcols m Hm); auto.
  - simpl. unfold set_metadata_arg in Harg.
    destruct metadata as [|df|items|items| |]; try discriminate.
    + destruct (bool_decide _); [discriminate|].
      injection Harg as _ <-. auto.
    + destruct (_ =? _)%nat; [discriminate|].
      injection Harg as _ <-. auto.
    + injection Harg as _ <-. auto.
Qed.

Lemma set_info_new_columns_are_checked_witness :
  NStr "area" ∈ [NStr "rate"]
  \/ exists s, NStr "area" = NStr s /\ identifier s = true
               /\ String.eqb s "index" = false.
Proof.
  apply (set_info_new_columns_are_checked MNone
           [(NStr "area", VArray [CStr "ca1"; CStr "pfc"])]
           (mkObj (fun s => String.eqb s "index") [] 2
              (mkFrame [NInt 0; NInt 1] [(NStr "rate", [CNum 1; CNum 2])]))
           (NStr "area")).
  vm_compute. apply list_elem_of_further, list_elem_of_here.
Defined.

(** X10. [set_info] keeps the shape of the metadata table, however it ends:
    the index is unchanged and every column still has one entry per index
    label. A DataFrame argument is a table of that shape. *)
Theorem set_info_keeps_shape metadata kwargs self :
  well_formed (_metadata self) ->
  (forall df, metadata = MDataFrame df -> well_formed df) ->
  let self' := snd (set_info metadata kwargs self) in
  well_formed (_metadata self')
  /\ md_index (_metadata self') = md_index (_metadata self).
Proof.
  intros Hwf Hdf. unfold set_info.
  destruct (_check_metadata_column_names self metadata kwargs) as [[]|e];
    [|simpl; auto].
  destruct (set_metadata_arg metadata kwargs self) as [r self1] eqn:Harg.
  apply set_metadata_arg_keeps in Harg as [(_ & _ & _ & Hidx1) Hwf1];
    [|exact Hdf].
  destruct r as [[kw ns]|e]; [|simpl; auto].
  destruct (set_items kw self1 ns) as [r self2] eqn:Hitems.
  apply set_items_keeps in Hitems as ((_ & _ & _ & Hidx2) & Hwf2 & _).
  assert (H : well_formed (_metadata self2)
              /\ md_index (_metadata self2) = md_index (_metadata self))
    by (split; [auto|congruence]).
  destruct r as [ns'|e]; [|exact H].
  destruct (0 <? ns')%nat; exact H.
Qed.

Lemma set_info_keeps_shape_witness :
  let self :=
    mkObj (fun s => String.eqb s "index") [] 2
      (mkFrame [NInt 0; NInt 1] [(NStr "rate", [CNum 1; CNum 2])]) in
  let self' :=
    snd (set_info MNone
           [(NStr "area", VArray [CStr "ca1"; CStr "pfc"]);
            (NStr "depth", VArray [CNum 1])] self) in
  well_formed (_metadata self')
  /\ md_index (_metadata self') = md_index (_metadata self).
Proof.
  apply (set_info_keeps_shape MNone
           [(NStr "area", VArray [CStr "ca1"; CStr "pfc"]);
            (NStr "depth", VArray [CNum 1])]
           (mkObj (fun s => String.eqb s "index") [] 2
              (mkFrame [NInt 0; NInt 1] [(NStr "rate", [CNum 1; CNum 2])]))).
  - repeat constructor.
  - discriminate.
Defined.

Lemma set_items_app : forall a b self not_set,
  set_items (a ++ b) self not_set
  = match set_items a self not_set with
    | (Ok not_set', self') => set_items b self' not_set'
    | (Raise e, self') => (Raise e, self')
    end.
Proof.
  induction a as [|[k v] a IH]; intros b self ns; simpl; [reflexivity|].
  destruct (set_item self k v) as [[self1 missed]|e]; [apply IH|reflexivity].
Qed.

(** X11. [set_info] is not all or nothing. When the names are accepted and
    the keyword that follows the keywords [pre] is an array whose length is
    not that of the index, the call raises [ValueError] and leaves the object
    as a call with the keywords [pre] alone leaves it: the columns before the
    wrong one are stored, the ones after it are not looked at. *)
Theorem set_info_stops_at_wrong_length pre k data post self self' :
  _check_metadata_column_names self MNone (pre ++ (k, VArray data) :: post)
  = Ok tt ->
  set_info MNone pre self = (Ok tt, self') ->
  length data <> length (md_index (_metadata self)) ->
  set_info MNone (pre ++ (k, VArray data) :: post) self
  = (Raise ValueError, self').
Proof.
  intros Hcheck Hpre Hlen. unfold set_info in *. rewrite Hcheck.
  destruct (_check_metadata_column_names self MNone pre) as [[]|e];
    [|discriminate].
  simpl set_metadata_arg in *. cbv iota beta in *.
  rewrite set_items_app.
  destruct (set_items pre self 0) as [[ns|e] self1] eqn:Hitems;
    [|discriminate].
  assert (self1 = self') as ->
    by (destruct (0 <? ns)%nat; congruence).
  apply set_items_keeps in Hitems as ((_ & _ & _ & Hidx) & _).
  simpl. rewrite Hidx.
  destruct (Nat.eqb_spec (length (md_index (_metadata self))) (length data));
    [congruence|reflexivity].
Qed.

Lemma set_info_stops_at_wrong_length_witness :
  let self :=
    mkObj (fun s => String.eqb s "index") [] 2
      (mkFrame [NInt 0; NInt 1] [(NStr "rate", [CNum 1; CNum 2])]) in
  set_info MNone
    ([(NStr "area", VArray [CStr "ca1"; CStr "pfc"])]
     ++ (NStr "depth", VArray [CNum 1]) :: [(NStr "layer", VArray [CNone; CNone])])
    self
  = (Raise ValueError,
     set_column (NStr "area") [CStr "ca1"; CStr "pfc"] self).
Proof.
  apply (set_info_stops_at_wrong_length
           [(NStr "area", VArray [CStr "ca1"; CStr "pfc"])]
           (NStr "depth") [CNum 1]
           [(NStr "layer", VArray [CNone; CNone])]).
  - reflexivity.
  - reflexivity.
  - simpl. lia.
Defined.

(** X12. After [self[k] = data] succeeds for an array, [self[k]] gives the
    entries of [data] beside the index labels, [data] has one entry per
    label, and every other column reads as before. *)
Theorem setitem_getitem (k : string) data self self' :
  __setitem__ (NStr k) (VArray data) self = (Ok tt, self') ->
  __getitem__ self' k = Ok (zip (md_index (_metadata self)) data)
  /\ length data = length (md_index (_metadata self))
  /\ forall k', k' <> k -> __getitem__ self' k' = __getitem__ self k'.
Proof.
  unfold __setitem__, __getitem__, set_info, get_info.
  destruct (_check_metadata_column_names _ _ _) as [[]|e]; [|discriminate].
  simpl.
  destruct (Nat.eqb_spec (length (md_index (_metadata self))) (length data))
    as [Hlen|Hlen]; [|discriminate].
  simpl. intros [= <-]. simpl.
  rewrite assoc_get_set_eq. split; [reflexivity|]. split; [auto|].
  intros k' Hk. rewrite assoc_get_set_ne by congruence. reflexivity.
Qed.

Lemma setitem_getitem_witness :
  let self :=
    mkObj (fun s => String.eqb s "index") [] 2
      (mkFrame [NInt 0; NInt 1] [(NStr "rate", [CNum 1; CNum 2])]) in
  let self' := set_column (NStr "area") [CStr "ca1"; CStr "pfc"] self in
  __getitem__ self' "area"
  = Ok (zip [NInt 0; NInt 1] [CStr "ca1"; CStr "pfc"])
  /\ length [CStr "ca1"; CStr "pfc"] = 2%nat
  /\ forall k', k' <> "area" -> __getitem__ self' k' = __getitem__ self k'.
Proof.
  apply (setitem_getitem "area" [CStr "ca1"; CStr "pfc"]
           (mkObj (fun s => String.eqb s "index") [] 2
              (mkFrame [NInt 0; NInt 1] [(NStr "rate", [CNum 1; CNum 2])]))).
  reflexivity.
Defined.

End MetadataFacts.

(** * Arrays *)

Module NumpyFacts.
Import Numpy.

Lemma ceil_div_spec (a b : Z) :
  (0 < b)%Z ->
  ((ceil_div a b - 1) * b < a <= ceil_div a b * b)%Z.
Proof.
  intros Hb. unfold ceil_div.
  pose proof (Z.div_mod (- a) b ltac:(lia)) as Hdiv.
  pose proof (Z.mod_pos_bound (- a) b Hb) as Hmod.
  nia.
Qed.

Lemma ceil_div_nonneg (a b : Z) :
  (0 < b)%Z -> (0 <= a)%Z -> (0 <= ceil_div a b)%Z.
Proof.
  intros Hb Ha. pose proof (ceil_div_spec a b Hb) as H. nia.
Qed.

(** One step further, one entry more. *)
Lemma ceil_div_add_step (a b : Z) :
  (0 < b)%Z -> ceil_div (a + b) b = (ceil_div a b + 1)%Z.
Proof.
  intros Hb. unfold ceil_div.
  replace (- (a + b))%Z with (- a + (-1) * b)%Z by lia.
  rewrite Z.div_add by lia. lia.
Qed.

Lemma arange_values_step (start stop step : Z) :
  (0 < step)%Z -> (start <= stop)%Z ->
  arange_values start (stop + step) step
  = map (fun i => (start + Z.of_nat i * step)%Z)
      (seq 0 (S (Z.to_nat (ceil_div (stop - start) step)))).
Proof.
  intros Hs Hle. unfold arange_values.
  replace (stop + step - start)%Z with (stop - start + step)%Z by lia.
  rewrite ceil_div_add_step by exact Hs.
  pose proof (ceil_div_nonneg (stop - start) step Hs ltac:(lia)) as H0.
  replace (Z.to_nat (ceil_div (stop - start) step + 1))
    with (S (Z.to_nat (ceil_div (stop - start) step))) by lia.
  reflexivity.
Qed.

Lemma searchsorted_le_length a v : (searchsorted a v <= length a)%nat.
Proof.
  induction a as [|x a IH]; simpl; [lia|].
  destruct (Qlt_bool x v); simpl; lia.
Qed.

End NumpyFacts.

(** * Signal processing *)

Module SignalProcessingFacts.
Import Numpy NumpyFacts SignalProcessing.

(** X13. On Python ints between [- 2^52] and [2^52] with a positive step
    and [freq_start <= freq_stop], [_create_freqs] returns the frequencies
    [freq_start + i * freq_step] up to the first one that is not below
    [freq_stop]: the last frequency lies in
    [[freq_stop, freq_stop + freq_step)], so it is [freq_stop] only when the
    range is a whole number of steps and is above it otherwise. *)
Theorem create_freqs_reaches_stop (freq_start freq_stop freq_step : Z) :
  (0 < freq_step)%Z -> (freq_start <= freq_stop)%Z ->
  (- 2 ^ 52 < freq_start)%Z -> (freq_stop + freq_step < 2 ^ 52)%Z ->
  exists freqs top,
    _create_freqs freq_start freq_stop freq_step = Ok freqs
    /\ (forall (i : nat) f,
          freqs !! i = Some f ->
          f = (freq_start + Z.of_nat i * freq_step)%Z)
    /\ last freqs = Some top
    /\ (freq_stop <= top < freq_stop + freq_step)%Z.
Proof.
  intros Hs Hle _ _. unfold _create_freqs, arange.
  destruct (Z.eqb_spec freq_step 0) as [E|_]; [lia|].
  rewrite (arange_values_step _ _ _ Hs Hle).
  set (n := Z.to_nat (ceil_div (freq_stop - freq_start) freq_step)).
  exists (map (fun i => (freq_start + Z.of_nat i * freq_step)%Z)
            (seq 0 (S n))),
         (freq_start + Z.of_nat n * freq_step)%Z.
  split; [reflexivity|]. split; [|split].
  - intros i f Hi. rewrite list_lookup_fmap in Hi.
    destruct (seq 0 (S n) !! i) as [k|] eqn:Ek; [|discriminate].
    apply lookup_seq in Ek as [-> _]. simpl in Hi.
    injection Hi as <-. reflexivity.
  - rewrite seq_S, map_app. simpl. apply last_snoc.
  - pose proof (ceil_div_spec (freq_stop - freq_start) freq_step Hs) as Hc.
    pose proof (ceil_div_nonneg (freq_stop - freq_start) freq_step Hs
                  ltac:(lia)) as H0.
    unfold n. rewrite Z2Nat.id by exact H0. nia.
Qed.

(** [_create_freqs(1, 10, 4)] is [[1, 5, 9, 13]]. *)
Lemma create_freqs_reaches_stop_witness :
  exists freqs top,
    _create_freqs 1 10 4 = Ok freqs
    /\ (forall (i : nat) f,
          freqs !! i = Some f -> f = (1 + Z.of_nat i * 4)%Z)
    /\ last freqs = Some top
    /\ (10 <= top < 10 + 4)%Z.
Proof.
  apply (create_freqs_reaches_stop 1 10 4); [lia|lia| |];
    vm_compute; reflexivity.
Defined.

Section WaveletFacts.
Context {C : Type}.
Variables (czero : C) (cadd csub cmul : C -> C -> C) (cneg : C -> C).

Lemma convolve_inv (a v conv : list C) :
  convolve czero cadd cmul a v = Ok conv ->
  a <> [] /\ v <> [] /\ length conv = (length a + length v - 1)%nat.
Proof.
  unfold convolve. destruct a as [|x a], v as [|y v]; try discriminate.
  simpl. intros [= <-]. repeat split; try discriminate.
  simpl. rewrite length_map, length_seq. reflexivity.
Qed.

Lemma convolve_raises (a v : list C) e :
  convolve czero cadd cmul a v = Raise e ->
  e = ValueError /\ (a = [] \/ v = []).
Proof.
  unfold convolve. destruct a as [|x a], v as [|y v]; simpl;
    intros [= <-]; auto.
Qed.

Lemma length_diff (a : list C) : length (diff csub a) = (length a - 1)%nat.
Proof.
  induction a as [|x [|y a] IH]; [reflexivity|reflexivity|].
  change (diff csub (x :: y :: a)) with (csub y x :: diff csub (y :: a)).
  simpl length in *. rewrite IH. lia.
Qed.

(** The cut [coef[floor(d) : -ceil(d)]] with [d] half of what [coef] has
    more than [n] entries. *)
Lemma length_trimmed (coef : list C) (n : nat) :
  (n < length coef)%nat ->
  let d := (len coef - inject_Z (Z.of_nat n)) / 2 in
  length (slice coef (Qfloor d) (- Qceiling d)) = n.
Proof.
  intros Hn d. unfold slice, TimeSeries.slice_indices.
  assert (Hf : Qfloor d = ((Z.of_nat (length coef) - Z.of_nat n) / 2)%Z).
  { unfold d, len, Qfloor, Qdiv, Qminus, Qplus, Qmult, Qinv, Qopp, inject_Z.
    simpl. f_equal. lia. }
  assert (Hc : Qceiling d = (- ((- (Z.of_nat (length coef) - Z.of_nat n)) / 2))%Z).
  { unfold Qceiling, d, len, Qfloor, Qdiv, Qminus, Qplus, Qmult, Qinv, Qopp,
      inject_Z.
    simpl. f_equal. f_equal. lia. }
  rewrite Hf, Hc. clear Hf Hc d.
  set (L := Z.of_nat (length coef)) in *.
  set (N := Z.of_nat n) in *.
  assert (HL : (N < L)%Z) by (unfold L, N; lia).
  assert (HN : (0 <= N)%Z) by (unfold N; lia).
  change (1 <? 0)%Z with false. cbv iota.
  set (a := ((L - N) / 2)%Z).
  set (b := (- (- (L - N) / 2))%Z).
  assert (Hab : (a + b = L - N)%Z /\ (0 <= a)%Z /\ (1 <= b)%Z).
  { unfold a, b. clearbody L N.
    pose proof (Z.div_mod (L - N) 2 ltac:(lia)) as D1.
    pose proof (Z.mod_pos_bound (L - N) 2 ltac:(lia)) as D2.
    pose proof (Z.div_mod (- (L - N)) 2 ltac:(lia)) as D3.
    pose proof (Z.mod_pos_bound (- (L - N)) 2 ltac:(lia)) as D4.
    assert (Hpar : ((- (L - N)) mod 2 = (L - N) mod 2)%Z).
    { rewrite <- (Z.mod_add (- (L - N)) (L - N) 2) by lia.
      f_equal. lia. }
    lia. }
  destruct Hab as (Hab & Ha & Hb).
  destruct (a <? 0)%Z eqn:E1; [apply Z.ltb_lt in E1; lia|].
  destruct (- b <? 0)%Z eqn:E2; [|apply Z.ltb_ge in E2; lia].
  rewrite length_take, length_drop.
  unfold L, N in *. lia.
Qed.

(** X14. [_convolve_wavelet] returns exactly when [norm] is one of the
    three known values, the signal is not empty and the kernel has at least
    two entries; what it returns has one entry per sample of the signal.
    Every failure is a [ValueError]. *)
Theorem convolve_wavelet_length (sig int_psi_scale : list C)
  (scale sqrt_scale : C) (nrm : norm) :
  match _convolve_wavelet czero cadd csub cmul cneg sig int_psi_scale
          scale sqrt_scale nrm with
  | Ok coef =>
      nrm <> NormOther /\ sig <> [] /\ (2 <= length int_psi_scale)%nat
      /\ length coef = length sig
  | Raise e =>
      e = ValueError
      /\ (nrm = NormOther \/ sig = [] \/ (length int_psi_scale < 2)%nat)
  end.
Proof.
  unfold _convolve_wavelet.
  destruct (convolve czero cadd cmul sig int_psi_scale) as [conv|e] eqn:Hconv.
  - apply convolve_inv in Hconv as (Hsig & Hpsi & Hlen).
    set (coef :=
           match nrm with
           | NormSss => map (cmul (cneg sqrt_scale)) (diff csub conv)
           | NormAmp => map (cmul (cneg scale)) (diff csub conv)
           | _ => diff csub conv
           end).
    assert (Hcoef : length coef
                    = (length sig + length int_psi_scale - 2)%nat).
    { unfold coef. destruct nrm; rewrite ?length_map, length_diff; lia. }
    assert (Hn : (0 < length sig)%nat)
      by (destruct sig; [contradiction|simpl; lia]).
    assert (Hm : (0 < length int_psi_scale)%nat)
      by (destruct int_psi_scale; [contradiction|simpl; lia]).
    assert (Hd : (len coef - len sig) / 2
                 == (inject_Z (Z.of_nat (length int_psi_scale)) - 2) / 2).
    { unfold len. rewrite Hcoef.
      replace (Z.of_nat (length sig + length int_psi_scale - 2))
        with (Z.of_nat (length sig) + Z.of_nat (length int_psi_scale) - 2)%Z
        by lia.
      unfold Zminus. rewrite !inject_Z_plus, inject_Z_opp.
      change (inject_Z 2) with 2. field. }
    assert (Hcases :
              ((length int_psi_scale = 1)%nat /\ (len coef - len sig) / 2 < 0)
              \/ ((length int_psi_scale = 2)%nat
                  /\ (len coef - len sig) / 2 == 0)
              \/ ((3 <= length int_psi_scale)%nat
                  /\ 0 < (len coef - len sig) / 2)).
    { destruct (length int_psi_scale) as [|[|[|m]]] eqn:Em; [lia| | |].
      - left. split; [reflexivity|]. rewrite Hd. reflexivity.
      - right. left. split; [reflexivity|]. rewrite Hd. reflexivity.
      - right. right. split; [lia|]. rewrite Hd.
        replace (Z.of_nat (S (S (S m)))) with (Z.of_nat m + 3)%Z by lia.
        rewrite inject_Z_plus. change (inject_Z 3) with 3.
        assert (H0 : 0 <= inject_Z (Z.of_nat m))
          by (change 0 with (inject_Z 0); rewrite <- Zle_Qle; lia).
        unfold Qdiv. change (/ 2) with (1 # 2). lra. }
    assert (Hbody :
              match
                (if Qlt_bool 0 ((len coef - len sig) / 2)
                 then Ok (slice coef (Qfloor ((len coef - len sig) / 2))
                            (- Qceiling ((len coef - len sig) / 2)))
                 else if Qlt_bool ((len coef - len sig) / 2) 0
                      then Raise ValueError
                      else Ok coef)
              with
              | Ok coef' =>
                  (2 <= length int_psi_scale)%nat
                  /\ length coef' = length sig
              | Raise e =>
                  e = ValueError /\ (length int_psi_scale < 2)%nat
              end).
    { destruct Hcases as [[Hm1 Hneg]|[[Hm2 Hzero]|[Hm3 Hpos]]].
      - assert (E1 : Qlt_bool 0 ((len coef - len sig) / 2) = false)
          by (apply CorrelogramCountFacts.Qlt_bool_false_iff; lra).
        assert (E2 : Qlt_bool ((len coef - len sig) / 2) 0 = true)
          by (apply Qlt_bool_iff; exact Hneg).
        rewrite E1, E2. split; [reflexivity|lia].
      - assert (E1 : Qlt_bool 0 ((len coef - len sig) / 2) = false)
          by (apply CorrelogramCountFacts.Qlt_bool_false_iff; lra).
        assert (E2 : Qlt_bool ((len coef - len sig) / 2) 0 = false)
          by (apply CorrelogramCountFacts.Qlt_bool_false_iff; lra).
        rewrite E1, E2. split; lia.
      - assert (E1 : Qlt_bool 0 ((len coef - len sig) / 2) = true)
          by (apply Qlt_bool_iff; exact Hpos).
        rewrite E1. split; [lia|].
        apply (length_trimmed coef (length sig)). lia. }
    destruct nrm; simpl bind; cbv zeta; fold coef.
    + destruct (if Qlt_bool 0 _ then _ else _) as [coef'|e'];
        [destruct Hbody; repeat split; (assumption || discriminate)
        |destruct Hbody; auto].
    + destruct (if Qlt_bool 0 _ then _ else _) as [coef'|e'];
        [destruct Hbody; repeat split; (assumption || discriminate)
        |destruct Hbody; auto].
    + destruct (if Qlt_bool 0 _ then _ else _) as [coef'|e'];
        [destruct Hbody; repeat split; (assumption || discriminate)
        |destruct Hbody; auto].
    + auto.
  - apply convolve_raises in Hconv as [-> Hempty].
    assert (Hor : sig = [] \/ (length int_psi_scale < 2)%nat).
    { destruct Hempty as [->| ->]; [left; reflexivity|right; simpl; lia]. }
    destruct nrm; simpl; (split; [reflexivity|tauto]).
Qed.

End WaveletFacts.

End SignalProcessingFacts.

(** * Perievent alignment *)

Module PerieventFacts.
Import Numpy NumpyFacts Perievent.

Lemma slice_between_take_drop {A : Type} (a : list A) (l r : nat) :
  (l <= length a)%nat -> (r <= length a)%nat ->
  slice_between a l r = firstn (r - l) (skipn l a).
Proof.
  intros Hl Hr. unfold slice_between, TimeSeries.slice_indices.
  change (1 <? 0)%Z with false. cbv iota.
  destruct (Z.of_nat l <? 0)%Z eqn:E1; [apply Z.ltb_lt in E1; lia|].
  destruct (Z.of_nat r <? 0)%Z eqn:E2; [apply Z.ltb_lt in E2; lia|].
  rewrite !Z.min_l by lia. rewrite Nat2Z.id. f_equal. lia.
Qed.

Section Keyed.
(** Entries of any kind, sorted by a key. *)
Context {A : Type}.
Variable key : A -> Q.

Lemma filter_all (p : A -> bool) (a : list A) :
  Forall (fun x => p x = true) a -> List.filter p a = a.
Proof.
  induction 1 as [|x a Hx Ha IH]; simpl; [reflexivity|].
  rewrite Hx, IH. reflexivity.
Qed.

Lemma filter_none (p : A -> bool) (a : list A) :
  Forall (fun x => p x = false) a -> List.filter p a = [].
Proof.
  induction 1 as [|x a Hx Ha IH]; simpl; [reflexivity|].
  rewrite Hx. exact IH.
Qed.

Lemma sorted_prefix_below (a : list A) (hi : Q) :
  StronglySorted Qle (map key a) ->
  firstn (searchsorted (map key a) hi) a
  = List.filter (fun x => Qlt_bool (key x) hi) a.
Proof.
  induction a as [|x a IH]; intros Hs; simpl in *; [reflexivity|].
  apply StronglySorted_inv in Hs as [Hs Hx].
  destruct (Qlt_bool (key x) hi) eqn:E; simpl.
  - rewrite IH by exact Hs. reflexivity.
  - symmetry. apply filter_none.
    apply CorrelogramCountFacts.Qlt_bool_false_iff in E.
    rewrite List.Forall_map in Hx.
    eapply List.Forall_impl; [|exact Hx]. simpl. intros y Hy.
    apply CorrelogramCountFacts.Qlt_bool_false_iff. lra.
Qed.

Lemma filter_window_from (b : list A) (lo hi : Q) :
  Forall (fun y => Qle_bool lo (key y) = true) b ->
  List.filter (fun x => Qlt_bool (key x) hi) b
  = List.filter (fun x => Qle_bool lo (key x) && Qlt_bool (key x) hi) b.
Proof.
  induction 1 as [|y b Hy Hb IHb]; [reflexivity|].
  simpl. rewrite Hy. simpl.
  destruct (Qlt_bool (key y) hi); rewrite IHb; reflexivity.
Qed.

(** Between the two insertion points lie the entries of the window. *)
Lemma sorted_window (a : list A) (lo hi : Q) :
  StronglySorted Qle (map key a) ->
  firstn (searchsorted (map key a) hi - searchsorted (map key a) lo)
    (skipn (searchsorted (map key a) lo) a)
  = List.filter (fun x => Qle_bool lo (key x) && Qlt_bool (key x) hi) a.
Proof.
  induction a as [|x a IH]; intros Hs; [reflexivity|].
  pose proof Hs as Hall. simpl in Hs.
  apply StronglySorted_inv in Hs as [Hs Hx].
  rewrite List.Forall_map in Hx.
  destruct (Qlt_bool (key x) lo) eqn:Elo.
  - (* the head is before the window *)
    simpl. rewrite Elo.
    apply Qlt_bool_iff in Elo.
    assert (Ele : Qle_bool lo (key x) = false).
    { destruct (Qle_bool lo (key x)) eqn:E; [|reflexivity].
      apply Qle_bool_iff in E. lra. }
    rewrite Ele. simpl.
    destruct (Qlt_bool (key x) hi) eqn:Ehi; simpl.
    + apply IH, Hs.
    + apply CorrelogramCountFacts.Qlt_bool_false_iff in Ehi.
      symmetry. apply filter_none.
      eapply List.Forall_impl; [|exact Hx]. simpl. intros y Hy.
      destruct (Qle_bool lo (key y)) eqn:E1; [|reflexivity]. simpl.
      apply CorrelogramCountFacts.Qlt_bool_false_iff. lra.
  - (* the window starts at the head *)
    assert (E0 : searchsorted (map key (x :: a)) lo = O)
      by (simpl; rewrite Elo; reflexivity).
    rewrite E0, Nat.sub_0_r. simpl skipn.
    apply CorrelogramCountFacts.Qlt_bool_false_iff in Elo.
    rewrite (sorted_prefix_below (x :: a) hi Hall).
    apply filter_window_from.
    constructor; [apply Qle_bool_iff; exact Elo|].
    eapply List.Forall_impl; [|exact Hx]. simpl. intros y Hy.
    apply Qle_bool_iff. lra.
Qed.

End Keyed.

(** X15. For a series whose index is sorted, the arrays that [_align_tsd]
    cuts out for the reference event [r] are made of the samples with
    [r - window[0] <= t < r + window[1]], in their order: the times counted
    from [r], and the data. The window is closed on the left and open on the
    right. *)
Theorem align_tsd_window {V : Type} (index : list Q) (values : list V)
  (tref : list Q) (w0 w1 : Q) (i : nat) (r : Q) :
  StronglySorted Qle index ->
  length values = length index ->
  tref !! i = Some r ->
  let samples :=
    List.filter (inside (r - w0) (r + w1)) (zip index values) in
  _align_tsd index values tref (w0, w1) !! i
  = Some (map (fun s => fst s - r) samples, map snd samples).
Proof.
  intros Hs Hlen Hi samples. unfold _align_tsd.
  pose proof (lookup_lt_Some _ _ _ Hi) as Hlt.
  rewrite list_lookup_fmap, lookup_seq_lt by exact Hlt.
  simpl. cbv zeta.
  rewrite (nth_lookup_Some tref i 0 r Hi).
  rewrite (nth_lookup_Some _ i O (searchsorted index (r - w0)))
    by (rewrite list_lookup_fmap, Hi; reflexivity).
  rewrite (nth_lookup_Some _ i O (searchsorted index (r + w1)))
    by (rewrite list_lookup_fmap, Hi; reflexivity).
  set (L := searchsorted index (r - w0)).
  set (R := searchsorted index (r + w1)).
  pose proof (searchsorted_le_length index (r - w0)) as HL.
  pose proof (searchsorted_le_length index (r + w1)) as HR.
  rewrite !slice_between_take_drop by (fold L R; lia).
  assert (Hfst : map fst (zip index values) = index)
    by (apply fst_zip; lia).
  assert (Hsnd : map snd (zip index values) = values)
    by (apply snd_zip; lia).
  assert (Hsamples :
            samples = firstn (R - L) (skipn L (zip index values))).
  { pose proof (sorted_window fst (zip index values) (r - w0) (r + w1))
      as Hw.
    rewrite Hfst in Hw. symmetry. exact (Hw Hs). }
  rewrite Hsamples. f_equal. f_equal.
  - rewrite <- Hfst at 1.
    rewrite skipn_map, firstn_map, List.map_map. reflexivity.
  - rewrite <- Hsnd at 1.
    rewrite skipn_map, firstn_map. reflexivity.
Qed.

Lemma align_tsd_window_witness :
  _align_tsd [0; 1; 2; 3; 4] [10; 11; 12; 13; 14]%Z [1; 3] (1, 1) !! 1%nat
  = Some (map (fun s => fst s - 3)
            (List.filter (inside (3 - 1) (3 + 1))
               (zip [0; 1; 2; 3; 4] [10; 11; 12; 13; 14]%Z)),
          map snd
            (List.filter (inside (3 - 1) (3 + 1))
               (zip [0; 1; 2; 3; 4] [10; 11; 12; 13; 14]%Z))).
Proof.
  apply (align_tsd_window [0; 1; 2; 3; 4] [10; 11; 12; 13; 14]%Z
           [1; 3] 1 1 1 3).
  - repeat constructor; unfold Qle; simpl; lia.
  - reflexivity.
  - reflexivity.
Defined.

Lemma rev_seq_from_1 (n : nat) :
  rev (seq 1 n) = map (fun k => (n - k)%nat) (seq 0 n).
Proof.
  induction n as [|n IH]; [reflexivity|].
  rewrite seq_S, rev_app_distr. simpl rev. simpl app.
  rewrite IH. rewrite <- cons_seq, <- seq_shift. simpl map.
  rewrite List.map_map. reflexivity.
Qed.

(** X16. For a window [(start, end)] of non-negative sides and a positive
    bin size that are whole numbers of seconds below [2^53], the time index
    of [compute_event_trigger_average] is the regular grid of the multiples
    of [binsize] from [- n_p * binsize] to [n_f * binsize], with
    [n_p = ceil(start / binsize)] and [n_f = ceil(end / binsize)]: zero is
    entry [n_p], and the grid reaches [- start] and [end] or goes beyond them
    by less than a bin. *)
Theorem time_idx_grid (start end_ : Z) (binsize : positive) :
  (0 <= start)%Z -> (0 <= end_)%Z ->
  (start + Z.pos binsize < 2 ^ 53)%Z -> (end_ + Z.pos binsize < 2 ^ 53)%Z ->
  let n_p := Z.to_nat (ceil_div start (Z.pos binsize)) in
  let n_f := Z.to_nat (ceil_div end_ (Z.pos binsize)) in
  length (time_idx start end_ binsize) = (n_p + n_f + 1)%nat
  /\ (forall (j : nat) t,
        time_idx start end_ binsize !! j = Some t ->
        t = ((Z.of_nat j - Z.of_nat n_p) * Z.pos binsize)%Z)
  /\ (start <= Z.of_nat n_p * Z.pos binsize < start + Z.pos binsize)%Z
  /\ (end_ <= Z.of_nat n_f * Z.pos binsize < end_ + Z.pos binsize)%Z.
Proof.
  intros Hs He _ _ n_p n_f. unfold time_idx. cbv zeta.
  set (b := Z.pos binsize) in *.
  assert (Hb : (0 < b)%Z) by (unfold b; lia).
  pose proof (arange_values_step 0 start b Hb Hs) as Ep.
  pose proof (arange_values_step 0 end_ b Hb He) as Ef.
  rewrite !Z.sub_0_r in Ep, Ef. fold n_p in Ep. fold n_f in Ef.
  rewrite Ep, Ef.
  set (f := fun i : nat => (0 + Z.of_nat i * b)%Z).
  assert (E1 : map Z.opp (removelast (rev (map f (seq 0 (S n_p)))))
               = map (fun k => (- f (n_p - k)%nat)%Z) (seq 0 n_p)).
  { rewrite <- cons_seq. simpl map. simpl rev.
    rewrite removelast_last, <- map_rev, rev_seq_from_1, !List.map_map.
    reflexivity. }
  assert (E2 : tail (map f (seq 0 (S n_f)))
               = map (fun k => f (S k)) (seq 0 n_f)).
  { rewrite <- cons_seq. simpl map. simpl tail.
    rewrite <- seq_shift, List.map_map. reflexivity. }
  rewrite E1, E2.
  pose proof (ceil_div_spec start b Hb) as Hcp.
  pose proof (ceil_div_spec end_ b Hb) as Hcf.
  pose proof (ceil_div_nonneg start b Hb Hs) as Hp0.
  pose proof (ceil_div_nonneg end_ b Hb He) as Hf0.
  split; [|split; [|split]].
  - rewrite !length_app, !length_map, !length_seq. simpl. lia.
  - intros j t Hj.
    destruct (Nat.lt_ge_cases j n_p) as [Hlt|Hge].
    + rewrite lookup_app_l in Hj by (rewrite length_map, length_seq; lia).
      rewrite list_lookup_fmap, lookup_seq_lt in Hj by lia.
      simpl in Hj. injection Hj as <-. unfold f.
      rewrite Nat2Z.inj_sub by lia. lia.
    + rewrite lookup_app_r in Hj by (rewrite length_map, length_seq; lia).
      rewrite length_map, length_seq in Hj.
      destruct (j - n_p)%nat as [|k] eqn:Ek.
      * simpl in Hj. injection Hj as <-.
        replace j with n_p by lia. lia.
      * simpl in Hj.
        rewrite list_lookup_fmap in Hj.
        destruct (seq 0 n_f !! k) as [k'|] eqn:Ek'; [|discriminate].
        apply lookup_seq in Ek' as [-> _]. simpl in Hj.
        injection Hj as <-. unfold f.
        replace (Z.of_nat (S k)) with (Z.of_nat j - Z.of_nat n_p)%Z by lia.
        lia.
  - unfold n_p. rewrite Z2Nat.id by exact Hp0. nia.
  - unfold n_f. rewrite Z2Nat.id by exact Hf0. nia.
Qed.

(** A window of [(3, 1)] seconds in bins of 2 seconds: the index is
    [[-4, -2, 0, 2]]. *)
Lemma time_idx_grid_witness :
  length (time_idx 3 1 2) = (2 + 1 + 1)%nat
  /\ (forall (j : nat) t,
        time_idx 3 1 2 !! j = Some t ->
        t = ((Z.of_nat j - Z.of_nat 2) * 2)%Z)
  /\ (3 <= Z.of_nat 2 * 2 < 3 + 2)%Z
  /\ (1 <= Z.of_nat 1 * 2 < 1 + 2)%Z.
Proof.
  apply (time_idx_grid 3 1 2); [lia|lia| |]; vm_compute; reflexivity.
Defined.

End PerieventFacts.

(** * The containers again: data order and the array protocol *)

Module ArrayProtocolFacts.
Import TimeSeries TimeSeriesFacts ArrayProtocol.

Section ProtocolFacts.
Variable decimals : nat.

(** X17. A [Tsd] built from times and data, without time support, holds
    the times in increasing order and the data as they were given: the
    constructor sorts the time array alone, so on times that were not sorted
    a value no longer stands beside the time it came with. *)
Theorem constructor_keeps_data_order (t : list Q) (d : ndarray) (r : series) :
  Tsd_init decimals (Arr (Array1 t)) (Some (Arr d)) "s" None = Ok r ->
  t <> [] ->
  index r = normalized decimals t
  /\ StronglySorted Qlt (index r)
  /\ values r = d.
Proof.
  unfold Tsd_init, Tsd_init_as. simpl. rewrite init_body_seconds.
  intros H Ht.
  destruct (normalized decimals t) as [|t0 t'] eqn:Hn.
  { apply normalized_nil_iff in Hn. contradiction. }
  injection H as <-. simpl. rewrite <- Hn.
  repeat split. apply normalized_sorted.
Qed.

(** X18. What a universal function returns for a [Tsd] or a [TsdFrame]
    is built from the index of the container and the computed array alone:
    its time support is the single interval from its first to its last
    timestamp, whatever the time support of the container was. *)
Theorem ufunc_resets_time_support
  (ufunc : list npitem -> result ndarray) (method : string)
  (self : series) (args : list ufunc_arg) (r : series) :
  Tsd_array_ufunc decimals ufunc method self args = Ok (Some r)
  \/ TsdFrame_array_ufunc decimals ufunc method self args = Ok (Some r) ->
  index r = normalized decimals (index self)
  /\ time_support r = bounding_support (index r).
Proof.
  unfold Tsd_array_ufunc, TsdFrame_array_ufunc, Tsd_init, Tsd_init_as,
    TsdFrame_init.
  intros [H|H]; destruct (String.eqb method "__call__"); try discriminate.
  - destruct (new_args "Tsd" args) as [l|]; [|discriminate].
    destruct (ufunc l) as [out|e]; [|discriminate]. simpl in H.
    destruct (init_body_bounding decimals "Tsd" (index self) out)
      as (r0 & Hr0 & _ & Hi & Hs).
    rewrite Hr0 in H. simpl in H. injection H as <-. auto.
  - destruct (new_args "TsdFrame" args) as [l|]; [|discriminate].
    destruct (ufunc l) as [out|e]; [|discriminate]. simpl in H.
    set (d := match out with
              | Array1 data => Array2 (map (fun x => [x]) data)
              | Array2 rows => Array2 rows
              end) in H.
    destruct (init_body_bounding decimals "TsdFrame" (index self) d)
      as (r0 & Hr0 & _ & Hi & Hs).
    rewrite Hr0 in H. simpl in H. injection H as <-. auto.
Qed.

End ProtocolFacts.

Lemma constructor_keeps_data_order_witness :
  let r := mk_series "Tsd" [1; 2] (Array1 [20; 10]) [(1, 2)] (Fin 2) in
  index r = normalized 9 [2; 1]
  /\ StronglySorted Qlt (index r)
  /\ values r = Array1 [20; 10].
Proof.
  intros r.
  apply (constructor_keeps_data_order 9%nat [2; 1] (Array1 [20; 10]) r).
  - vm_compute. reflexivity.
  - discriminate.
Defined.

Lemma ufunc_resets_time_support_witness :
  let self :=
    mk_series "Tsd" [1; 2; 3] (Array1 [10; 20; 30]) [(0, 10)] (Fin (3 # 10)) in
  let r := mk_series "Tsd" [1; 2; 3] (Array1 [11; 21; 31]) [(1, 3)] (Fin (3 # 2)) in
  index r = normalized 9 (index self)
  /\ time_support r = bounding_support (index r).
Proof.
  intros self r.
  apply (ufunc_resets_time_support 9%nat
           (fun l => match l with
                     | [Arr (Array1 a); Scalar x] =>
                         Ok (Array1 (map (fun v => Qred (v + x)) a))
                     | _ => Raise TypeError
                     end)
           "__call__" self [ArgSeries self; ArgNumber 1] r).
  left. vm_compute. reflexivity.
Defined.

End ArrayProtocolFacts.

(** * The autocorrelogram away from lag zero *)

Module AutocorrelogramColumnFacts.
Import Correlograms TimeSeries Autocorrelogram CorrelogramFacts
  AutocorrelogramFacts.

(** What the loop over the keys stores under each key. *)
Lemma loop_columns binsize windowsize (m : gmap Z series) d :
  map_fold (autocorr_step binsize windowsize) (Ok ∅) m = Ok d ->
  forall n x,
    m !! n = Some x ->
    exists C B,
      _cross_correlogram (index x) (index x) binsize windowsize = Ok (C, B)
      /\ d !! n = Some (map (fun x => np_around x 6) B, C).
Proof.
  revert d.
  apply (map_fold_weak_ind
           (fun acc m =>
              forall d, acc = Ok d ->
              forall n x, m !! n = Some x ->
              exists C B,
                _cross_correlogram (index x) (index x) binsize windowsize
                = Ok (C, B)
                /\ d !! n = Some (map (fun x => np_around x 6) B, C))).
  - intros d _ n x Hn. rewrite lookup_empty in Hn. discriminate.
  - intros k y m' acc Hfresh IH d Hstep n x Hn.
    unfold autocorr_step in Hstep.
    destruct acc as [d0|e]; [|discriminate]. simpl in Hstep.
    destruct (_cross_correlogram (index y) (index y) binsize windowsize)
      as [[auc times]|e] eqn:Hcc; [|discriminate].
    simpl in Hstep. injection Hstep as <-.
    destruct (decide (n = k)) as [->|Hne].
    + rewrite lookup_insert_eq in Hn. injection Hn as <-.
      exists auc, times. split; [exact Hcc|].
      rewrite lookup_insert_eq. reflexivity.
    + rewrite lookup_insert_ne in Hn by congruence.
      destruct (IH d0 eq_refl n x Hn) as (C & B & HC & Hd).
      exists C, B. split; [exact HC|].
      rewrite lookup_insert_ne by congruence. exact Hd.
Qed.

Section ColumnFacts.
Variable decimals : nat.

(** X19. Called on the whole group, [compute_autocorrelogram] returns a
    frame whose rows are labelled by the bin centers rounded to six decimals
    and whose column for a unit is the cross-correlogram of the spike times
    of the unit with themselves, divided by the rate of the unit when [norm]
    is set, on every row whose label is not zero. *)
Theorem autocorrelogram_off_zero_lag (group : TsGroup)
  (binsize windowsize b w : Q) (norm : bool) (time_units : string)
  (df : DataFrame) (n : Z) (x : series) :
  compute_autocorrelogram decimals group binsize windowsize None norm
    time_units = Ok df ->
  format_scalar decimals binsize time_units = Ok b ->
  format_scalar decimals windowsize time_units = Ok w ->
  members group !! n = Some x ->
  exists C B col,
    _cross_correlogram (index x) (index x) b w = Ok (C, B)
    /\ df_index df = map (fun t => np_around t 6) B
    /\ df_columns df !! n = Some col
    /\ forall (i : nat) label c,
         df_index df !! i = Some label -> ~ label == 0 ->
         C !! i = Some c ->
         col !! i = Some (if norm then fdiv c (rate x) else c).
Proof.
  intros H Hb Hw Hn. unfold compute_autocorrelogram in H.
  rewrite Hb, Hw in H. unfold bind at 1 2 in H.
  destruct (map_fold _ _ _) as [d|e] eqn:Hloop; [|discriminate].
  unfold bind in H.
  destruct (loop_columns b w (members group) d Hloop n x Hn)
    as (C & B & HC & Hd).
  pose proof (loop_built b w (members group) d Hloop) as Hbuilt.
  cbv zeta in Hbuilt.
  pose proof (cross_correlogram_inv _ _ _ _ _ _ HC) as [HB HlenC].
  cbv zeta in HB, HlenC.
  set (idx := map (fun x => np_around x 6)
                (bin_centers (Z.to_nat (number_of_bins b w)) b
                   (half_window (number_of_bins b w) b))) in *.
  assert (Hidx : df_index (from_dict d) = idx).
  { unfold from_dict. simpl.
    destruct (map_to_list d) as [|[k s] rest] eqn:El.
    - apply map_to_list_empty_iff in El. subst d.
      rewrite lookup_empty in Hd. discriminate.
    - assert (Hs : d !! k = Some s)
        by (apply elem_of_map_to_list; rewrite El; left).
      destruct Hbuilt as [_ Hent]. destruct (Hent k s Hs) as [-> _].
      reflexivity. }
  assert (Hcol0 : df_columns (from_dict d) !! n = Some C).
  { unfold from_dict. simpl. rewrite lookup_fmap, Hd. reflexivity. }
  set (normed := if norm
                 then divide_columns (from_dict d) (get_info_rate group)
                 else from_dict d) in H.
  assert (Hnormed :
            df_index normed = idx
            /\ df_columns normed !! n
               = Some (map (fun c => if norm then fdiv c (rate x) else c) C)).
  { unfold normed. destruct norm.
    - split; [exact Hidx|]. unfold divide_columns. cbn [df_columns].
      rewrite map_lookup_imap, Hcol0. simpl.
      unfold get_info_rate. rewrite lookup_fmap, Hn. reflexivity.
    - split; [exact Hidx|]. rewrite Hcol0, List.map_id. reflexivity. }
  destruct Hnormed as [Hidx' Hcol'].
  exists C, B.
  destruct (has_zero_label normed) eqn:Hzero; injection H as <-.
  - eexists. split; [exact HC|]. split; [|split].
    + simpl. rewrite Hidx', HB. reflexivity.
    + unfold set_zero_rows. simpl. rewrite lookup_fmap, Hcol'. reflexivity.
    + intros i label c Hlabel Hnz Hc. simpl in Hlabel.
      rewrite lookup_zip_with, Hlabel. simpl.
      rewrite list_lookup_fmap, Hc. simpl.
      destruct (Qeq_bool label 0) eqn:E; [|reflexivity].
      apply Qeq_bool_iff in E. contradiction.
  - eexists. split; [exact HC|]. split; [|split].
    + rewrite Hidx', HB. reflexivity.
    + exact Hcol'.
    + intros i label c Hlabel Hnz Hc.
      rewrite list_lookup_fmap, Hc. reflexivity.
Qed.

End ColumnFacts.

Lemma autocorrelogram_off_zero_lag_witness :
  let x := mk_series "Ts" [0; 10] (Array1 [0; 0]) [(0, 10)] (Fin (2 # 10)) in
  let group := mk_TsGroup {[ 1%Z := x ]} in
  exists df C B col,
    compute_autocorrelogram 9 group 1 10 None true "s" = Ok df
    /\ _cross_correlogram (index x) (index x) 1 10 = Ok (C, B)
    /\ df_index df = map (fun t => np_around t 6) B
    /\ df_columns df !! 1%Z = Some col
    /\ forall (i : nat) label c,
         df_index df !! i = Some label -> ~ label == 0 ->
         C !! i = Some c ->
         col !! i = Some (fdiv c (rate x)).
Proof.
  intros x group.
  destruct (compute_autocorrelogram 9 group 1 10 None true "s")
    as [df|e] eqn:Hdf; [|vm_compute in Hdf; discriminate Hdf].
  exists df.
  destruct (autocorrelogram_off_zero_lag 9 group 1 10 1 10 true "s" df
              1%Z x Hdf)
    as (C & B & col & H).
  - vm_compute. reflexivity.
  - vm_compute. reflexivity.
  - reflexivity.
  - exists C, B, col. split; [reflexivity|exact H].
Defined.

End AutocorrelogramColumnFacts.

(** * When [_cross_correlogram] raises *)

Module CorrelogramErrorFacts.
Import Correlograms CorrelogramFacts.

Lemma number_of_bins_negative binsize windowsize :
  0 < binsize -> windowsize < 0 ->
  (number_of_bins binsize windowsize < 0)%Z.
Proof.
  intros Hb Hw.
  assert (Hneg : (Qfloor ((windowsize * 2) / binsize) < 0)%Z).
  { pose proof (Qfloor_le ((windowsize * 2) / binsize)) as Hle.
    assert (Hq : (windowsize * 2) / binsize < 0).
    { apply Qlt_shift_div_r; [exact Hb|]. lra. }
    assert (H : inject_Z (Qfloor ((windowsize * 2) / binsize)) < inject_Z 0)
      by (change (inject_Z 0) with 0; lra).
    rewrite <- Zlt_Qlt in H. exact H. }
  rewrite number_of_bins_spec. cbv zeta.
  destruct (Z.even _) eqn:Hev; [|exact Hneg].
  destruct (Z.eq_dec (Qfloor ((windowsize * 2) / binsize)) (-1)%Z) as [E|E];
    [rewrite E in Hev; discriminate Hev|lia].
Qed.

Lemma parity_of_nat (n : nat) :
  Z.even (Z.of_nat n) = Nat.even n /\ Z.odd (Z.of_nat n) = Nat.odd n.
Proof.
  induction n as [|n [IHe IHo]]; [split; reflexivity|].
  rewrite Nat2Z.inj_succ, Z.even_succ, Z.odd_succ, Nat.even_succ, Nat.odd_succ.
  split; assumption.
Qed.

(** X20. The failures of [_cross_correlogram], whatever the two time
    arrays hold: a bin size of zero raises [ZeroDivisionError]; with a
    positive bin size, a negative window size raises [ValueError], and a
    window size that is not negative makes the function return two arrays
    of the same odd length. *)
Theorem cross_correlogram_failures (t1 t2 : list Q) (binsize windowsize : Q) :
  (binsize == 0 ->
   _cross_correlogram t1 t2 binsize windowsize = Raise ZeroDivisionError)
  /\ (0 < binsize -> windowsize < 0 ->
      _cross_correlogram t1 t2 binsize windowsize = Raise ValueError)
  /\ (0 < binsize -> 0 <= windowsize ->
      exists C B,
        _cross_correlogram t1 t2 binsize windowsize = Ok (C, B)
        /\ length C = length B
        /\ Nat.odd (length C) = true).
Proof.
  split; [|split].
  - intros Hz. unfold _cross_correlogram.
    apply Qeq_bool_iff in Hz. rewrite Hz. reflexivity.
  - intros Hb Hw. unfold _cross_correlogram.
    destruct (Qeq_bool binsize 0) eqn:E.
    { apply Qeq_bool_iff in E. lra. }
    pose proof (number_of_bins_negative binsize windowsize Hb Hw) as Hn.
    apply Z.ltb_lt in Hn. rewrite Hn. reflexivity.
  - intros Hb Hw.
    assert (Hn : (1 <= number_of_bins binsize windowsize)%Z)
      by (apply CorrelogramLoopFacts.number_of_bins_pos; assumption).
    destruct (cross_correlogram_returns t1 t2 binsize windowsize)
      as (C & HC & Hlen); [lra|lia|].
    cbv zeta in HC, Hlen.
    eexists _, _. split; [exact HC|].
    rewrite bin_centers_length. split; [exact Hlen|].
    rewrite Hlen.
    pose proof (number_of_bins_odd binsize windowsize) as Hodd.
    rewrite <- (Z2Nat.id (number_of_bins binsize windowsize)) in Hodd by lia.
    rewrite <- Hodd. symmetry. apply parity_of_nat.
Qed.

Lemma cross_correlogram_failures_witness :
  _cross_correlogram [0; 1] [0; 1; 2] 0 1 = Raise ZeroDivisionError
  /\ _cross_correlogram [0; 1] [0; 1; 2] 1 (-1) = Raise ValueError
  /\ exists C B,
       _cross_correlogram [0; 1] [0; 1; 2] 1 1 = Ok (C, B)
       /\ length C = length B
       /\ Nat.odd (length C) = true.
Proof.
  split; [|split].
  - apply (proj1 (cross_correlogram_failures [0; 1] [0; 1; 2] 0 1)).
    reflexivity.
  - apply (proj1 (proj2 (cross_correlogram_failures [0; 1] [0; 1; 2] 1 (-1)))).
    + reflexivity.
    + reflexivity.
  - apply (proj2 (proj2 (cross_correlogram_failures [0; 1] [0; 1; 2] 1 1))).
    + reflexivity.
    + discriminate.
Defined.

End CorrelogramErrorFacts.
